(** * MathParser: a shallow embedding of [Parser.hpp] and its properties

    The development follows the layout of the C++ header: the character
    classes of <cctype>, the [Expression] tree, the [Parser] object with its
    registry tables, the tokenizer [ParseToken], the two mutually recursive
    parsing procedures, the tree evaluator [Evaluate] and the entry point
    [Get].

    [long double] and the <cmath> functions are kept abstract behind the
    [LongDouble] interface; [ExactLD] is an instance computing with exact
    rationals. *)

From Stdlib Require Import ZArith QArith Qpower String Ascii List Lia.
From stdpp Require Import base option gmap strings list pretty.

Local Open Scope string_scope.
Local Open Scope Z_scope.

(** ** Characters (<cctype>, "C" locale) *)

Definition NUL : ascii := "000"%char.

Definition isspace (c : ascii) : bool :=
  let n := Z.of_nat (nat_of_ascii c) in (n =? 32) || ((9 <=? n) && (n <=? 13)).

Definition isdigit (c : ascii) : bool :=
  let n := Z.of_nat (nat_of_ascii c) in (48 <=? n) && (n <=? 57).

Definition isupper (c : ascii) : bool :=
  let n := Z.of_nat (nat_of_ascii c) in (65 <=? n) && (n <=? 90).

Definition islower (c : ascii) : bool :=
  let n := Z.of_nat (nat_of_ascii c) in (97 <=? n) && (n <=? 122).

Definition isalpha (c : ascii) : bool := isupper c || islower c.

Definition tolower (c : ascii) : ascii :=
  if isupper c then ascii_of_nat (nat_of_ascii c + 32) else c.

Definition ascii_eqb (a b : ascii) : bool := Ascii.eqb a b.

(** ** Strings *)

Fixpoint string_map (f : ascii -> ascii) (s : string) : string :=
  match s with
  | EmptyString => EmptyString
  | String c s' => String (f c) (string_map f s')
  end.

Fixpoint string_existsb (f : ascii -> bool) (s : string) : bool :=
  match s with
  | EmptyString => false
  | String c s' => f c || string_existsb f s'
  end.

Fixpoint string_forallb (f : ascii -> bool) (s : string) : bool :=
  match s with
  | EmptyString => true
  | String c s' => f c && string_forallb f s'
  end.

(** [s.push_back(c)] *)
Fixpoint push_back (s : string) (c : ascii) : string :=
  match s with
  | EmptyString => String c EmptyString
  | String a s' => String a (push_back s' c)
  end.

(** [s.back()], for a non-empty [s] *)
Fixpoint back (s : string) : option ascii :=
  match s with
  | EmptyString => None
  | String c EmptyString => Some c
  | String _ s' => back s'
  end.

Definition size (s : string) : Z := Z.of_nat (String.length s).

Fixpoint string_drop (n : nat) (s : string) : string :=
  match n, s with
  | O, _ => s
  | S n', String _ s' => string_drop n' s'
  | S _, EmptyString => EmptyString
  end.

(** *** Decimal numerals *)

Definition digit_or_point (c : ascii) : bool := isdigit c || ascii_eqb c ".".

Definition starts_with_digit (s : string) : bool :=
  match s with
  | String c _ => isdigit c
  | EmptyString => false
  end.

Definition ends_with_point (s : string) : bool :=
  match back s with
  | Some l => ascii_eqb l "."
  | None => false
  end.

(** What [read_number] keeps true of the token it extends. *)
Definition number_prefix (tok : string) : bool :=
  starts_with_digit tok && string_forallb digit_or_point tok.

(** The shape of the text the tokenizer accepts as a number: it begins
    with a digit, holds digits and points only and does not end with a
    point. *)
Definition numeric_token (s : string) : bool :=
  starts_with_digit s && string_forallb digit_or_point s && negb (ends_with_point s).

Fixpoint count_points (s : string) : nat :=
  match s with
  | EmptyString => O
  | String c s' => ((if ascii_eqb c "." then 1 else 0) + count_points s')%nat
  end.

(** An unsigned decimal numeral: not empty, digits with at most one
    decimal point. *)
Definition unsigned_decimal (s : string) : bool :=
  negb (String.eqb s "") && string_forallb digit_or_point s &&
  (count_points s <=? 1)%nat.

Definition digit_value (c : ascii) : Z := Z.of_nat (nat_of_ascii c) - 48.

(** The leading digits of [s]: their value on top of [acc], their number
    and what follows them. *)
Fixpoint take_digits (acc : Z) (s : string) : Z * nat * string :=
  match s with
  | EmptyString => (acc, O, EmptyString)
  | String c s' =>
      if isdigit c
      then let '(v, k, rest) := take_digits (10 * acc + digit_value c) s' in
           (v, S k, rest)
      else (acc, O, s)
  end.

(** The value of a non-empty string of digits. *)
Definition decimal (s : string) : option Z :=
  match take_digits 0 s with
  | (v, S _, EmptyString) => Some v
  | _ => None
  end.

(** ** The numeric domain *)

(** The <cmath> functions the built-in table calls on one argument. *)
Inductive libm : Set :=
  | Fabs | Log2 | Log10 | Log | Sin | Cos | Tan | Asin | Acos | Atan | Sqrt | Tgamma.

(** [long double] with the operations the program applies to it.
    [ld_to_long] is the cast [(long int)a], [None] where the cast is
    undefined; [ld_stold] is [std::stold], [None] where it throws;
    [ld_to_string] is [std::to_string]. *)
Class LongDouble := {
  ld : Type;
  ld_of_Z : Z -> ld;
  ld_pi : ld;
  ld_neg : ld -> ld;
  ld_add : ld -> ld -> ld;
  ld_sub : ld -> ld -> ld;
  ld_mul : ld -> ld -> ld;
  ld_div : ld -> ld -> ld;
  ld_pow : ld -> ld -> ld;
  ld_libm : libm -> ld -> ld;
  ld_to_long : ld -> option Z;
  LONG_MIN : Z;
  ld_stold : string -> option ld;
  ld_to_string : ld -> string
}.

(** n! *)
Fixpoint factorial (n : nat) : Z :=
  match n with
  | O => 1
  | S n' => Z.of_nat n * factorial n'
  end.

(** The integers that every binary floating-point format of at least 53
    bits represents. *)
Definition representable (n : Z) : Prop := Z.abs n <= 2 ^ 53.

(** What is assumed of [long double] arithmetic and of the C library on
    these integers: an operation whose exact result is such an integer
    returns it (Γ(n) = (n-1)! for [tgamma]); the cast of such an integer to
    [long int] gives it back when it fits in 32 bits; [std::stold] reads a
    numeral without error when its value is such an integer; and a numeral
    with at most six decimals and an integer part under 2^31 is read as a
    value that the cast truncates to the integer part. *)
Class ExactArith (LD : LongDouble) : Prop := {
  add_exact : forall a b,
    representable a -> representable b -> representable (a + b) ->
    ld_add (ld_of_Z a) (ld_of_Z b) = ld_of_Z (a + b);
  sub_exact : forall a b,
    representable a -> representable b -> representable (a - b) ->
    ld_sub (ld_of_Z a) (ld_of_Z b) = ld_of_Z (a - b);
  mul_exact : forall a b,
    representable a -> representable b -> representable (a * b) ->
    ld_mul (ld_of_Z a) (ld_of_Z b) = ld_of_Z (a * b);
  pow_exact : forall a b,
    0 <= b -> representable a -> representable b -> representable (a ^ b) ->
    ld_pow (ld_of_Z a) (ld_of_Z b) = ld_of_Z (a ^ b);
  tgamma_exact : forall n,
    1 <= n <= 18 ->
    ld_libm Tgamma (ld_of_Z n) = ld_of_Z (factorial (Z.to_nat (n - 1)));
  to_long_of_Z : forall n,
    - 2 ^ 31 <= n < 2 ^ 31 -> ld_to_long (ld_of_Z n) = Some n;
  stold_decimal : forall s n,
    decimal s = Some n -> representable n -> ld_stold s = Some (ld_of_Z n);
  stold_truncated : forall ip fp n,
    decimal ip = Some n -> is_Some (decimal fp) ->
    n < 2 ^ 31 -> (String.length fp <= 6)%nat ->
    exists x, ld_stold (ip ++ "." ++ fp) = Some x /\ ld_to_long x = Some n
}.

(** ** Expression trees *)

#[warnings="-register-all"] Inductive Expression : Type :=
  mkExpression { token : string; arguments : list Expression }.

(** The three constructors of the C++ struct. *)
Definition Expression0 (tok : string) : Expression := mkExpression tok [].
Definition Expression1 (tok : string) (rhs : Expression) : Expression :=
  mkExpression tok [rhs].
Definition Expression2 (tok : string) (lhs rhs : Expression) : Expression :=
  mkExpression tok [lhs; rhs].

(** [return {};] *)
Definition Expression_default : Expression := Expression0 "".

(** The tokens of the nodes without arguments, from left to right. *)
Fixpoint leaves (e : Expression) : list string :=
  match e with
  | mkExpression tok args =>
      match args with
      | [] => [tok]
      | _ :: _ => flat_map leaves args
      end
  end.

Inductive State : Set :=
  | Ok
  | InvalidSyntax
  | UnknownBinaryOperator
  | UnknownUnaryOperator
  | UnknownExpressionType.

Definition State_eqb (a b : State) : bool :=
  match a, b with
  | Ok, Ok | InvalidSyntax, InvalidSyntax
  | UnknownBinaryOperator, UnknownBinaryOperator
  | UnknownUnaryOperator, UnknownUnaryOperator
  | UnknownExpressionType, UnknownExpressionType => true
  | _, _ => false
  end.

(** ** Outcomes of a call

    [Done] is a normal return. [OutOfFuel] is reported when the recursion
    of the parser is deeper than the fuel given. [Undefined] marks behaviour
    the C++ standard leaves undefined (dereferencing the cursor outside the
    buffer, integer division by zero, reaching the end of [Evaluate]
    without a [return]), [Thrown] an exception that nothing
    catches. *)
Inductive outcome (A : Type) : Type :=
  | Done (a : A)
  | OutOfFuel
  | Undefined
  | Thrown.
Arguments Done {A} a.
Arguments OutOfFuel {A}.
Arguments Undefined {A}.
Arguments Thrown {A}.

Definition outcome_map {A B} (f : A -> B) (o : outcome A) : outcome B :=
  match o with
  | Done a => Done (f a)
  | OutOfFuel => OutOfFuel
  | Undefined => Undefined
  | Thrown => Thrown
  end.

(** [GetPriority] does not read the object. *)
Definition GetPriority (binaryOp : string) : Z :=
  if String.eqb binaryOp "+" then 1
  else if String.eqb binaryOp "-" then 1
  else if String.eqb binaryOp "*" then 2
  else if String.eqb binaryOp "/" then 2
  else if String.eqb binaryOp "%" then 3
  else if String.eqb binaryOp "^" then 3
  else 0.

(** The loop shared by [AddOperator] and [AddFunction]:
    [for (it = TOKENS.begin(); it != TOKENS.end(); it++)
       if (it->length() > text.length()) TOKENS.insert(it, text);]
    [std::list::insert] puts [text] before [it] and leaves [it] on the
    same element. *)
Fixpoint insert_before_longer (text : string) (tokens : list string) : list string :=
  match tokens with
  | [] => []
  | t :: rest =>
      if size text <? size t
      then text :: t :: insert_before_longer text rest
      else t :: insert_before_longer text rest
  end.

(** [std::unordered_map::insert]: an existing key keeps its value. *)
Definition map_insert_new {V} (k : string) (v : V) (m : gmap string V) : gmap string V :=
  match m !! k with
  | Some _ => m
  | None => <[k := v]> m
  end.

Section Parser.

Context {LD : LongDouble}.

(** Evaluation order of the two operands of
    [OPERATORS[expr.token](Evaluate(...), Evaluate(...))] is unspecified in
    C++; [rhs_first] selects it. *)
Variable rhs_first : bool.

(** ** The parser object

    [m_Input] is the offset of the cursor from the first character of
    [input], the buffer it points into ([Get]'s local copy, terminated by
    NUL); [None] is a pointer that points nowhere. The unary handlers of
    the built-in table capture [this] and read [m_Radians] when they are
    called, so handlers take the flag as an argument. A binary handler
    returns [None] where its C++ body is undefined. *)
Record Parser : Type := mkParser {
  m_State : State;
  m_Input : option Z;
  input : string;
  m_Radians : bool;
  TOKENS : list string;
  CONSTANTS : gmap string string;
  FUNCTIONS : gmap string (bool -> ld -> ld);
  OPERATORS : gmap string (ld -> ld -> option ld)
}.

Definition set_State (s : State) (p : Parser) : Parser :=
  mkParser s (m_Input p) (input p) (m_Radians p)
           (TOKENS p) (CONSTANTS p) (FUNCTIONS p) (OPERATORS p).

Definition set_Input (i : option Z) (p : Parser) : Parser :=
  mkParser (m_State p) i (input p) (m_Radians p)
           (TOKENS p) (CONSTANTS p) (FUNCTIONS p) (OPERATORS p).

Definition IsOk (p : Parser) : bool := State_eqb (m_State p) Ok.
Definition GetState (p : Parser) : State := m_State p.

(** ** The state monad of the member functions *)

Definition M (A : Type) : Type := Parser -> outcome (A * Parser).

Definition ret {A} (a : A) : M A := fun p => Done (a, p).

Definition bind {A B} (m : M A) (k : A -> M B) : M B :=
  fun p =>
    match m p with
    | Done (a, p') => k a p'
    | OutOfFuel => OutOfFuel
    | Undefined => Undefined
    | Thrown => Thrown
    end.

Notation "x <- m ;; k" := (bind m (fun x => k))
  (at level 100, m at level 99, right associativity, only parsing).
Notation "m ;;; k" := (bind m (fun _ => k))
  (at level 100, right associativity, only parsing).

Definition get {A} (f : Parser -> A) : M A := fun p => Done (f p, p).
Definition modify (f : Parser -> Parser) : M unit := fun p => Done (tt, f p).
Definition fail_with {A} (o : outcome (A * Parser)) : M A := fun _ => o.

(** [*m_Input]: the character under the cursor; the buffer holds the
    characters of [input] followed by one NUL. *)
Definition read (buf : string) (i : Z) : option ascii :=
  if i <? 0 then None
  else match String.get (Z.to_nat i) buf with
       | Some c => Some c
       | None => if i =? size buf then Some NUL else None
       end.

Definition peek : M ascii :=
  fun p =>
    match m_Input p with
    | None => Undefined
    | Some i =>
        match read (input p) i with
        | Some c => Done (c, p)
        | None => Undefined
        end
    end.

(** [m_Input += n] *)
Definition advance (n : Z) : M unit :=
  fun p =>
    match m_Input p with
    | None => Undefined
    | Some i => Done (tt, set_Input (Some (i + n)) p)
    end.

(** [while (std::isspace( *m_Input)) m_Input++;]
    Every test reads a character of the buffer, so [S (length input)]
    tests are never exceeded. *)
Fixpoint skip_spaces (n : nat) : M unit :=
  match n with
  | O => fail_with OutOfFuel
  | S n' =>
      c <- peek ;;
      if isspace c then advance 1 ;;; skip_spaces n' else ret tt
  end.

(** [while (std::isdigit( *m_Input) || *m_Input == '.')
      token.push_back( *m_Input++);] *)
Fixpoint read_number (n : nat) (tok : string) : M string :=
  match n with
  | O => fail_with OutOfFuel
  | S n' =>
      c <- peek ;;
      if isdigit c || ascii_eqb c "."
      then advance 1 ;;; read_number n' (push_back tok c)
      else ret tok
  end.

(** [std::strncmp(m_Input, t->data(), t->length()) == 0]: the characters
    are compared one by one and the comparison stops at the first
    difference or after a NUL on both sides. *)
Fixpoint strncmp_eq (buf : string) (i : Z) (t : string) : option bool :=
  match t with
  | EmptyString => Some true
  | String c t' =>
      match read buf i with
      | None => None
      | Some b =>
          if ascii_eqb b c
          then if ascii_eqb b NUL then Some true else strncmp_eq buf (i + 1) t'
          else Some false
      end
  end.

Definition strncmp_here (t : string) : M bool :=
  fun p =>
    match m_Input p with
    | None => Undefined
    | Some i =>
        match strncmp_eq (input p) i t with
        | Some b => Done (b, p)
        | None => Undefined
        end
    end.

(** The loop over [TOKENS.crbegin() .. TOKENS.crend()]; [ts] is what is
    left of the reversed list. *)
Fixpoint match_tokens (ts : list string) (tok : string) : M (bool * string) :=
  match ts with
  | [] => modify (set_State InvalidSyntax) ;;; ret (false, tok)
  | t :: ts' =>
      hit <- strncmp_here t ;;
      if hit then
        advance (size t) ;;;
        consts <- get CONSTANTS ;;
        match consts !! t with
        | Some text => ret (true, text)
        | None => ret (false, t)
        end
      else match_tokens ts' tok
  end.

(** [bool Parser::ParseToken(std::string& token)]: the reference parameter
    is passed in and handed back with the result. *)
Definition ParseToken (tok : string) : M (bool * string) :=
  n <- get (fun p => S (String.length (input p))) ;;
  skip_spaces n ;;;
  c <- peek ;;
  if ascii_eqb c NUL then ret (false, tok)
  else if isdigit c then
    tok' <- read_number n tok ;;
    if ends_with_point tok'
    then modify (set_State InvalidSyntax) ;;; ret (true, tok')
    else ret (true, tok')
  else
    ts <- get TOKENS ;;
    match_tokens (rev ts) tok.

(** ** The parser

    The two procedures call each other without any bound of their own, so
    the embedding recurses on [fuel]; [BinaryLoop] is the [while (1)] of
    [ParseBinaryExpression]. *)
Fixpoint ParseSimpleExpression (fuel : nat) : M Expression :=
  match fuel with
  | O => fail_with OutOfFuel
  | S fuel' =>
      r <- ParseToken "" ;;
      let '(isNumber, tok) := r in
      ok <- get IsOk ;;
      if negb ok then ret Expression_default
      else if isNumber then ret (Expression0 tok)
      else if String.eqb tok "(" then
        result <- ParseBinaryExpression fuel' 0 ;;
        r' <- ParseToken "" ;;
        let '(_, tok') := r' in
        if negb (String.eqb tok' ")")
        then modify (set_State InvalidSyntax) ;;; ret Expression_default
        else ret result
      else
        rhs <- ParseSimpleExpression fuel' ;;
        ret (Expression1 tok rhs)
  end

with ParseBinaryExpression (fuel : nat) (minPriority : Z) : M Expression :=
  match fuel with
  | O => fail_with OutOfFuel
  | S fuel' =>
      lhs <- ParseSimpleExpression fuel' ;;
      BinaryLoop fuel' minPriority lhs
  end

with BinaryLoop (fuel : nat) (minPriority : Z) (lhs : Expression) : M Expression :=
  match fuel with
  | O => fail_with OutOfFuel
  | S fuel' =>
      r <- ParseToken "" ;;
      let '(_, op) := r in
      let priority := GetPriority op in
      if priority <=? minPriority then
        advance (- size op) ;;; ret lhs
      else
        rhs <- ParseBinaryExpression fuel' priority ;;
        BinaryLoop fuel' minPriority (Expression2 op lhs rhs)
  end.

(** ** The evaluator

    A call of [Evaluate] that leaves its [switch] by [break] (after it has
    assigned [UnknownBinaryOperator] or [UnknownUnaryOperator]), or finds
    no [case] for the number of arguments, reaches the end of a function
    that returns a value without a [return]: the behaviour is undefined,
    [Undefined] here as for the other undefined operations. The value of
    a call that returns is written [Some v]; no call returns without one,
    so a handler is always given the values of its operands. *)
Definition apply_unary (h : bool -> ld -> ld) (x : option ld) : M (option ld) :=
  radians <- get m_Radians ;;
  match x with
  | Some a => ret (Some (h radians a))
  | None => fail_with Undefined
  end.

Definition apply_binary (h : ld -> ld -> option ld) (x y : option ld) : M (option ld) :=
  match x, y with
  | Some a, Some b =>
      match h a b with
      | Some r => ret (Some r)
      | None => fail_with Undefined
      end
  | _, _ => fail_with Undefined
  end.

(** The test of [case 0]: the token is empty or holds a character that is
    neither a digit nor a point. *)
Definition not_numeric (tok : string) : bool :=
  String.eqb tok "" ||
  string_existsb (fun c => negb (isdigit c) && negb (ascii_eqb c ".")) tok.

Fixpoint Evaluate (expr : Expression) : M (option ld) :=
  match expr with
  | mkExpression tok args =>
      match args with
      | [a0; a1] =>
          ops <- get OPERATORS ;;
          match ops !! tok with
          | Some h =>
              if rhs_first then
                y <- Evaluate a1 ;; x <- Evaluate a0 ;; apply_binary h x y
              else
                x <- Evaluate a0 ;; y <- Evaluate a1 ;; apply_binary h x y
          | None =>
              modify (set_State UnknownBinaryOperator) ;;; fail_with Undefined
          end
      | [a0] =>
          fns <- get FUNCTIONS ;;
          match fns !! tok with
          | Some h => x <- Evaluate a0 ;; apply_unary h x
          | None =>
              modify (set_State UnknownUnaryOperator) ;;; fail_with Undefined
          end
      | [] =>
          if not_numeric tok then
            modify (set_State UnknownExpressionType) ;;; ret (Some (ld_of_Z 0))
          else
            match ld_stold tok with
            | Some v => ret (Some v)
            | None => fail_with Thrown
            end
      | _ => fail_with Undefined
      end
  end.

(** ** The entry point *)

Definition lowercase (s : string) : string :=
  string_map (fun c => if isalpha c then tolower c else c) s.

(** [Get] starts from a copy of its argument; the cursor, the angle mode
    and the state are set before anything is parsed. *)
Definition Get_begin (text : string) (radians : bool) (p : Parser) : Parser :=
  mkParser Ok (Some 0) (lowercase text) radians
           (TOKENS p) (CONSTANTS p) (FUNCTIONS p) (OPERATORS p).

Definition Get (fuel : nat) (text : string) (radians : bool) : M (option ld) :=
  modify (Get_begin text radians) ;;;
  expr <- ParseBinaryExpression fuel 0 ;;
  result <- Evaluate expr ;;
  modify (set_Input None) ;;;
  ret result.

(** ** Registration *)

Definition AddOperator (text : string) (handler : ld -> ld -> ld) (p : Parser) : Parser :=
  mkParser (m_State p) (m_Input p) (input p) (m_Radians p)
           (insert_before_longer text (TOKENS p))
           (CONSTANTS p) (FUNCTIONS p)
           (map_insert_new text (fun a b => Some (handler a b)) (OPERATORS p)).

Definition AddFunction (text : string) (handler : ld -> ld) (p : Parser) : Parser :=
  mkParser (m_State p) (m_Input p) (input p) (m_Radians p)
           (insert_before_longer text (TOKENS p ++ [text]))
           (CONSTANTS p)
           (map_insert_new text (fun _ => handler) (FUNCTIONS p))
           (OPERATORS p).

Definition AddConstant (text : string) (value : ld) (p : Parser) : Parser :=
  mkParser (m_State p) (m_Input p) (input p) (m_Radians p)
           (TOKENS p)
           (map_insert_new text (ld_to_string value) (CONSTANTS p))
           (FUNCTIONS p) (OPERATORS p).

(** ** The default member initialisers *)

Definition TOKENS_init : list string :=
  [ "+"; "-"; "^"; "*"; "/"; "%"; "("; ")"; "!"; "e"; "lg"; "ln"; "pi"; "abs";
    "sin"; "cos"; "tan"; "sqrt"; "asin"; "acos"; "atan"; "log2" ].

(** [std::to_string] of the [double] constants [std::numbers::pi] and
    [std::numbers::e] prints six decimals. *)
Definition CONSTANTS_init : gmap string string :=
  <["pi" := "3.141593"]> (<["e" := "2.718282"]> ∅).

Definition degrees_in (f : libm) : bool -> ld -> ld :=
  fun radians a =>
    if radians then ld_libm f a
    else ld_libm f (ld_div (ld_mul a ld_pi) (ld_of_Z 180)).

Definition degrees_out (f : libm) : bool -> ld -> ld :=
  fun radians a =>
    if radians then ld_libm f a
    else ld_mul (ld_div (ld_libm f a) ld_pi) (ld_of_Z 180).

Definition FUNCTIONS_init : gmap string (bool -> ld -> ld) :=
  <["+" := fun _ a => a]> (
  <["-" := fun _ a => ld_neg a]> (
  <["abs" := fun _ a => ld_libm Fabs a]> (
  <["log2" := fun _ a => ld_libm Log2 a]> (
  <["lg" := fun _ a => ld_libm Log10 a]> (
  <["ln" := fun _ a => ld_libm Log a]> (
  <["sin" := degrees_in Sin]> (
  <["cos" := degrees_in Cos]> (
  <["tan" := degrees_in Tan]> (
  <["asin" := degrees_out Asin]> (
  <["acos" := degrees_out Acos]> (
  <["atan" := degrees_out Atan]> (
  <["sqrt" := fun _ a => ld_libm Sqrt a]> (
  <["!" := fun _ a => ld_libm Tgamma (ld_add a (ld_of_Z 1))]> ∅))))))))))))).

(** [(long int)a % (long int)b]: both casts must be defined, the divisor
    must not be zero and the quotient must be representable; the remainder
    has the sign of the dividend. *)
Definition long_mod (a b : ld) : option ld :=
  match ld_to_long a, ld_to_long b with
  | Some x, Some y =>
      if (y =? 0) || ((x =? LONG_MIN) && (y =? -1)) then None
      else Some (ld_of_Z (Z.rem x y))
  | _, _ => None
  end.

Definition OPERATORS_init : gmap string (ld -> ld -> option ld) :=
  <["+" := fun a b => Some (ld_add a b)]> (
  <["-" := fun a b => Some (ld_sub a b)]> (
  <["*" := fun a b => Some (ld_mul a b)]> (
  <["/" := fun a b => Some (ld_div a b)]> (
  <["^" := fun a b => Some (ld_pow a b)]> (
  <["%" := long_mod]> ∅))))).

(** A freshly constructed [Parser]: the constructor body is empty, the
    cursor and the angle mode wait for the first [Get]. *)
Definition Parser_new : Parser :=
  mkParser Ok None "" false TOKENS_init CONSTANTS_init FUNCTIONS_init OPERATORS_init.

(** What a caller sees of [Get]: the returned value and [GetState()]. *)
Definition observe (o : outcome (option ld * Parser)) : outcome (option ld * State) :=
  outcome_map (fun r => (fst r, GetState (snd r))) o.

(** The tree [Get] evaluates. *)
Definition Get_tree (fuel : nat) (text : string) (radians : bool)
  : Parser -> outcome (Expression * Parser) :=
  modify (Get_begin text radians) ;;; ParseBinaryExpression fuel 0.

End Parser.

(** ** Exact arithmetic

    [ExactLD] computes with exact rationals extended by the infinities and
    NaN: the four operations, integer powers, the square root of a square,
    Γ on the positive integers and the library functions at the argument
    where their value is 0 or 1. Any other result is reported as [NaN]. *)
Module Exact.

Inductive xld : Type :=
  | Fin (q : Q)
  | Inf (negative : bool)
  | NaN.

Definition is_zero (q : Q) : bool := Qnum q =? 0.
Definition is_neg (q : Q) : bool := Qnum q <? 0.
Definition is_integer (q : Q) : bool := Z.rem (Qnum q) (Z.pos (Qden q)) =? 0.
Definition trunc (q : Q) : Z := Z.quot (Qnum q) (Z.pos (Qden q)).

Definition of_Z (n : Z) : xld := Fin (inject_Z n).

(** [std::numbers::pi] is the [double] 0x400921FB54442D18. *)
Definition pi : xld := Fin (884279719003555 # 281474976710656).

Definition neg (a : xld) : xld :=
  match a with
  | Fin q => Fin (Qopp q)
  | Inf s => Inf (negb s)
  | NaN => NaN
  end.

Definition add (a b : xld) : xld :=
  match a, b with
  | Fin x, Fin y => Fin (Qplus x y)
  | Inf s, Fin _ | Fin _, Inf s => Inf s
  | Inf s, Inf t => if Bool.eqb s t then Inf s else NaN
  | _, _ => NaN
  end.

Definition sub (a b : xld) : xld := add a (neg b).

Definition mul (a b : xld) : xld :=
  match a, b with
  | Fin x, Fin y => Fin (Qmult x y)
  | Inf s, Fin q | Fin q, Inf s =>
      if is_zero q then NaN else Inf (xorb s (is_neg q))
  | Inf s, Inf t => Inf (xorb s t)
  | _, _ => NaN
  end.

Definition div (a b : xld) : xld :=
  match a, b with
  | Fin x, Fin y =>
      if is_zero y then (if is_zero x then NaN else Inf (is_neg x))
      else Fin (Qdiv x y)
  | Fin _, Inf _ => Fin 0
  | Inf s, Fin q => Inf (xorb s (is_neg q))
  | _, _ => NaN
  end.

Definition pow (a b : xld) : xld :=
  match a, b with
  | Fin x, Fin y =>
      if is_integer y then
        if is_zero x && is_neg y then Inf false
        else Fin (Qpower x (trunc y))
      else NaN
  | _, _ => NaN
  end.

Definition is_one (q : Q) : bool := Qnum q =? Z.pos (Qden q).

Definition apply_libm (f : libm) (a : xld) : xld :=
  match a with
  | Fin q =>
      match f with
      | Fabs => Fin (Qmake (Z.abs (Qnum q)) (Qden q))
      | Tgamma =>
          if is_integer q && (0 <? trunc q)
          then Fin (inject_Z (factorial (Z.to_nat (trunc q - 1))))
          else NaN
      | Sqrt =>
          let n := Qnum q in
          let d := Z.pos (Qden q) in
          if (0 <=? n) && (Z.sqrt n * Z.sqrt n =? n) && (Z.sqrt d * Z.sqrt d =? d)
          then Fin (Qmake (Z.sqrt n) (Z.to_pos (Z.sqrt d)))
          else NaN
      | Sin | Tan | Asin | Atan => if is_zero q then Fin 0 else NaN
      | Cos => if is_zero q then Fin 1 else NaN
      | Acos | Log | Log2 | Log10 => if is_one q then Fin 0 else NaN
      end
  | Inf s =>
      match f with
      | Fabs => Inf false
      | _ => NaN
      end
  | NaN => NaN
  end.

(** A 64-bit [long int]. *)
Definition long_min : Z := - 2 ^ 63.

Definition to_long (a : xld) : option Z :=
  match a with
  | Fin q =>
      let n := trunc q in
      if (long_min <=? n) && (- long_min >? n) then Some n else None
  | _ => None
  end.

(** [std::stold] on what [Evaluate] hands it (digits and points): the
    longest prefix that is a numeral is converted, and the call throws
    [std::invalid_argument] when that prefix has no digit. *)
Definition stold (s : string) : option xld :=
  let '(ip, k1, rest) := take_digits 0 s in
  match rest with
  | String "." rest' =>
      let '(fp, k2, _) := take_digits 0 rest' in
      match k1, k2 with
      | O, O => None
      | _, _ => Some (Fin (Qmake (ip * 10 ^ Z.of_nat k2 + fp) (Z.to_pos (10 ^ Z.of_nat k2))))
      end
  | _ =>
      match k1 with
      | O => None
      | S _ => Some (Fin (inject_Z ip))
      end
  end.

(** [std::to_string(long double)] prints with ["%Lf"]: six decimals,
    rounded to nearest, ties to even. *)
Definition round_half_even (n d : Z) : Z :=
  let q := n / d in
  let r := n mod d in
  if 2 * r <? d then q
  else if d <? 2 * r then q + 1
  else if Z.even q then q else q + 1.

Definition string_tail (s : string) : string :=
  match s with
  | EmptyString => EmptyString
  | String _ s' => s'
  end.

Definition to_string (a : xld) : string :=
  match a with
  | Fin q =>
      let m := round_half_even (Z.abs (Qnum q) * 1000000) (Z.pos (Qden q)) in
      (if is_neg q then "-" else "") ++
      pretty (m / 1000000) ++ "." ++ string_tail (pretty (1000000 + m mod 1000000))
  | Inf s => if s then "-inf" else "inf"
  | NaN => "nan"
  end.

#[export] Instance ExactLD : LongDouble := {
  ld := xld;
  ld_of_Z := of_Z;
  ld_pi := pi;
  ld_neg := neg;
  ld_add := add;
  ld_sub := sub;
  ld_mul := mul;
  ld_div := div;
  ld_pow := pow;
  ld_libm := apply_libm;
  ld_to_long := to_long;
  LONG_MIN := long_min;
  ld_stold := stold;
  ld_to_string := to_string
}.

End Exact.

(** ** Specification vocabulary *)

Section Vocabulary.

Context {LD : LongDouble}.

(** [Get] returns value [v] and leaves state [s]: with enough fuel for the
    depth of the recursion, and with any larger amount, the call is [Done]. *)
Definition returns (rhs_first : bool) (p : Parser) (text : string) (radians : bool)
    (v : option ld) (s : State) : Prop :=
  exists fuel0, forall fuel, (fuel0 <= fuel)%nat ->
    observe (Get rhs_first fuel text radians p) = Done (v, s).

(** The tree [Get] evaluates is [e], and parsing leaves the object [p1]. *)
Definition parses (p : Parser) (text : string) (radians : bool)
    (e : Expression) (p1 : Parser) : Prop :=
  exists fuel0, forall fuel, (fuel0 <= fuel)%nat ->
    Get_tree fuel text radians p = Done (e, p1).

(** [Get] never returns: whatever the fuel, the recursion is deeper. *)
Definition diverges (rhs_first : bool) (p : Parser) (text : string) (radians : bool) : Prop :=
  forall fuel, Get rhs_first fuel text radians p = OutOfFuel.

(** The call of [Get] has undefined behaviour: with enough fuel for the
    depth of the recursion, and with any larger amount, the run is
    [Undefined]. *)
Definition undefined (rhs_first : bool) (p : Parser) (text : string) (radians : bool) : Prop :=
  exists fuel0, forall fuel, (fuel0 <= fuel)%nat ->
    Get rhs_first fuel text radians p = Undefined.

(** Nothing but white space is left between the cursor and the end of the
    buffer. *)
Definition at_end (p : Parser) : bool :=
  match m_Input p with
  | Some i =>
      (0 <=? i) && (i <=? size (input p)) &&
      string_forallb isspace (string_drop (Z.to_nat i) (input p))
  | None => false
  end.

(** Every text stored in [CONSTANTS] has the shape of a number. *)
Definition constants_numeric (p : Parser) : Prop :=
  map_Forall (fun _ text => numeric_token text = true) (CONSTANTS p).

(** A leaf holds the text of a number, or it is the empty node handed back
    after a failure: then the state [s] is not [Ok]. *)
Definition leaf_ok (s : State) (tok : string) : Prop :=
  numeric_token tok = true \/ (tok = "" /\ s <> Ok).

(** Every leaf of [e] is as [leaf_ok] says, for the state of [p]. *)
Definition good (p : Parser) (e : Expression) : Prop :=
  Forall (leaf_ok (m_State p)) (leaves e).

(** [p'] has the constants of [p], and a failure recorded in [p] is still
    recorded in [p']. *)
Definition stable (p p' : Parser) : Prop :=
  CONSTANTS p' = CONSTANTS p /\ (m_State p' = Ok -> m_State p = Ok).

(** [Q] holds of the result and the final object when the call returns. *)
Definition ensures {A} (o : outcome (A * Parser)) (Q : A -> Parser -> Prop) : Prop :=
  match o with
  | Done (a, p') => Q a p'
  | _ => True
  end.

(** [o] is [o'] unless it ran out of fuel. *)
Definition refines {A} (o o' : outcome A) : Prop := o = OutOfFuel \/ o = o'.

(** [Evaluate] gives [v] and leaves the object as it was. *)
Definition evaluates (rhs_first : bool) (e : Expression) (p : Parser) (v : ld) : Prop :=
  Evaluate rhs_first e p = Done (Some v, p).

(** The object when the tree has been parsed: what [Get] set up, with the
    cursor at offset [i] and the state [s]. *)
Definition parsed (text : string) (radians : bool) (i : Z) (s : State) (p : Parser) : Parser :=
  set_State s (set_Input (Some i) (Get_begin text radians p)).

End Vocabulary.

(** ** Vocabulary of the further properties *)

(** No character of [s] is NUL. *)
Definition nul_free (s : string) : bool :=
  negb (string_existsb (fun c => ascii_eqb c NUL) s).

(** The first character of [s] is [c]. *)
Definition starts_with (s : string) (c : ascii) : Prop :=
  match s with
  | String a _ => a = c
  | EmptyString => False
  end.

(** A node has at most two arguments, and the token of a node with two
    arguments has a priority above 0. *)
Fixpoint shape_ok (e : Expression) : bool :=
  match e with
  | mkExpression tok args =>
      match args with
      | [] => true
      | [a0] => shape_ok a0
      | [a0; a1] => (0 <? GetPriority tok) && shape_ok a0 && shape_ok a1
      | _ => false
      end
  end.

(** The states [Evaluate] assigns. *)
Definition evaluation_failure (s : State) : Prop :=
  s = UnknownBinaryOperator \/ s = UnknownUnaryOperator \/ s = UnknownExpressionType.

Section MoreVocabulary.

Context {LD : LongDouble}.

(** The four tables of [p'] are those of [p]. *)
Definition same_registry (p p' : Parser) : Prop :=
  TOKENS p' = TOKENS p /\ CONSTANTS p' = CONSTANTS p /\
  FUNCTIONS p' = FUNCTIONS p /\ OPERATORS p' = OPERATORS p.

(** What parsing may change: the cursor, and the state, to [InvalidSyntax]
    only. *)
Definition parse_step (p p' : Parser) : Prop :=
  same_registry p p' /\ input p' = input p /\ m_Radians p' = m_Radians p /\
  (m_State p' = m_State p \/ m_State p' = InvalidSyntax).

(** What evaluation may change: the state, to one of its three failures
    only. *)
Definition eval_step (p p' : Parser) : Prop :=
  same_registry p p' /\ input p' = input p /\ m_Radians p' = m_Radians p /\
  m_Input p' = m_Input p /\
  (m_State p' = m_State p \/ evaluation_failure (m_State p')).

(** Every symbol with a priority has a handler. *)
Definition has_operators (p : Parser) : Prop :=
  forall op, 0 < GetPriority op -> is_Some (OPERATORS p !! op).

(** The cursor is at offset [i], inside the buffer or on its final NUL. *)
Definition in_bounds (p : Parser) (i : Z) : Prop :=
  m_Input p = Some i /\ 0 <= i <= size (input p).

Definition tokens_nul_free (p : Parser) : Prop :=
  Forall (fun t => nul_free t = true) (TOKENS p).

End MoreVocabulary.

Section Safety.

Context {LD : LongDouble}.

(** No token that names a constant is found anywhere in the buffer. *)
Definition constant_free (p : Parser) : Prop :=
  forall t j, t ∈ TOKENS p -> is_Some (CONSTANTS p !! t) ->
              0 <= j <= size (input p) ->
              strncmp_eq (input p) j t <> Some true.

(** The cursor is inside the buffer, of which no part is read as a
    constant. *)
Definition inside (p : Parser) : Prop :=
  (exists i, in_bounds p i) /\ tokens_nul_free p /\ constant_free p.

(** The call returns with [Q], or the recursion is deeper than the fuel:
    it has no undefined behaviour and throws nothing. *)
Definition safely {A} (o : outcome (A * Parser)) (Q : A -> Parser -> Prop) : Prop :=
  match o with
  | Done (a, p') => Q a p'
  | OutOfFuel => True
  | Undefined | Thrown => False
  end.

End Safety.

(** [m] runs on an object to which [AddConstant text value] has been
    applied as it runs on the object itself, and it leaves no token
    [text]. *)
Definition unaffected {LD : LongDouble} (text : string) (value : ld) {A} (m : M A) : Prop :=
  forall p : Parser, text ∉ TOKENS p ->
    m (AddConstant text value p) =
      outcome_map (fun r => (fst r, AddConstant text value (snd r))) (m p) /\
    ensures (m p) (fun _ p' => text ∉ TOKENS p').

(** ** The program of Source.cpp

    [main] constructs a parser, registers [exp] and answers the lines of
    the standard input one after the other, for ever. *)

Section Main.

Context {LD : LongDouble}.

Variable rhs_first : bool.

(** [std::exp] on [long double]. *)
Variable exp : ld -> ld.

(** What [main] writes. *)
Inductive event : Type :=
  | Prompt                      (* std::cout << ">>> " *)
  | Result (v : option ld)      (* std::cout << result << std::endl *)
  | Message (text : string).    (* std::cerr << text << std::endl *)

(** The [if (parser.IsOk()) ... else switch (parser.GetState())] of the
    loop body; the [switch] has no case for [Ok]. *)
Definition report (result : option ld) (p : Parser) : list event :=
  if IsOk p then [Result result]
  else match GetState p with
       | InvalidSyntax => [Message "Invalid syntax"]
       | UnknownBinaryOperator => [Message "Unknown binary operator"]
       | UnknownUnaryOperator => [Message "Unknown unary operator"]
       | UnknownExpressionType => [Message "Unknown expression type"]
       | Ok => []
       end.

(** The first [n] iterations of [while (1)]. [stdin] holds the lines that
    are left of the standard input; when none is left [std::getline]
    fails and the fresh [input] stays empty. The result is what was
    written, and [Done] when the [n] iterations were completed or else the
    outcome of the call of [Get] that did not return. *)
Fixpoint main_loop (n fuel : nat) (stdin : list string) (p : Parser)
  : list event * outcome unit :=
  match n with
  | O => ([], Done tt)
  | S n' =>
      let input := hd "" stdin in
      match Get rhs_first fuel input true p with
      | Done (result, p') =>
          let (events, o) := main_loop n' fuel (tl stdin) p' in
          (Prompt :: report result p' ++ events, o)
      | OutOfFuel => ([Prompt], OutOfFuel)
      | Undefined => ([Prompt], Undefined)
      | Thrown => ([Prompt], Thrown)
      end
  end.


End Main.


(** * Properties *)

Section Fuel.

Context {LD : LongDouble}.

Lemma refines_refl {A} (o : outcome A) : refines o o.
Proof. now right. Qed.

Lemma refines_trans {A} (o1 o2 o3 : outcome A) :
  refines o1 o2 -> refines o2 o3 -> refines o1 o3.
Proof. intros [->| ->] H; [now left|exact H]. Qed.

Lemma refines_Done {A} (o o' : outcome A) a : refines o o' -> o = Done a -> o' = Done a.
Proof. intros [->| ->]; [discriminate|auto]. Qed.

Lemma bind_refines {A B} (m m' : M A) (k k' : A -> M B) p :
  refines (m p) (m' p) ->
  (forall a q, refines (k a q) (k' a q)) ->
  refines (bind m k p) (bind m' k' p).
Proof.
  unfold bind. intros [E|E] Hk; rewrite E; [now left|].
  destruct (m' p) as [[a q]| | |]; auto using refines_refl.
Qed.

Ltac refines_auto :=
  repeat first
    [ apply refines_refl
    | assumption
    | apply bind_refines; [|intros ? ?]
    | match goal with
      | |- refines ((let '(_, _) := ?r in _) _) _ => destruct r
      | |- refines ((if ?b then _ else _) _) _ => destruct b
      | H : forall p, refines (ParseSimpleExpression ?f p) _
        |- refines (ParseSimpleExpression ?f _) _ => apply H
      | H : forall m p, refines (ParseBinaryExpression ?f m p) _
        |- refines (ParseBinaryExpression ?f _ _) _ => apply H
      | H : forall m l p, refines (BinaryLoop ?f m l p) _
        |- refines (BinaryLoop ?f _ _ _) _ => apply H
      end ].

(** More fuel never changes a result that was reached. *)
Lemma fuel_refines (fuel : nat) : forall fuel', (fuel <= fuel')%nat ->
  (forall p, refines (ParseSimpleExpression fuel p) (ParseSimpleExpression fuel' p)) /\
  (forall m p, refines (ParseBinaryExpression fuel m p) (ParseBinaryExpression fuel' m p)) /\
  (forall m l p, refines (BinaryLoop fuel m l p) (BinaryLoop fuel' m l p)).
Proof.
  induction fuel as [|fuel IH]; intros fuel' Hle.
  - repeat split; intros; now left.
  - destruct fuel' as [|fuel']; [lia|].
    destruct (IH fuel' ltac:(lia)) as (IHs & IHb & IHl).
    repeat split; intros;
      cbn [ParseSimpleExpression ParseBinaryExpression BinaryLoop];
      refines_auto.
Qed.

End Fuel.

Section Running.

Context {LD : LongDouble}.

Lemma Get_tree_fuel fuel fuel' text radians (p : Parser) r :
  (fuel <= fuel')%nat ->
  Get_tree fuel text radians p = Done r -> Get_tree fuel' text radians p = Done r.
Proof.
  intros Hle. apply refines_Done. unfold Get_tree.
  apply bind_refines; [apply refines_refl|intros _ q].
  now apply (fuel_refines fuel fuel' Hle).
Qed.

Lemma Get_fuel rhs_first fuel fuel' text radians (p : Parser) r :
  (fuel <= fuel')%nat ->
  Get rhs_first fuel text radians p = Done r ->
  Get rhs_first fuel' text radians p = Done r.
Proof.
  intros Hle. apply refines_Done. unfold Get.
  apply bind_refines; [apply refines_refl|intros _ q].
  apply bind_refines; [|intros; apply refines_refl].
  now apply (fuel_refines fuel fuel' Hle).
Qed.

(** [Get] is the evaluation of the tree that was parsed. *)
Lemma Get_after_tree rhs_first fuel text radians (p : Parser) e p1 :
  Get_tree fuel text radians p = Done (e, p1) ->
  Get rhs_first fuel text radians p =
  bind (Evaluate rhs_first e)
       (fun result => bind (modify (set_Input None)) (fun _ => ret result)) p1.
Proof.
  unfold Get_tree, Get, bind, modify. intros H.
  destruct (ParseBinaryExpression fuel 0 _) as [[e' p']| | |]; try discriminate.
  now inversion H.
Qed.

Lemma Get_tree_OutOfFuel rhs_first fuel text radians (p : Parser) :
  Get_tree fuel text radians p = OutOfFuel ->
  Get rhs_first fuel text radians p = OutOfFuel.
Proof.
  unfold Get_tree, Get, bind, modify. intros H.
  now destruct (ParseBinaryExpression fuel 0 _) as [[e' p']| | |].
Qed.

Lemma returns_from rhs_first fuel text radians (p : Parser) e p1 v p2 s :
  Get_tree fuel text radians p = Done (e, p1) ->
  Evaluate rhs_first e p1 = Done (v, p2) ->
  m_State p2 = s ->
  returns rhs_first p text radians v s.
Proof.
  intros Ht He <-. exists fuel. intros fuel' Hle.
  rewrite (Get_after_tree _ _ _ _ _ _ _ (Get_tree_fuel _ _ _ _ _ _ Hle Ht)).
  unfold bind. now rewrite He.
Qed.

Lemma undefined_from rhs_first fuel text radians (p : Parser) e p1 :
  Get_tree fuel text radians p = Done (e, p1) ->
  Evaluate rhs_first e p1 = Undefined ->
  undefined rhs_first p text radians.
Proof.
  intros Ht He. exists fuel. intros fuel' Hle.
  rewrite (Get_after_tree _ _ _ _ _ _ _ (Get_tree_fuel _ _ _ _ _ _ Hle Ht)).
  unfold bind. now rewrite He.
Qed.

Lemma returns_evaluates rhs_first fuel text radians (p : Parser) e i v s :
  Get_tree fuel text radians p = Done (e, parsed text radians i s p) ->
  evaluates rhs_first e (parsed text radians i s p) v ->
  returns rhs_first p text radians (Some v) s.
Proof. intros Ht He. exact (returns_from _ _ _ _ _ _ _ _ _ _ Ht He eq_refl). Qed.

Lemma returns_computed rhs_first fuel text radians (p : Parser) v s :
  observe (Get rhs_first fuel text radians p) = Done (v, s) ->
  returns rhs_first p text radians v s.
Proof.
  intros H. exists fuel. intros fuel' Hle. unfold observe in *.
  destruct (Get rhs_first fuel text radians p) as [r| | |] eqn:E; try discriminate.
  now rewrite (Get_fuel _ _ _ _ _ _ _ Hle E).
Qed.

Lemma parses_computed fuel text radians (p : Parser) e p1 :
  Get_tree fuel text radians p = Done (e, p1) -> parses p text radians e p1.
Proof. intros H. exists fuel. intros fuel' Hle. exact (Get_tree_fuel _ _ _ _ _ _ Hle H). Qed.

Lemma returns_unique rhs_first (p : Parser) text radians v s v' s' :
  returns rhs_first p text radians v s ->
  returns rhs_first p text radians v' s' -> v = v' /\ s = s'.
Proof.
  intros [f1 H1] [f2 H2].
  specialize (H1 (Nat.max f1 f2) ltac:(lia)).
  specialize (H2 (Nat.max f1 f2) ltac:(lia)).
  rewrite H1 in H2. now inversion H2.
Qed.

(** *** Evaluation that leaves the state alone *)

Lemma evaluates_leaf rhs_first tok p v :
  not_numeric tok = false -> ld_stold tok = Some v ->
  evaluates rhs_first (mkExpression tok []) p v.
Proof.
  intros Hn Hs. unfold evaluates. cbn [Evaluate]. now rewrite Hn, Hs.
Qed.

Lemma evaluates_unary rhs_first tok a0 p h x v :
  FUNCTIONS p !! tok = Some h ->
  evaluates rhs_first a0 p x ->
  h (m_Radians p) x = v ->
  evaluates rhs_first (mkExpression tok [a0]) p v.
Proof.
  unfold evaluates. intros Hh H0 <-. cbn [Evaluate].
  unfold bind, get, apply_unary. rewrite Hh. fold (Evaluate rhs_first a0).
  now rewrite H0.
Qed.

Lemma evaluates_binary rhs_first tok a0 a1 p h x y r :
  OPERATORS p !! tok = Some h ->
  evaluates rhs_first a0 p x ->
  evaluates rhs_first a1 p y ->
  h x y = Some r ->
  evaluates rhs_first (mkExpression tok [a0; a1]) p r.
Proof.
  unfold evaluates. intros Hh H0 H1 Hr. cbn [Evaluate].
  unfold bind, get, apply_binary. rewrite Hh.
  fold (Evaluate rhs_first a0). fold (Evaluate rhs_first a1).
  destruct rhs_first; rewrite ?H0, ?H1, ?H0, Hr; reflexivity.
Qed.

End Running.

(** ** The tokenizer at the end of the input *)

Section EndOfInput.

Context {LD : LongDouble}.

Lemma get_string_drop n : forall s,
  String.get n s =
  match string_drop n s with String c _ => Some c | EmptyString => None end.
Proof.
  induction n as [|n IH]; intros [|c s]; simpl; auto.
Qed.

Lemma string_drop_S n : forall s c r,
  string_drop n s = String c r -> string_drop (S n) s = r.
Proof.
  induction n as [|n IH]; intros [|a s] c r H; simpl in H; try discriminate.
  - now inversion H.
  - change (string_drop (S n) s = r). now apply IH with c.
Qed.

Lemma string_drop_length n : forall s,
  String.length (string_drop n s) = (String.length s - n)%nat.
Proof.
  induction n as [|n IH]; intros [|c s]; simpl; auto.
Qed.

Lemma string_drop_all s : string_drop (String.length s) s = EmptyString.
Proof.
  pose proof (string_drop_length (String.length s) s) as H.
  destruct (string_drop _ s); [reflexivity|simpl in H; lia].
Qed.

Lemma read_string_drop s i :
  0 <= i <= size s ->
  read s i =
  Some (match string_drop (Z.to_nat i) s with String c _ => c | EmptyString => NUL end).
Proof.
  intros Hi. unfold read, size in *.
  destruct (i <? 0) eqn:E; [lia|].
  rewrite get_string_drop.
  pose proof (string_drop_length (Z.to_nat i) s) as Hl.
  destruct (string_drop (Z.to_nat i) s); [|reflexivity].
  simpl in Hl. destruct (i =? Z.of_nat (String.length s)) eqn:E'; [reflexivity|lia].
Qed.

Lemma set_Input_same (p : Parser) i : m_Input p = Some i -> set_Input (Some i) p = p.
Proof. destruct p; simpl; now intros ->. Qed.

Lemma skip_spaces_to_end r : forall n (p : Parser) i,
  m_Input p = Some i ->
  0 <= i <= size (input p) ->
  string_drop (Z.to_nat i) (input p) = r ->
  string_forallb isspace r = true ->
  (String.length r < n)%nat ->
  skip_spaces n p = Done (tt, set_Input (Some (size (input p))) p).
Proof.
  induction r as [|c r IH]; intros n p i Hp Hi Hr Hs Hn;
    (destruct n as [|n]; [simpl in Hn; lia|]);
    cbn [skip_spaces]; unfold bind, peek; rewrite Hp, (read_string_drop _ _ Hi), Hr.
  - change (isspace NUL) with false. unfold ret.
    pose proof (string_drop_length (Z.to_nat i) (input p)) as Hl.
    rewrite Hr in Hl. simpl in Hl.
    replace (size (input p)) with i by (unfold size in *; lia).
    now rewrite set_Input_same.
  - simpl in Hs. apply andb_prop in Hs as [Hc Hs]. rewrite Hc.
    unfold advance. rewrite Hp.
    pose proof (string_drop_length (Z.to_nat i) (input p)) as Hl.
    rewrite Hr in Hl. simpl in Hl.
    rewrite (IH n (set_Input (Some (i + 1)) p) (i + 1));
      [reflexivity|reflexivity|simpl; unfold size in *; lia| |exact Hs|simpl in Hn; lia].
    simpl. replace (Z.to_nat (i + 1)) with (S (Z.to_nat i)) by lia.
    now apply string_drop_S with c.
Qed.

Lemma at_end_inv (p : Parser) :
  at_end p = true ->
  exists i, m_Input p = Some i /\ 0 <= i <= size (input p) /\
            string_forallb isspace (string_drop (Z.to_nat i) (input p)) = true.
Proof.
  unfold at_end. destruct (m_Input p) as [i|]; [|discriminate].
  intros H. apply andb_prop in H as [H H3]. apply andb_prop in H as [H1 H2].
  exists i. repeat split; auto; lia.
Qed.

(** At the end of the input [ParseToken] returns [false] and leaves the
    token and the state as they were. *)
Lemma ParseToken_at_end tok (p : Parser) :
  at_end p = true ->
  ParseToken tok p = Done ((false, tok), set_Input (Some (size (input p))) p).
Proof.
  intros H. destruct (at_end_inv p H) as (i & Hp & Hi & Hs).
  unfold ParseToken, bind at 1, get.
  unfold bind at 1.
  rewrite (skip_spaces_to_end _ _ p i Hp Hi eq_refl Hs).
  - unfold bind, peek. cbn [m_Input set_Input input].
    rewrite read_string_drop by (unfold size; lia).
    unfold size. rewrite Nat2Z.id, string_drop_all. reflexivity.
  - pose proof (string_drop_length (Z.to_nat i) (input p)) as Hl. clear - Hl. lia.
Qed.

Lemma at_end_after (p : Parser) : at_end (set_Input (Some (size (input p))) p) = true.
Proof.
  unfold at_end. simpl. unfold size. rewrite Nat2Z.id, string_drop_all.
  simpl. rewrite andb_true_r. apply andb_true_intro. split; apply Z.leb_le; lia.
Qed.

(** Where a simple expression is required and the input has ended,
    [ParseSimpleExpression] calls itself on the same input again. *)
Lemma ParseSimpleExpression_at_end fuel : forall p : Parser,
  m_State p = Ok -> at_end p = true ->
  ParseSimpleExpression fuel p = OutOfFuel.
Proof.
  induction fuel as [|fuel IH]; intros p Hs He; [reflexivity|].
  cbn [ParseSimpleExpression]. unfold bind at 1.
  rewrite (ParseToken_at_end _ _ He).
  unfold bind at 1, get, IsOk. cbn [m_State set_Input]. rewrite Hs.
  cbn [State_eqb negb]. change ("" =? "(")%string with false. cbv iota.
  unfold bind. rewrite IH; [reflexivity|exact Hs|apply at_end_after].
Qed.

Lemma ParseBinaryExpression_S fuel m :
  ParseBinaryExpression (S fuel) m =
  bind (ParseSimpleExpression fuel) (BinaryLoop fuel m).
Proof. reflexivity. Qed.

Lemma BinaryLoop_S fuel m lhs (p : Parser) b op p' :
  ParseToken "" p = Done ((b, op), p') ->
  BinaryLoop (S fuel) m lhs p =
  if GetPriority op <=? m
  then bind (advance (- size op)) (fun _ => ret lhs) p'
  else bind (ParseBinaryExpression fuel (GetPriority op))
            (fun rhs => BinaryLoop fuel m (Expression2 op lhs rhs)) p'.
Proof.
  intros H. cbn [BinaryLoop]. unfold bind at 1. rewrite H.
  now destruct (GetPriority op <=? m).
Qed.

End EndOfInput.

(** ** What every parsed tree satisfies *)

Section Invariants.

Context {LD : LongDouble}.

Lemma ensures_mono {A} (o : outcome (A * Parser)) (Q Q' : A -> Parser -> Prop) :
  ensures o Q -> (forall a p', Q a p' -> Q' a p') -> ensures o Q'.
Proof. destruct o as [[a p']| | |]; simpl; auto. Qed.

Lemma ensures_bind {A B} (m : M A) (k : A -> M B) p Q :
  ensures (m p) (fun a p' => ensures (k a p') Q) -> ensures (bind m k p) Q.
Proof. unfold bind. now destruct (m p) as [[a p']| | |]. Qed.

Lemma ensures_ret {A} (a : A) (p : Parser) (Q : A -> Parser -> Prop) :
  Q a p -> ensures (ret a p) Q.
Proof. auto. Qed.

Lemma ensures_get {A} (f : Parser -> A) p (Q : A -> Parser -> Prop) :
  Q (f p) p -> ensures (get f p) Q.
Proof. auto. Qed.

Lemma ensures_modify f (p : Parser) (Q : unit -> Parser -> Prop) :
  Q tt (f p) -> ensures (modify f p) Q.
Proof. auto. Qed.

Lemma ensures_peek (p : Parser) (Q : ascii -> Parser -> Prop) :
  (forall c, peek p = Done (c, p) -> Q c p) -> ensures (peek p) Q.
Proof.
  intros H. unfold peek in *. destruct (m_Input p) as [i|]; [|exact I].
  destruct (read (input p) i) as [c|]; [|exact I]. now apply H.
Qed.

Lemma ensures_advance n (p : Parser) (Q : unit -> Parser -> Prop) :
  (forall i, Q tt (set_Input (Some i) p)) -> ensures (advance n p) Q.
Proof.
  intros H. unfold advance. destruct (m_Input p) as [i|]; [|exact I]. apply H.
Qed.

Lemma ensures_strncmp t (p : Parser) (Q : bool -> Parser -> Prop) :
  (forall b, Q b p) -> ensures (strncmp_here t p) Q.
Proof.
  intros H. unfold strncmp_here. destruct (m_Input p) as [i|]; [|exact I].
  destruct (strncmp_eq (input p) i t) as [b|]; [|exact I]. apply H.
Qed.

Lemma stable_refl (p : Parser) : stable p p.
Proof. now split. Qed.

Lemma stable_trans (p1 p2 p3 : Parser) : stable p1 p2 -> stable p2 p3 -> stable p1 p3.
Proof. intros [C1 S1] [C2 S2]. split; [congruence|auto]. Qed.

Lemma stable_set_Input (p : Parser) i : stable p (set_Input i p).
Proof. now split. Qed.

Lemma stable_failure (p : Parser) s : s <> Ok -> stable p (set_State s p).
Proof. intros Hs. split; [reflexivity|]. simpl. congruence. Qed.

Lemma stable_constants (p p' : Parser) :
  stable p p' -> constants_numeric p -> constants_numeric p'.
Proof. unfold constants_numeric. now intros [-> _]. Qed.

Lemma leaf_ok_mono s s' tok : (s' = Ok -> s = Ok) -> leaf_ok s tok -> leaf_ok s' tok.
Proof. intros H [Hn|[-> Hs]]; [now left|right; auto]. Qed.

Lemma good_mono (p p' : Parser) e : stable p p' -> good p e -> good p' e.
Proof.
  intros [_ Hs] H. unfold good. eapply Forall_impl; [exact H|].
  intros tok. now apply leaf_ok_mono.
Qed.

Create HintDb stable.
#[local] Hint Resolve stable_refl stable_set_Input stable_trans : stable.

Lemma skip_spaces_stable n : forall p : Parser,
  ensures (skip_spaces n p) (fun _ p' => stable p p').
Proof.
  induction n as [|n IH]; intros p; [exact I|]. cbn [skip_spaces].
  apply ensures_bind, ensures_peek. intros c _.
  destruct (isspace c); [|apply ensures_ret; auto with stable].
  apply ensures_bind, ensures_advance. intros i.
  eapply ensures_mono; [apply IH|]. cbv beta. eauto with stable.
Qed.

(** *** The text of a number *)

Lemma forallb_push_back f tok c :
  string_forallb f (push_back tok c) = string_forallb f tok && f c.
Proof.
  induction tok as [|a tok IH]; simpl.
  - now rewrite andb_true_r.
  - now rewrite IH, andb_assoc.
Qed.

Lemma number_prefix_push_back tok c :
  number_prefix tok = true -> digit_or_point c = true ->
  number_prefix (push_back tok c) = true.
Proof.
  unfold number_prefix. intros H Hc. apply andb_prop in H as [H1 H2].
  rewrite forallb_push_back, H2, Hc.
  destruct tok as [|a tok]; [discriminate|]. simpl in *. now rewrite H1.
Qed.

Lemma read_number_spec n : forall tok (p : Parser),
  number_prefix tok = true ->
  ensures (read_number n tok p)
          (fun tok' p' => stable p p' /\ number_prefix tok' = true).
Proof.
  induction n as [|n IH]; intros tok p Ht; [exact I|]. cbn [read_number].
  apply ensures_bind, ensures_peek. intros c _.
  fold (digit_or_point c). destruct (digit_or_point c) eqn:Hc;
    [|apply ensures_ret; auto with stable].
  apply ensures_bind, ensures_advance. intros i.
  eapply ensures_mono; [apply IH; now apply number_prefix_push_back|].
  cbv beta. intros tok' p' [Hs Hp]. eauto with stable.
Qed.

Lemma match_tokens_spec ts : forall tok (p : Parser),
  constants_numeric p ->
  ensures (match_tokens ts tok p)
          (fun r p' => stable p p' /\ (fst r = true -> numeric_token (snd r) = true)).
Proof.
  induction ts as [|t ts IH]; intros tok p Hc; cbn [match_tokens].
  - apply ensures_bind, ensures_modify, ensures_ret. split; [|discriminate].
    now apply stable_failure.
  - apply ensures_bind, ensures_strncmp. intros [|]; [|now apply IH].
    apply ensures_bind, ensures_advance. intros i.
    apply ensures_bind, ensures_get. cbn [CONSTANTS set_Input].
    destruct (CONSTANTS p !! t) as [text|] eqn:E; apply ensures_ret;
      (split; [auto with stable|]); [|discriminate].
    intros _. exact (Hc _ _ E).
Qed.

Lemma ParseToken_spec (p : Parser) :
  constants_numeric p ->
  ensures (ParseToken "" p)
          (fun r p' => stable p p' /\
                       (fst r = true -> m_State p' = Ok -> numeric_token (snd r) = true)).
Proof.
  intros Hc. unfold ParseToken.
  apply ensures_bind, ensures_get, ensures_bind.
  eapply ensures_mono; [apply skip_spaces_stable|]. cbv beta. intros _ p1 H1.
  apply ensures_bind, ensures_peek. intros c Hpeek.
  destruct (ascii_eqb c NUL); [apply ensures_ret; split; [auto|discriminate]|].
  destruct (isdigit c) eqn:Hd.
  - apply ensures_bind. cbn [read_number]. apply ensures_bind.
    rewrite Hpeek. cbn [ensures]. unfold digit_or_point in *. rewrite Hd.
    cbn [orb]. apply ensures_bind, ensures_advance. intros i.
    eapply ensures_mono.
    { apply read_number_spec. unfold number_prefix, digit_or_point. simpl.
      now rewrite Hd. }
    cbv beta. intros tok' p2 [H2 Hp].
    assert (H12 : stable p p2) by eauto with stable.
    destruct (ends_with_point tok') eqn:Ee.
    + apply ensures_bind, ensures_modify, ensures_ret. split.
      * eapply stable_trans; [exact H12|]. now apply stable_failure.
      * simpl. discriminate.
    + apply ensures_ret. split; [exact H12|]. intros _ _.
      unfold numeric_token. unfold number_prefix in Hp. simpl. now rewrite Hp, Ee.
  - apply ensures_bind, ensures_get.
    eapply ensures_mono; [apply match_tokens_spec; eapply stable_constants; eauto|].
    cbv beta. intros r p2 [H2 Hr]. split; [eauto with stable|auto].
Qed.

Lemma good_default (p : Parser) : m_State p <> Ok -> good p Expression_default.
Proof. intros H. constructor; [now right|constructor]. Qed.

Lemma good_leaf (p : Parser) tok : numeric_token tok = true -> good p (Expression0 tok).
Proof. intros H. constructor; [now left|constructor]. Qed.

Lemma good_unary (p : Parser) tok rhs : good p rhs -> good p (Expression1 tok rhs).
Proof. unfold good. cbn [leaves Expression1 flat_map]. now rewrite app_nil_r. Qed.

Lemma good_binary (p : Parser) tok lhs rhs :
  good p lhs -> good p rhs -> good p (Expression2 tok lhs rhs).
Proof.
  unfold good. cbn [leaves Expression2 flat_map]. rewrite app_nil_r.
  intros Hl Hr. apply Forall_app. now split.
Qed.

Lemma IsOk_false (p : Parser) : IsOk p = false -> m_State p <> Ok.
Proof. unfold IsOk. now destruct (m_State p). Qed.

Lemma IsOk_true (p : Parser) : IsOk p = true -> m_State p = Ok.
Proof. unfold IsOk. now destruct (m_State p). Qed.

(** The leaves of whatever the three procedures return are well formed
    for the state they leave. *)
Lemma parse_spec (fuel : nat) :
  (forall p : Parser, constants_numeric p ->
     ensures (ParseSimpleExpression fuel p) (fun e p' => stable p p' /\ good p' e)) /\
  (forall m (p : Parser), constants_numeric p ->
     ensures (ParseBinaryExpression fuel m p) (fun e p' => stable p p' /\ good p' e)) /\
  (forall m lhs (p : Parser), constants_numeric p -> good p lhs ->
     ensures (BinaryLoop fuel m lhs p) (fun e p' => stable p p' /\ good p' e)).
Proof.
  induction fuel as [|fuel (IHs & IHb & IHl)]; [repeat split; intros; exact I|].
  repeat split.
  - intros p Hc. cbn [ParseSimpleExpression].
    apply ensures_bind.
    eapply ensures_mono; [now apply ParseToken_spec|]. cbv beta.
    intros [isNumber tok] p1 [H1 Hn]. cbn [fst snd] in Hn.
    apply ensures_bind, ensures_get.
    destruct (IsOk p1) eqn:Hok; cbn [negb].
    2:{ apply ensures_ret. split; [exact H1|]. now apply good_default, IsOk_false. }
    apply IsOk_true in Hok.
    destruct isNumber.
    { apply ensures_ret. split; [exact H1|]. now apply good_leaf, Hn. }
    assert (Hc1 : constants_numeric p1) by (eapply stable_constants; eauto).
    destruct (tok =? "(")%string.
    + apply ensures_bind.
      eapply ensures_mono; [now apply IHb|]. cbv beta. intros result p2 [H2 Hg].
      apply ensures_bind.
      eapply ensures_mono;
        [apply ParseToken_spec; eapply stable_constants; eauto|].
      cbv beta. intros [b tok'] p3 [H3 _].
      destruct (negb (tok' =? ")")%string).
      * apply ensures_bind, ensures_modify, ensures_ret. split.
        -- eapply stable_trans; [|apply stable_failure; discriminate].
           eauto with stable.
        -- now apply good_default.
      * apply ensures_ret. split; [eauto with stable|].
        now apply (good_mono p2).
    + apply ensures_bind.
      eapply ensures_mono; [now apply IHs|]. cbv beta. intros rhs p2 [H2 Hg].
      apply ensures_ret. split; [eauto with stable|]. now apply good_unary.
  - intros m p Hc. cbn [ParseBinaryExpression].
    apply ensures_bind.
    eapply ensures_mono; [now apply IHs|]. cbv beta. intros lhs p1 [H1 Hg].
    eapply ensures_mono;
      [apply IHl; [eapply stable_constants; eauto|exact Hg]|].
    cbv beta. intros e p2 [H2 Hg2]. split; [eauto with stable|exact Hg2].
  - intros m lhs p Hc Hl. cbn [BinaryLoop].
    apply ensures_bind.
    eapply ensures_mono; [now apply ParseToken_spec|]. cbv beta.
    intros [b op] p1 [H1 _].
    destruct (GetPriority op <=? m).
    + apply ensures_bind, ensures_advance. intros i. apply ensures_ret.
      split; [eauto with stable|].
      apply (good_mono p); [eauto with stable|exact Hl].
    + assert (Hc1 : constants_numeric p1) by (eapply stable_constants; eauto).
      apply ensures_bind.
      eapply ensures_mono; [now apply IHb|]. cbv beta. intros rhs p2 [H2 Hg].
      eapply ensures_mono.
      { apply IHl; [eapply stable_constants; eauto|].
        apply good_binary; [|exact Hg].
        apply (good_mono p); [eauto with stable|exact Hl]. }
      cbv beta. intros e p3 [H3 Hg3]. split; [eauto with stable|exact Hg3].
Qed.

Lemma numeric_token_passes tok : numeric_token tok = true -> not_numeric tok = false.
Proof.
  unfold numeric_token, not_numeric. intros H.
  apply andb_prop in H as [H _]. apply andb_prop in H as [Hs Hf].
  destruct tok as [|c tok]; [discriminate|]. cbn [String.eqb orb].
  clear Hs. revert Hf. generalize (String c tok). clear c tok.
  induction s as [|c s IH]; [reflexivity|]. simpl. intros H.
  apply andb_prop in H as [Hc Hf]. rewrite (IH Hf), orb_false_r.
  unfold digit_or_point in Hc. now destruct (isdigit c), (ascii_eqb c ".").
Qed.

End Invariants.

Module ExactFacts.
Import Exact.

(** *** [ExactLD] meets [ExactArith] *)

Lemma isdigit_digit_value c : isdigit c = true -> 0 <= digit_value c <= 9.
Proof.
  unfold isdigit, digit_value. intros H.
  apply andb_prop in H as [H1 H2]. lia.
Qed.

Lemma take_digits_range s : forall acc v k rest,
  take_digits acc s = (v, k, rest) -> 0 <= acc ->
  acc * 10 ^ Z.of_nat k <= v < (acc + 1) * 10 ^ Z.of_nat k.
Proof.
  induction s as [|c s IH]; intros acc v k rest H Hacc; simpl in H.
  - inversion H; subst. simpl. lia.
  - destruct (isdigit c) eqn:Hc.
    + destruct (take_digits (10 * acc + digit_value c) s) as [[v' k'] rest'] eqn:E.
      inversion H; subst. pose proof (isdigit_digit_value c Hc) as Hd.
      apply IH in E; [|lia].
      rewrite Nat2Z.inj_succ, Z.pow_succ_r by lia.
      assert (0 < 10 ^ Z.of_nat k') by (apply Z.pow_pos_nonneg; lia).
      nia.
    + inversion H; subst. simpl. lia.
Qed.

Lemma take_digits_app s c tail : isdigit c = false -> forall acc v k,
  take_digits acc s = (v, k, EmptyString) ->
  take_digits acc (s ++ String c tail) = (v, k, String c tail).
Proof.
  intros Hc. induction s as [|d s IH]; intros acc v k H; simpl in *.
  - inversion H; subst. now rewrite Hc.
  - destruct (isdigit d); [|discriminate].
    destruct (take_digits (10 * acc + digit_value d) s) as [[v' k'] rest'] eqn:E.
    inversion H; subst. now rewrite (IH _ _ _ E).
Qed.

Lemma decimal_take_digits s n :
  decimal s = Some n -> exists k, take_digits 0 s = (n, S k, EmptyString).
Proof.
  unfold decimal. destruct (take_digits 0 s) as [[v k] rest].
  destruct k; [discriminate|]. destruct rest; [|discriminate].
  intros [= ->]. now exists k.
Qed.

Lemma trunc_inject_Z n : trunc (inject_Z n) = n.
Proof. unfold trunc, inject_Z. simpl. apply Z.quot_1_r. Qed.

Lemma to_long_in_range q :
  - 2 ^ 31 <= trunc q < 2 ^ 31 -> to_long (Fin q) = Some (trunc q).
Proof.
  intros H. unfold to_long, long_min.
  destruct (- 2 ^ 63 <=? trunc q) eqn:E1; [|lia].
  destruct (- - 2 ^ 63 >? trunc q) eqn:E2; [reflexivity|lia].
Qed.

#[export] Instance ExactLD_exact : ExactArith ExactLD.
Proof.
  constructor;
    cbn [ld ld_of_Z ld_add ld_sub ld_mul ld_pow ld_libm ld_to_long LONG_MIN
         ld_stold ExactLD].
  - intros a b _ _ _. unfold add, of_Z, inject_Z, Qplus. simpl.
    now rewrite !Z.mul_1_r.
  - intros a b _ _ _. unfold sub, add, neg, of_Z, inject_Z, Qplus, Qopp. simpl.
    now rewrite !Z.mul_1_r, Z.add_opp_r.
  - intros a b _ _ _. reflexivity.
  - intros a b Hb _ _ _. unfold pow, of_Z.
    assert (Hi : is_integer (inject_Z b) = true).
    { unfold is_integer, inject_Z. simpl. now rewrite Z.rem_1_r. }
    assert (Hn : is_neg (inject_Z b) = false).
    { unfold is_neg, inject_Z. simpl. lia. }
    rewrite Hi, Hn, andb_false_r, trunc_inject_Z. f_equal.
    destruct b as [|p|p]; [reflexivity| |lia].
    unfold inject_Z. simpl Qpower.
    rewrite Qpower_decomp_positive. f_equal.
    apply Pos2Z.inj. rewrite Pos2Z.inj_pow. apply Z.pow_1_l. lia.
  - intros n Hn. unfold apply_libm, of_Z.
    assert (Hi : is_integer (inject_Z n) = true).
    { unfold is_integer, inject_Z. simpl. now rewrite Z.rem_1_r. }
    rewrite Hi, trunc_inject_Z.
    destruct (0 <? n) eqn:E; [reflexivity|lia].
  - intros n Hn. unfold of_Z.
    rewrite to_long_in_range; rewrite trunc_inject_Z; [reflexivity|lia].
  - intros s n Hs _. apply decimal_take_digits in Hs as [k Hk].
    unfold stold. now rewrite Hk.
  - intros ip fp n Hip [f Hfp] Hn _.
    apply decimal_take_digits in Hip as [k1 H1].
    apply decimal_take_digits in Hfp as [k2 H2].
    pose proof (take_digits_range _ _ _ _ _ H1 ltac:(lia)) as R1.
    pose proof (take_digits_range _ _ _ _ _ H2 ltac:(lia)) as R2.
    assert (P : 0 < 10 ^ Z.of_nat (S k2)) by (apply Z.pow_pos_nonneg; lia).
    assert (P1 : 0 < 10 ^ Z.of_nat (S k1)) by (apply Z.pow_pos_nonneg; lia).
    unfold stold.
    change (ip ++ "." ++ fp) with (ip ++ String "." fp).
    rewrite (take_digits_app ip "." fp eq_refl _ _ _ H1), H2.
    eexists; split; [reflexivity|].
    set (d := 10 ^ Z.of_nat (S k2)) in *.
    assert (T : trunc (n * d + f # Z.to_pos d) = n).
    { unfold trunc. simpl Qnum. simpl Qden. rewrite Z2Pos.id by lia.
      rewrite Z.quot_div_nonneg by nia.
      rewrite Z.add_comm, Z.div_add by lia.
      rewrite Z.div_small by lia. lia. }
    rewrite to_long_in_range; rewrite T; [reflexivity|lia].
Qed.

End ExactFacts.

(** * The claims *)

Section Claims.

Context {LD : LongDouble}.

Ltac repr := unfold representable; simpl; lia.

Ltac parse_by_computation := vm_compute; reflexivity.

Lemma stold_digit `{!ExactArith LD} s n :
  decimal s = Some n -> representable n -> not_numeric s = false ->
  forall rhs_first p, evaluates rhs_first (mkExpression s []) p (ld_of_Z n).
Proof.
  intros Hd Hr Hn rhs_first p. apply evaluates_leaf; [exact Hn|].
  now apply stold_decimal.
Qed.

(** C3, as amended: [Get("2^3^2", true)] returns 64 with state [Ok]: the
    second [^] has a priority that is not above the first one's, so the
    chain is grouped from the left, (2^3)^2. *)
Theorem power_chain_left_assoc `{!ExactArith LD} (rhs_first : bool) :
  returns rhs_first Parser_new "2^3^2" true (Some (ld_of_Z 64)) Ok /\
  (exists fuel p1,
     Get_tree fuel "2^3^2" true Parser_new =
     Done (Expression2 "^"
             (Expression2 "^" (Expression0 "2") (Expression0 "3"))
             (Expression0 "2"), p1)).
Proof.
  split.
  - apply (returns_evaluates rhs_first 20 _ _ _
             (Expression2 "^"
                (Expression2 "^" (Expression0 "2") (Expression0 "3"))
                (Expression0 "2")) 5);
      [parse_by_computation|].
    eapply evaluates_binary; [reflexivity| | |].
    + eapply evaluates_binary; [reflexivity| | |reflexivity].
      * apply (stold_digit "2" 2); [reflexivity|repr|reflexivity].
      * apply (stold_digit "3" 3); [reflexivity|repr|reflexivity].
    + apply (stold_digit "2" 2); [reflexivity|repr|reflexivity].
    + rewrite (pow_exact 2 3) by repr. rewrite (pow_exact (2 ^ 3) 2) by repr.
      reflexivity.
  - exists 20%nat, (parsed "2^3^2" true 5 Ok Parser_new). parse_by_computation.
Qed.

(** C5, as amended: [Get("!3", true)] returns 6 with state [Ok]: [!] is a
    prefix function, applied to the simple expression that follows it, and
    computes Γ(a+1). *)
Theorem prefix_factorial `{!ExactArith LD} (rhs_first : bool) :
  returns rhs_first Parser_new "!3" true (Some (ld_of_Z 6)) Ok /\
  FUNCTIONS Parser_new !! "!" =
    Some (fun _ a => ld_libm Tgamma (ld_add a (ld_of_Z 1))).
Proof.
  split; [|reflexivity].
  apply (returns_evaluates rhs_first 20 _ _ _
           (Expression1 "!" (Expression0 "3")) 2);
    [parse_by_computation|].
  eapply evaluates_unary; [reflexivity| |].
  - apply (stold_digit "3" 3); [reflexivity|repr|reflexivity].
  - cbv beta. rewrite add_exact by repr. rewrite (tgamma_exact (3 + 1)) by lia.
    reflexivity.
Qed.

(** C10: [Get("1/0", true)] returns the quotient the floating-point
    division gives and leaves state [Ok]: dividing by zero sets no failure
    state. *)
Theorem division_by_zero_state_Ok `{!ExactArith LD} (rhs_first : bool) :
  returns rhs_first Parser_new "1/0" true
    (Some (ld_div (ld_of_Z 1) (ld_of_Z 0))) Ok.
Proof.
  apply (returns_evaluates rhs_first 20 _ _ _
           (Expression2 "/" (Expression0 "1") (Expression0 "0")) 3);
    [parse_by_computation|].
  eapply evaluates_binary; [reflexivity| | |reflexivity].
  - apply (stold_digit "1" 1); [reflexivity|repr|reflexivity].
  - apply (stold_digit "0" 0); [reflexivity|repr|reflexivity].
Qed.

(** C4, evaluated on the code: on ["1."] the tokenizer sets
    [InvalidSyntax] and the parser hands back the empty node; [Get]
    evaluates that node all the same, and [Evaluate] replaces the state by
    [UnknownExpressionType], which is what the caller finds. *)
Theorem trailing_point_state_overwritten (rhs_first : bool) :
  parses Parser_new "1." true Expression_default
         (parsed "1." true 2 InvalidSyntax Parser_new) /\
  returns rhs_first Parser_new "1." true (Some (ld_of_Z 0)) UnknownExpressionType.
Proof.
  split.
  - apply (parses_computed 20). parse_by_computation.
  - apply (returns_from rhs_first 20 _ _ _ Expression_default
             (parsed "1." true 2 InvalidSyntax Parser_new)
             (Some (ld_of_Z 0))
             (parsed "1." true 2 UnknownExpressionType Parser_new));
      [parse_by_computation|parse_by_computation|reflexivity].
Qed.

(** C1, evaluated on the code: whatever handler is registered for ["@"],
    [Get("1@2", true)] returns 1 with state [Ok], since [GetPriority] gives
    the new symbol priority 0 and no binary node is built for it; and
    registering ["s"] changes what ["sqrt(4)"] evaluates to, since the new
    symbol is matched before ["sqrt"]: the tree is the unary node [s] over
    the empty node, [FUNCTIONS] has no [s], and [Evaluate] assigns
    [UnknownUnaryOperator] and reaches its end without a [return]. *)
Theorem AddOperator_handler_never_applied `{!ExactArith LD}
    (rhs_first : bool) (handler : ld -> ld -> ld) :
  returns rhs_first (AddOperator "@" handler Parser_new) "1@2" true
          (Some (ld_of_Z 1)) Ok /\
  returns rhs_first Parser_new "sqrt(4)" true
          (Some (ld_libm Sqrt (ld_of_Z 4))) Ok /\
  parses (AddOperator "s" handler Parser_new) "sqrt(4)" true
         (Expression1 "s" Expression_default)
         (parsed "sqrt(4)" true 1 InvalidSyntax (AddOperator "s" handler Parser_new)) /\
  undefined rhs_first (AddOperator "s" handler Parser_new) "sqrt(4)" true.
Proof.
  split; [|split; [|split]].
  - apply (returns_evaluates rhs_first 20 _ _ _ (Expression0 "1") 1);
      [parse_by_computation|].
    apply (stold_digit "1" 1); [reflexivity|repr|reflexivity].
  - apply (returns_evaluates rhs_first 20 _ _ _
             (Expression1 "sqrt" (Expression0 "4")) 7);
      [parse_by_computation|].
    eapply evaluates_unary; [reflexivity| |reflexivity].
    apply (stold_digit "4" 4); [reflexivity|repr|reflexivity].
  - apply (parses_computed 20). parse_by_computation.
  - apply (undefined_from rhs_first 20 _ _ _
             (Expression1 "s" Expression_default)
             (parsed "sqrt(4)" true 1 InvalidSyntax (AddOperator "s" handler Parser_new)));
      parse_by_computation.
Qed.

(** C8, evaluated on the code: in ["1pi"] the token peeked after [1] is the
    constant [pi]; it starts at offset 1 and ends at offset 3, but [op]
    holds the eight characters of its value, so the rewind leaves the
    cursor at offset -5, before the buffer. Inside parentheses the next
    read is made from there. *)
Theorem rewind_past_buffer_start (rhs_first : bool) :
  ParseToken "" (parsed "1pi" true 1 Ok Parser_new) =
    Done ((true, "3.141593"), parsed "1pi" true 3 Ok Parser_new) /\
  parses Parser_new "1pi" true (Expression0 "1")
         (parsed "1pi" true (-5) Ok Parser_new) /\
  (exists n, forall fuel, (n <= fuel)%nat ->
     Get rhs_first fuel "(1pi)" true Parser_new = Undefined).
Proof.
  split; [|split].
  - parse_by_computation.
  - apply (parses_computed 20). parse_by_computation.
  - exists 20%nat. intros fuel Hle.
    assert (H : Get_tree 20 "(1pi)" true Parser_new = Undefined)
      by parse_by_computation.
    assert (R : refines (Get_tree 20 "(1pi)" true Parser_new)
                        (Get_tree fuel "(1pi)" true Parser_new)).
    { unfold Get_tree. apply bind_refines; [apply refines_refl|intros _ q].
      now apply (fuel_refines 20 fuel Hle). }
    destruct R as [R|R]; rewrite H in R; [discriminate|].
    unfold Get_tree in R. unfold Get, bind in *. cbn [modify] in *.
    now rewrite <- R.
Qed.

(** C9, as amended: for the empty input, with any registry, and for
    ["1+"], [Get] never returns; in general, when a simple expression is
    required, no failure state has been set and only white space is left,
    [ParseSimpleExpression] calls itself without consuming anything and
    without end. *)
Theorem unbounded_recursion :
  (forall rhs_first (p : Parser) radians, diverges rhs_first p "" radians) /\
  (forall rhs_first radians, diverges rhs_first Parser_new "1+" radians) /\
  (forall fuel (p : Parser),
     m_State p = Ok -> at_end p = true -> ParseSimpleExpression fuel p = OutOfFuel).
Proof.
  split; [|split].
  - intros rhs_first p radians fuel. apply Get_tree_OutOfFuel.
    unfold Get_tree, bind at 1, modify.
    destruct fuel as [|fuel]; [reflexivity|].
    rewrite ParseBinaryExpression_S. unfold bind.
    now rewrite ParseSimpleExpression_at_end.
  - intros rhs_first radians fuel. apply Get_tree_OutOfFuel.
    destruct fuel as [|[|[|fuel]]]; [parse_by_computation..|].
    unfold Get_tree, bind at 1, modify.
    rewrite ParseBinaryExpression_S. unfold bind at 1.
    assert (H1 : ParseSimpleExpression (S (S fuel)) (Get_begin "1+" radians Parser_new)
                 = Done (Expression0 "1", parsed "1+" radians 1 Ok Parser_new)).
    { apply (refines_Done (ParseSimpleExpression 1 (Get_begin "1+" radians Parser_new)));
        [apply fuel_refines; lia|parse_by_computation]. }
    rewrite H1.
    rewrite (BinaryLoop_S _ _ _ _ false "+" (parsed "1+" radians 2 Ok Parser_new))
      by parse_by_computation.
    change (GetPriority "+" <=? 0) with false. cbv iota.
    rewrite ParseBinaryExpression_S. unfold bind.
    now rewrite ParseSimpleExpression_at_end.
  - intros fuel p. apply ParseSimpleExpression_at_end.
Qed.

Lemma constants_numeric_new : constants_numeric Parser_new.
Proof.
  unfold constants_numeric, Parser_new, CONSTANTS, CONSTANTS_init.
  apply map_Forall_insert_2; [reflexivity|].
  apply map_Forall_insert_2; [reflexivity|].
  apply map_Forall_empty.
Qed.

Lemma two_points_tree :
  Get_tree 20 "1.2.3" true Parser_new =
  Done (Expression0 "1.2.3", parsed "1.2.3" true 5 Ok Parser_new).
Proof. parse_by_computation. Qed.

(** C7, evaluated on the code: ["1.2.3"] holds two decimal points, so it is
    no unsigned decimal numeral; the tokenizer takes the whole run of digits
    and points as one numeric token, of which it tests the last character
    only, the parser makes it a leaf, the test of [Evaluate] looks for a
    character other than a digit or a point and finds none, and what
    [std::stold] makes of the text is returned with state [Ok]: no failure
    state is set. *)
Theorem two_points_numeral_accepted (rhs_first : bool) (v : ld) :
  ld_stold "1.2.3" = Some v ->
  unsigned_decimal "1.2.3" = false /\
  ParseToken "" (Get_begin "1.2.3" true Parser_new) =
    Done ((true, "1.2.3"), parsed "1.2.3" true 5 Ok Parser_new) /\
  parses Parser_new "1.2.3" true (Expression0 "1.2.3")
         (parsed "1.2.3" true 5 Ok Parser_new) /\
  not_numeric "1.2.3" = false /\
  returns rhs_first Parser_new "1.2.3" true (Some v) Ok.
Proof.
  intros Hv.
  split; [reflexivity|]. split; [parse_by_computation|].
  split; [apply (parses_computed 20); exact two_points_tree|].
  split; [reflexivity|].
  apply (returns_evaluates rhs_first 20 _ _ _ (Expression0 "1.2.3") 5);
    [exact two_points_tree|].
  apply evaluates_leaf; [reflexivity|exact Hv].
Qed.

End Claims.

(** ** The claims on exact arithmetic *)

Section ExactRuns.

Import Exact ExactFacts.

(** C3 as it was stated fails: the value returned for ["2^3^2"] is 64,
    not 512. *)
Lemma power_chain_not_512 :
  ~ returns (LD := ExactLD) false Parser_new "2^3^2" true (Some (of_Z 512)) Ok.
Proof.
  intros H.
  assert (H64 : returns (LD := ExactLD) false Parser_new "2^3^2" true
                        (Some (of_Z 64)) Ok)
    by (apply (returns_computed false 20); vm_compute; reflexivity).
  destruct (returns_unique _ _ _ _ _ _ _ _ H H64) as [E _].
  vm_compute in E. discriminate E.
Qed.

Lemma power_chain_left_assoc_witness :
  returns (LD := ExactLD) true Parser_new "2^3^2" true (Some (of_Z 64)) Ok.
Proof. exact (proj1 (@power_chain_left_assoc ExactLD ExactLD_exact true)). Defined.

(** C5 as it was stated fails: for ["3!"] the value returned is 3, the
    [!] after the number is peeked as an operator of priority 0 and put
    back. *)
Lemma postfix_factorial_not_6 :
  returns (LD := ExactLD) false Parser_new "3!" true (Some (of_Z 3)) Ok /\
  ~ returns (LD := ExactLD) false Parser_new "3!" true (Some (of_Z 6)) Ok.
Proof.
  assert (H3 : returns (LD := ExactLD) false Parser_new "3!" true
                       (Some (of_Z 3)) Ok)
    by (apply (returns_computed false 20); vm_compute; reflexivity).
  split; [exact H3|]. intros H.
  destruct (returns_unique _ _ _ _ _ _ _ _ H H3) as [E _].
  vm_compute in E. discriminate E.
Qed.

Lemma prefix_factorial_witness :
  returns (LD := ExactLD) false Parser_new "!3" true (Some (of_Z 6)) Ok.
Proof. exact (proj1 (@prefix_factorial ExactLD ExactLD_exact false)). Defined.

Lemma division_by_zero_state_Ok_witness :
  returns (LD := ExactLD) false Parser_new "1/0" true (Some (Inf false)) Ok.
Proof. exact (@division_by_zero_state_Ok ExactLD ExactLD_exact false). Defined.

Lemma AddOperator_handler_never_applied_witness :
  returns (LD := ExactLD) false (AddOperator "@" (fun _ _ => of_Z 77) Parser_new)
          "1@2" true (Some (of_Z 1)) Ok.
Proof.
  exact (proj1 (@AddOperator_handler_never_applied ExactLD ExactLD_exact false
                  (fun _ _ => of_Z 77))).
Defined.

(** C9 as it was stated fails: ["1.+"] ends where a simple expression is
    required, but the state is a failure by then, the call for the operand
    hands back the empty node, and [Get] returns. *)
Lemma failure_stops_recursion :
  returns (LD := ExactLD) false Parser_new "1.+" true
          (Some (of_Z 0)) UnknownExpressionType /\
  ~ diverges (LD := ExactLD) false Parser_new "1.+" true.
Proof.
  assert (H : observe (Get (LD := ExactLD) false 20 "1.+" true Parser_new) =
              Done (Some (of_Z 0), UnknownExpressionType))
    by (vm_compute; reflexivity).
  split; [exact (returns_computed false 20 _ _ _ _ _ H)|].
  intros D. rewrite (D 20%nat) in H. discriminate H.
Qed.

Lemma unbounded_recursion_witness :
  @ParseSimpleExpression ExactLD 7 (parsed "1+" true 2 Ok Parser_new) = OutOfFuel.
Proof.
  apply (proj2 (proj2 (@unbounded_recursion ExactLD))); reflexivity.
Defined.

Lemma two_points_numeral_accepted_witness :
  unsigned_decimal "1.2.3" = false /\
  ParseToken (LD := ExactLD) "" (Get_begin "1.2.3" true Parser_new) =
    Done ((true, "1.2.3"), parsed "1.2.3" true 5 Ok Parser_new) /\
  parses (LD := ExactLD) Parser_new "1.2.3" true (Expression0 "1.2.3")
         (parsed "1.2.3" true 5 Ok Parser_new) /\
  not_numeric "1.2.3" = false /\
  returns (LD := ExactLD) false Parser_new "1.2.3" true (Some (Fin (12 # 10))) Ok.
Proof.
  exact (@two_points_numeral_accepted ExactLD false (Fin (12 # 10)) eq_refl).
Defined.

End ExactRuns.

(** * Further properties of the code *)

(** ** What a call leaves unchanged *)

Section Frame.

Context {LD : LongDouble}.

Lemma same_registry_refl (p : Parser) : same_registry p p.
Proof. now repeat split. Qed.

Lemma same_registry_trans (p1 p2 p3 : Parser) :
  same_registry p1 p2 -> same_registry p2 p3 -> same_registry p1 p3.
Proof.
  intros (A1 & B1 & C1 & D1) (A2 & B2 & C2 & D2). repeat split; congruence.
Qed.

Lemma parse_step_refl (p : Parser) : parse_step p p.
Proof. repeat split; auto. Qed.

Lemma parse_step_trans (p1 p2 p3 : Parser) :
  parse_step p1 p2 -> parse_step p2 p3 -> parse_step p1 p3.
Proof.
  intros (R1 & I1 & M1 & S1) (R2 & I2 & M2 & S2).
  split; [eapply same_registry_trans; eauto|].
  repeat split; try congruence.
  destruct S2 as [S2|S2]; [rewrite S2; exact S1|now right].
Qed.

Lemma parse_step_set_Input (p : Parser) i : parse_step p (set_Input i p).
Proof. repeat split; auto. Qed.

Lemma parse_step_InvalidSyntax (p : Parser) : parse_step p (set_State InvalidSyntax p).
Proof. repeat split; auto. Qed.

Create HintDb frame.
#[local] Hint Resolve parse_step_refl parse_step_trans parse_step_set_Input
  parse_step_InvalidSyntax : frame.

Lemma skip_spaces_step n : forall p : Parser,
  ensures (skip_spaces n p) (fun _ p' => parse_step p p').
Proof.
  induction n as [|n IH]; intros p; [exact I|]. cbn [skip_spaces].
  apply ensures_bind, ensures_peek. intros c _.
  destruct (isspace c); [|apply ensures_ret; auto with frame].
  apply ensures_bind, ensures_advance. intros i.
  eapply ensures_mono; [apply IH|]. cbv beta. eauto with frame.
Qed.

Lemma read_number_step n : forall tok (p : Parser),
  ensures (read_number n tok p) (fun _ p' => parse_step p p').
Proof.
  induction n as [|n IH]; intros tok p; [exact I|]. cbn [read_number].
  apply ensures_bind, ensures_peek. intros c _.
  destruct (isdigit c || ascii_eqb c "."); [|apply ensures_ret; auto with frame].
  apply ensures_bind, ensures_advance. intros i.
  eapply ensures_mono; [apply IH|]. cbv beta. eauto with frame.
Qed.

Lemma match_tokens_step ts : forall tok (p : Parser),
  ensures (match_tokens ts tok p) (fun _ p' => parse_step p p').
Proof.
  induction ts as [|t ts IH]; intros tok p; cbn [match_tokens].
  - apply ensures_bind, ensures_modify, ensures_ret. auto with frame.
  - apply ensures_bind, ensures_strncmp. intros [|]; [|apply IH].
    apply ensures_bind, ensures_advance. intros i.
    apply ensures_bind, ensures_get.
    destruct (CONSTANTS _ !! t); apply ensures_ret; auto with frame.
Qed.

Lemma ParseToken_step tok (p : Parser) :
  ensures (ParseToken tok p) (fun _ p' => parse_step p p').
Proof.
  unfold ParseToken.
  apply ensures_bind, ensures_get, ensures_bind.
  eapply ensures_mono; [apply skip_spaces_step|]. cbv beta. intros _ p1 H1.
  apply ensures_bind, ensures_peek. intros c _.
  destruct (ascii_eqb c NUL); [now apply ensures_ret|].
  destruct (isdigit c).
  - apply ensures_bind.
    eapply ensures_mono; [apply read_number_step|]. cbv beta. intros tok' p2 H2.
    destruct (ends_with_point tok').
    + apply ensures_bind, ensures_modify, ensures_ret. eauto with frame.
    + apply ensures_ret. eauto with frame.
  - apply ensures_bind, ensures_get.
    eapply ensures_mono; [apply match_tokens_step|]. cbv beta. eauto with frame.
Qed.

(** The three parsing procedures move the cursor and may set
    [InvalidSyntax]; they touch nothing else. *)
Lemma parse_steps (fuel : nat) :
  (forall p : Parser,
     ensures (ParseSimpleExpression fuel p) (fun _ p' => parse_step p p')) /\
  (forall m (p : Parser),
     ensures (ParseBinaryExpression fuel m p) (fun _ p' => parse_step p p')) /\
  (forall m lhs (p : Parser),
     ensures (BinaryLoop fuel m lhs p) (fun _ p' => parse_step p p')).
Proof.
  induction fuel as [|fuel (IHs & IHb & IHl)]; [repeat split; intros; exact I|].
  repeat split.
  - intros p. cbn [ParseSimpleExpression].
    apply ensures_bind.
    eapply ensures_mono; [apply ParseToken_step|]. cbv beta.
    intros [isNumber tok] p1 H1.
    apply ensures_bind, ensures_get.
    destruct (negb (IsOk p1)); [now apply ensures_ret|].
    destruct isNumber; [now apply ensures_ret|].
    destruct (tok =? "(")%string.
    + apply ensures_bind.
      eapply ensures_mono; [apply IHb|]. cbv beta. intros result p2 H2.
      apply ensures_bind.
      eapply ensures_mono; [apply ParseToken_step|].
      cbv beta. intros [b tok'] p3 H3.
      destruct (negb (tok' =? ")")%string).
      * apply ensures_bind, ensures_modify, ensures_ret. eauto 6 with frame.
      * apply ensures_ret. eauto with frame.
    + apply ensures_bind.
      eapply ensures_mono; [apply IHs|]. cbv beta. intros rhs p2 H2.
      apply ensures_ret. eauto with frame.
  - intros m p. cbn [ParseBinaryExpression].
    apply ensures_bind.
    eapply ensures_mono; [apply IHs|]. cbv beta. intros lhs p1 H1.
    eapply ensures_mono; [apply IHl|]. cbv beta. eauto with frame.
  - intros m lhs p. cbn [BinaryLoop].
    apply ensures_bind.
    eapply ensures_mono; [apply ParseToken_step|]. cbv beta.
    intros [b op] p1 H1.
    destruct (GetPriority op <=? m).
    + apply ensures_bind, ensures_advance. intros i. apply ensures_ret.
      eauto with frame.
    + apply ensures_bind.
      eapply ensures_mono; [apply IHb|]. cbv beta. intros rhs p2 H2.
      eapply ensures_mono; [apply IHl|]. cbv beta. eauto with frame.
Qed.

(** *** Evaluation *)

Lemma Expression_nested_ind (P : Expression -> Prop) :
  (forall tok args, Forall P args -> P (mkExpression tok args)) ->
  forall e, P e.
Proof.
  intros H. fix IH 1. intros [tok args]. apply H.
  induction args as [|a args IHargs]; constructor; [apply IH|exact IHargs].
Qed.

Lemma eval_step_refl (p : Parser) : eval_step p p.
Proof. repeat split; auto. Qed.

Lemma eval_step_trans (p1 p2 p3 : Parser) :
  eval_step p1 p2 -> eval_step p2 p3 -> eval_step p1 p3.
Proof.
  intros (R1 & I1 & M1 & C1 & S1) (R2 & I2 & M2 & C2 & S2).
  split; [eapply same_registry_trans; eauto|].
  repeat split; try congruence.
  destruct S2 as [S2|S2]; [rewrite S2; exact S1|now right].
Qed.

Lemma eval_step_failure (p : Parser) s :
  evaluation_failure s -> eval_step p (set_State s p).
Proof. intros H. repeat split; auto. Qed.

#[local] Hint Resolve eval_step_refl eval_step_trans : frame.

Lemma apply_binary_step h x y (p : Parser) :
  ensures (apply_binary h x y p) (fun _ p' => p' = p).
Proof.
  unfold apply_binary. destruct x as [a|], y as [b|]; try exact I.
  destruct (h a b); [reflexivity|exact I].
Qed.

(** [Evaluate] reads the tables and the angle mode and may set one of its
    three failure states; it touches nothing else. *)
Lemma Evaluate_step rhs_first (e : Expression) : forall p : Parser,
  ensures (Evaluate rhs_first e p) (fun _ p' => eval_step p p').
Proof.
  induction e as [tok args IH] using Expression_nested_ind. intros p.
  cbn [Evaluate].
  destruct args as [|a0 [|a1 [|a2 args]]].
  - destruct (not_numeric tok).
    + apply ensures_bind, ensures_modify, ensures_ret.
      apply eval_step_failure. right. now right.
    + destruct (ld_stold tok); [apply ensures_ret; auto with frame|exact I].
  - apply Forall_cons in IH as [IH0 _].
    apply ensures_bind, ensures_get.
    destruct (FUNCTIONS p !! tok) as [h|].
    + apply ensures_bind. fold (Evaluate rhs_first a0).
      eapply ensures_mono; [apply IH0|]. cbv beta. intros x p1 H1.
      apply ensures_bind, ensures_get.
      destruct x; [apply ensures_ret; exact H1|exact I].
    + exact I.
  - apply Forall_cons in IH as [IH0 IH]. apply Forall_cons in IH as [IH1 _].
    apply ensures_bind, ensures_get.
    destruct (OPERATORS p !! tok) as [h|].
    + fold (Evaluate rhs_first a0). fold (Evaluate rhs_first a1).
      destruct rhs_first.
      * apply ensures_bind.
        eapply ensures_mono; [apply IH1|]. cbv beta. intros y p1 H1.
        apply ensures_bind.
        eapply ensures_mono; [apply IH0|]. cbv beta. intros x p2 H2.
        eapply ensures_mono; [apply apply_binary_step|].
        cbv beta. intros r p3 ->. eauto with frame.
      * apply ensures_bind.
        eapply ensures_mono; [apply IH0|]. cbv beta. intros x p1 H1.
        apply ensures_bind.
        eapply ensures_mono; [apply IH1|]. cbv beta. intros y p2 H2.
        eapply ensures_mono; [apply apply_binary_step|].
        cbv beta. intros r p3 ->. eauto with frame.
    + exact I.
  - exact I.
Qed.

End Frame.

(** ** [Get] as a whole *)

Section GetProperties.

Context {LD : LongDouble}.

Lemma Get_begin_registry text radians (p q : Parser) :
  same_registry p q -> Get_begin text radians q = Get_begin text radians p.
Proof. intros (A & B & C & D). unfold Get_begin. now rewrite A, B, C, D. Qed.

(** [Get] reads nothing of the object but its four tables. *)
Lemma Get_depends_on_registry rhs_first fuel text radians (p q : Parser) :
  same_registry p q ->
  Get rhs_first fuel text radians q = Get rhs_first fuel text radians p.
Proof.
  intros H. unfold Get, bind, modify. now rewrite (Get_begin_registry _ _ _ _ H).
Qed.

Lemma Get_inv rhs_first fuel text radians (p : Parser) v p1 :
  Get rhs_first fuel text radians p = Done (v, p1) ->
  exists e pa pb,
    ParseBinaryExpression fuel 0 (Get_begin text radians p) = Done (e, pa) /\
    Evaluate rhs_first e pa = Done (v, pb) /\
    p1 = set_Input None pb.
Proof.
  unfold Get, bind, modify, ret. intros H.
  destruct (ParseBinaryExpression fuel 0 _) as [[e pa]| | |] eqn:Hp; try discriminate.
  destruct (Evaluate rhs_first e pa) as [[v' pb]| | |] eqn:He; try discriminate.
  inversion H; subst. exists e, pa, pb. auto.
Qed.

Lemma Get_evaluates rhs_first fuel text radians (p : Parser) e p1 v :
  Get_tree fuel text radians p = Done (e, p1) ->
  evaluates rhs_first e p1 v ->
  Get rhs_first fuel text radians p = Done (Some v, set_Input None p1).
Proof.
  intros Ht He. rewrite (Get_after_tree _ _ _ _ _ _ _ Ht).
  unfold bind. now rewrite He.
Qed.

(** X1: a call of [Get] that returns leaves the four tables as they were,
    keeps the lower-cased text and the angle mode it was given and resets
    the cursor to null; every later call of [Get] on the object it leaves
    is the call on the object as it was before: no call depends on the
    calls made before it, as in the loop of [main]. *)
Theorem Get_keeps_registry rhs_first fuel text radians (p : Parser) v p1 :
  Get rhs_first fuel text radians p = Done (v, p1) ->
  same_registry p p1 /\
  input p1 = lowercase text /\ m_Radians p1 = radians /\ m_Input p1 = None /\
  (forall fuel' text' radians',
     Get rhs_first fuel' text' radians' p1 = Get rhs_first fuel' text' radians' p).
Proof.
  intros H.
  apply Get_inv in H as (e & pa & pb & Hp & He & ->).
  pose proof (proj1 (proj2 (parse_steps fuel)) 0 (Get_begin text radians p)) as Sp.
  rewrite Hp in Sp. cbn [ensures] in Sp.
  pose proof (Evaluate_step rhs_first e pa) as Se.
  rewrite He in Se. cbn [ensures] in Se.
  destruct Sp as (Rp & Ip & Mp & _), Se as (Re & Ie & Me & _).
  assert (R : same_registry p (set_Input None pb)).
  { apply same_registry_trans with pa; [|exact Re].
    apply same_registry_trans with (Get_begin text radians p); [|exact Rp].
    now repeat split. }
  split; [exact R|]. cbn [input m_Radians m_Input set_Input].
  repeat split.
  - now rewrite Ie, Ip.
  - now rewrite Me, Mp.
  - intros fuel' text' radians'. exact (Get_depends_on_registry _ _ _ _ _ _ R).
Qed.

(** *** The shape of the trees *)

Lemma GetPriority_range op : 0 <= GetPriority op <= 3.
Proof.
  unfold GetPriority.
  repeat match goal with |- context [if ?b then _ else _] => destruct b end; lia.
Qed.

Lemma shape_ok_parsed (fuel : nat) :
  (forall p : Parser,
     ensures (ParseSimpleExpression fuel p) (fun e _ => shape_ok e = true)) /\
  (forall m (p : Parser), 0 <= m ->
     ensures (ParseBinaryExpression fuel m p) (fun e _ => shape_ok e = true)) /\
  (forall m lhs (p : Parser), 0 <= m -> shape_ok lhs = true ->
     ensures (BinaryLoop fuel m lhs p) (fun e _ => shape_ok e = true)).
Proof.
  induction fuel as [|fuel (IHs & IHb & IHl)]; [repeat split; intros; exact I|].
  repeat split.
  - intros p. cbn [ParseSimpleExpression].
    apply ensures_bind.
    destruct (ParseToken "" p) as [[[isNumber tok] p1]| | |]; try exact I.
    cbn [ensures]. apply ensures_bind, ensures_get.
    destruct (negb (IsOk p1)); [now apply ensures_ret|].
    destruct isNumber; [now apply ensures_ret|].
    destruct (tok =? "(")%string.
    + apply ensures_bind.
      eapply ensures_mono; [apply IHb; lia|]. cbv beta. intros result p2 H2.
      apply ensures_bind.
      destruct (ParseToken "" p2) as [[[b tok'] p3]| | |]; try exact I.
      cbn [ensures].
      destruct (negb (tok' =? ")")%string).
      * now apply ensures_bind, ensures_modify, ensures_ret.
      * now apply ensures_ret.
    + apply ensures_bind.
      eapply ensures_mono; [apply IHs|]. cbv beta. intros rhs p2 H2.
      now apply ensures_ret.
  - intros m p Hm. cbn [ParseBinaryExpression].
    apply ensures_bind.
    eapply ensures_mono; [apply IHs|]. cbv beta. intros lhs p1 H1.
    now apply IHl.
  - intros m lhs p Hm Hl. cbn [BinaryLoop].
    apply ensures_bind.
    destruct (ParseToken "" p) as [[[b op] p1]| | |]; try exact I.
    cbn [ensures].
    destruct (GetPriority op <=? m) eqn:E.
    + apply ensures_bind, ensures_advance. intros i. now apply ensures_ret.
    + apply Z.leb_gt in E.
      apply ensures_bind.
      eapply ensures_mono; [apply IHb; lia|]. cbv beta. intros rhs p2 H2.
      apply IHl; [exact Hm|]. cbn [shape_ok Expression2].
      rewrite Hl, H2, !andb_true_r. apply Z.ltb_lt. lia.
Qed.

Lemma Get_tree_shape fuel text radians (p : Parser) e p1 :
  Get_tree fuel text radians p = Done (e, p1) -> shape_ok e = true.
Proof.
  unfold Get_tree, bind, modify. intros H.
  pose proof (proj1 (proj2 (shape_ok_parsed fuel)) 0
                (Get_begin text radians p) ltac:(lia)) as S.
  now rewrite H in S.
Qed.

Lemma GetPriority_positive op :
  0 < GetPriority op <-> In op ["+"; "-"; "*"; "/"; "%"; "^"].
Proof.
  unfold GetPriority. split.
  - repeat match goal with
           | |- context [String.eqb op ?s] =>
               destruct (String.eqb_spec op s) as [->|_]; [intros _; simpl; tauto|]
           end.
    lia.
  - simpl. intros [<-|[<-|[<-|[<-|[<-|[<-|[]]]]]]]; simpl; lia.
Qed.

(** X2: every node of the tree [Get] evaluates has at most two arguments,
    and the token of a node with two arguments is one of the six symbols
    to which [GetPriority] gives a priority above 0. *)
Theorem parsed_tree_shape fuel text radians (p : Parser) e p1 :
  Get_tree fuel text radians p = Done (e, p1) ->
  shape_ok e = true /\
  (forall op, 0 < GetPriority op <-> In op ["+"; "-"; "*"; "/"; "%"; "^"]).
Proof.
  intros H. split.
  - exact (Get_tree_shape _ _ _ _ _ _ H).
  - apply GetPriority_positive.
Qed.

(** *** What the state says about the value *)

Lemma eval_step_Ok (p p' : Parser) : eval_step p p' -> m_State p' = Ok -> m_State p = Ok.
Proof.
  intros (_ & _ & _ & _ & [S|S]) H; [congruence|].
  rewrite H in S. destruct S as [S|[S|S]]; discriminate.
Qed.

(** On a tree of the parser's shape, a state that is [Ok] after
    [Evaluate] was [Ok] before, and the value is a determined one. *)
Lemma Evaluate_Ok_value rhs_first (e : Expression) : forall p : Parser,
  shape_ok e = true ->
  ensures (Evaluate rhs_first e p)
          (fun v p' => m_State p' = Ok -> is_Some v).
Proof.
  induction e as [tok args IH] using Expression_nested_ind. intros p Hs.
  cbn [Evaluate].
  destruct args as [|a0 [|a1 [|a2 args]]]; [| | |discriminate].
  - destruct (not_numeric tok).
    + apply ensures_bind, ensures_modify, ensures_ret. eauto.
    + destruct (ld_stold tok); [apply ensures_ret; eauto|exact I].
  - apply ensures_bind, ensures_get.
    destruct (FUNCTIONS p !! tok) as [h|]; [|exact I].
    apply ensures_bind. fold (Evaluate rhs_first a0).
    destruct (Evaluate rhs_first a0 p) as [[x p1]| | |]; try exact I.
    cbn [ensures]. apply ensures_bind, ensures_get.
    destruct x; [apply ensures_ret; eauto|exact I].
  - apply ensures_bind, ensures_get.
    destruct (OPERATORS p !! tok) as [h|]; [|exact I].
    fold (Evaluate rhs_first a0). fold (Evaluate rhs_first a1).
    destruct rhs_first.
    + apply ensures_bind.
      destruct (Evaluate true a1 p) as [[y p1]| | |]; try exact I.
      cbn [ensures]. apply ensures_bind.
      destruct (Evaluate true a0 p1) as [[x p2]| | |]; try exact I.
      cbn [ensures]. unfold apply_binary.
      destruct x as [x|], y as [y|]; try exact I.
      destruct (h x y); [apply ensures_ret; eauto|exact I].
    + apply ensures_bind.
      destruct (Evaluate false a0 p) as [[x p1]| | |]; try exact I.
      cbn [ensures]. apply ensures_bind.
      destruct (Evaluate false a1 p1) as [[y p2]| | |]; try exact I.
      cbn [ensures]. unfold apply_binary.
      destruct x as [x|], y as [y|]; try exact I.
      destruct (h x y); [apply ensures_ret; eauto|exact I].
Qed.

(** X3: when [Get] returns and the state is [Ok], the value returned is a
    determined one (no call of [Evaluate] ended without a [return]), and
    the state was still [Ok] when parsing ended. *)
Theorem Get_Ok_value rhs_first fuel text radians (p : Parser) v p1 :
  Get rhs_first fuel text radians p = Done (v, p1) ->
  m_State p1 = Ok ->
  is_Some v /\
  exists e pa, Get_tree fuel text radians p = Done (e, pa) /\ m_State pa = Ok.
Proof.
  intros H Hok. apply Get_inv in H as (e & pa & pb & Hp & He & ->).
  cbn [m_State set_Input] in Hok.
  assert (Ht : Get_tree fuel text radians p = Done (e, pa)) by exact Hp.
  pose proof (Evaluate_step rhs_first e pa) as Se.
  pose proof (Evaluate_Ok_value rhs_first e pa (Get_tree_shape _ _ _ _ _ _ Ht)) as V.
  rewrite He in Se, V. cbn [ensures] in Se, V.
  split; [now apply V|]. exists e, pa. split; [exact Ht|].
  now apply (eval_step_Ok _ _ Se).
Qed.

(** The state [Evaluate] leaves is [UnknownBinaryOperator] only if it was
    so before, when every node with two arguments has a handler. *)
Lemma Evaluate_never_binary rhs_first (e : Expression) : forall p : Parser,
  shape_ok e = true -> has_operators p ->
  ensures (Evaluate rhs_first e p)
          (fun _ p' => m_State p' = UnknownBinaryOperator ->
                       m_State p = UnknownBinaryOperator).
Proof.
  induction e as [tok args IH] using Expression_nested_ind. intros p Hs Ho.
  assert (Hreg : forall q : Parser, eval_step p q -> has_operators q).
  { intros q (( _ & _ & _ & E) & _) op Hop. rewrite E. now apply Ho. }
  cbn [Evaluate].
  destruct args as [|a0 [|a1 [|a2 args]]]; [| | |discriminate].
  - destruct (not_numeric tok).
    + apply ensures_bind, ensures_modify, ensures_ret. discriminate.
    + destruct (ld_stold tok); [apply ensures_ret; eauto|exact I].
  - apply Forall_cons in IH as [IH0 _]. cbn [shape_ok] in Hs.
    apply ensures_bind, ensures_get.
    destruct (FUNCTIONS p !! tok) as [h|].
    + apply ensures_bind. fold (Evaluate rhs_first a0).
      eapply ensures_mono; [apply IH0; assumption|]. cbv beta. intros x p1 H1.
      apply ensures_bind, ensures_get.
      destruct x; [apply ensures_ret; exact H1|exact I].
    + exact I.
  - apply Forall_cons in IH as [IH0 IH]. apply Forall_cons in IH as [IH1 _].
    cbn [shape_ok] in Hs. apply andb_prop in Hs as [Hs Hs1].
    apply andb_prop in Hs as [Hp Hs0]. apply Z.ltb_lt in Hp.
    apply ensures_bind, ensures_get.
    destruct (Ho tok Hp) as [h ->].
    fold (Evaluate rhs_first a0). fold (Evaluate rhs_first a1).
    destruct rhs_first.
    * apply ensures_bind.
      pose proof (Evaluate_step true a1 p) as St1.
      pose proof (IH1 p Hs1 Ho) as V1.
      destruct (Evaluate true a1 p) as [[y p1]| | |]; try exact I.
      cbn [ensures] in *. apply ensures_bind.
      pose proof (IH0 p1 Hs0 (Hreg _ St1)) as V0.
      destruct (Evaluate true a0 p1) as [[x p2]| | |]; try exact I.
      cbn [ensures] in *.
      eapply ensures_mono; [apply apply_binary_step|].
      cbv beta. intros r p3 ->. auto.
    * apply ensures_bind.
      pose proof (Evaluate_step false a0 p) as St0.
      pose proof (IH0 p Hs0 Ho) as V0.
      destruct (Evaluate false a0 p) as [[x p1]| | |]; try exact I.
      cbn [ensures] in *. apply ensures_bind.
      pose proof (IH1 p1 Hs1 (Hreg _ St0)) as V1.
      destruct (Evaluate false a1 p1) as [[y p2]| | |]; try exact I.
      cbn [ensures] in *.
      eapply ensures_mono; [apply apply_binary_step|].
      cbv beta. intros r p3 ->. auto.
Qed.



Lemma has_operators_AddOperator text handler (p : Parser) :
  has_operators p -> has_operators (AddOperator text handler p).
Proof.
  intros Ho op Hop. destruct (Ho op Hop) as [h Hh].
  cbn [OPERATORS AddOperator]. unfold map_insert_new.
  destruct (OPERATORS p !! text) as [old|] eqn:E; [eauto|].
  destruct (decide (text = op)) as [->|Hne]; [congruence|].
  rewrite lookup_insert_ne by exact Hne. eauto.
Qed.

End GetProperties.

(** ** Numerals and letter case *)

Section Numerals.

Context {LD : LongDouble}.

Lemma isdigit_not_space c : isdigit c = true -> isspace c = false.
Proof.
  unfold isdigit, isspace. intros H. apply andb_prop in H as [H1 H2].
  apply Z.leb_le in H1. apply Z.leb_le in H2.
  apply orb_false_intro; [apply Z.eqb_neq; lia|].
  apply andb_false_intro2. apply Z.leb_gt. lia.
Qed.

Lemma isdigit_not_NUL c : isdigit c = true -> ascii_eqb c NUL = false.
Proof.
  intros H. unfold ascii_eqb. destruct (Ascii.eqb_spec c NUL) as [->|]; [discriminate|reflexivity].
Qed.

Lemma digit_or_point_not_alpha c : digit_or_point c = true -> isalpha c = false.
Proof.
  unfold digit_or_point, ascii_eqb. intros H. apply orb_prop in H as [H|H].
  - unfold isdigit in H. unfold isalpha, isupper, islower.
    apply andb_prop in H as [H1 H2]. apply Z.leb_le in H1. apply Z.leb_le in H2.
    apply orb_false_intro; apply andb_false_intro1; apply Z.leb_gt; lia.
  - apply Ascii.eqb_eq in H. now subst.
Qed.

Lemma lowercase_numeral s :
  string_forallb digit_or_point s = true -> lowercase s = s.
Proof.
  unfold lowercase. induction s as [|c s IH]; [reflexivity|]. simpl. intros H.
  apply andb_prop in H as [Hc Hs].
  now rewrite (digit_or_point_not_alpha c Hc), (IH Hs).
Qed.

Lemma push_back_append tok c r : (push_back tok c ++ r = tok ++ String c r)%string.
Proof.
  induction tok as [|a tok IH]; [reflexivity|].
  change (String a (push_back tok c ++ r) = String a (tok ++ String c r))%string.
  now rewrite IH.
Qed.

Lemma append_empty_r s : (s ++ "" = s)%string.
Proof.
  induction s as [|a s IH]; [reflexivity|].
  change (String a (s ++ "") = String a s)%string. now rewrite IH.
Qed.

(** [read_number] takes a run of digits and points that reaches the end
    of the buffer whole. *)
Lemma read_number_to_end r : forall n tok (p : Parser) i,
  m_Input p = Some i ->
  0 <= i <= size (input p) ->
  string_drop (Z.to_nat i) (input p) = r ->
  string_forallb digit_or_point r = true ->
  (String.length r < n)%nat ->
  read_number n tok p =
  Done ((tok ++ r)%string, set_Input (Some (size (input p))) p).
Proof.
  induction r as [|c r IH]; intros n tok p i Hp Hi Hr Hs Hn;
    (destruct n as [|n]; [simpl in Hn; lia|]);
    cbn [read_number]; unfold bind, peek; rewrite Hp, (read_string_drop _ _ Hi), Hr.
  - change (isdigit NUL || ascii_eqb NUL ".") with false. unfold ret.
    pose proof (string_drop_length (Z.to_nat i) (input p)) as Hl.
    rewrite Hr in Hl. simpl in Hl.
    replace (size (input p)) with i by (unfold size in *; lia).
    now rewrite set_Input_same, append_empty_r.
  - simpl in Hs. apply andb_prop in Hs as [Hc Hs].
    unfold digit_or_point in Hc. rewrite Hc.
    unfold advance. rewrite Hp.
    pose proof (string_drop_length (Z.to_nat i) (input p)) as Hl.
    rewrite Hr in Hl. simpl in Hl.
    rewrite (IH n (push_back tok c) (set_Input (Some (i + 1)) p) (i + 1));
      [now rewrite push_back_append|reflexivity|simpl; unfold size in *; lia|
       |exact Hs|simpl in Hn; lia].
    simpl. replace (Z.to_nat (i + 1)) with (S (Z.to_nat i)) by lia.
    now apply string_drop_S with c.
Qed.

Lemma peek_at (p : Parser) i c :
  m_Input p = Some i -> read (input p) i = Some c -> peek p = Done (c, p).
Proof. intros Hp Hr. unfold peek. now rewrite Hp, Hr. Qed.

Lemma skip_spaces_none n (p : Parser) c :
  peek p = Done (c, p) -> isspace c = false -> skip_spaces (S n) p = Done (tt, p).
Proof. intros Hp Hc. cbn [skip_spaces]. unfold bind. now rewrite Hp, Hc. Qed.

(** A numeral that reaches the end of the buffer is one token. *)
Lemma ParseToken_numeral (p : Parser) i r :
  m_Input p = Some i ->
  0 <= i <= size (input p) ->
  string_drop (Z.to_nat i) (input p) = r ->
  numeric_token r = true ->
  ParseToken "" p = Done ((true, r), set_Input (Some (size (input p))) p).
Proof.
  intros Hp Hi Hr Hn. unfold numeric_token in Hn.
  apply andb_prop in Hn as [Hn He]. apply andb_prop in Hn as [Hd Hf].
  apply negb_true_iff in He.
  assert (Hc : exists c, peek p = Done (c, p) /\ isdigit c = true).
  { destruct r as [|c s]; [discriminate|]. exists c.
    split; [|exact Hd]. apply (peek_at p i); [exact Hp|].
    now rewrite (read_string_drop _ _ Hi), Hr. }
  destruct Hc as (c & Hpk & Hc).
  assert (Hlen : (String.length r < S (String.length (input p)))%nat).
  { rewrite <- Hr, string_drop_length. clear. lia. }
  unfold ParseToken, bind, get.
  rewrite (skip_spaces_none _ p c Hpk (isdigit_not_space c Hc)).
  rewrite Hpk, (isdigit_not_NUL c Hc), Hc.
  rewrite (read_number_to_end r _ "" p i Hp Hi Hr Hf Hlen).
  change ("" ++ r)%string with r. now rewrite He.
Qed.

(** X6: a text that begins with a digit, holds only digits and points and
    does not end with a point is read as one number, whatever the tables
    hold: the tree is the single leaf, the cursor stops at the end of the
    text, and [Get] returns what [std::stold] makes of the whole text with
    state [Ok] - or the exception of [std::stold] leaves [Get]. *)
Theorem Get_numeral rhs_first (p : Parser) text radians :
  numeric_token text = true ->
  (exists p1, parses p text radians (Expression0 text) p1 /\
              m_Input p1 = Some (size text) /\ m_State p1 = Ok) /\
  match ld_stold text with
  | Some v => returns rhs_first p text radians (Some v) Ok
  | None => forall fuel, (2 <= fuel)%nat ->
                         Get rhs_first fuel text radians p = Thrown
  end.
Proof.
  intros Hn.
  assert (Hf : string_forallb digit_or_point text = true).
  { unfold numeric_token in Hn. apply andb_prop in Hn as [Hn' _].
    now apply andb_prop in Hn' as [_ Hn']. }
  set (p0 := Get_begin text radians p).
  assert (Hin : input p0 = text) by (apply lowercase_numeral, Hf).
  set (p1 := set_Input (Some (size text)) p0).
  set (p2 := set_Input (Some (size text + - size "")) p1).
  assert (Ht : Get_tree 2 text radians p = Done (Expression0 text, p2)).
  { unfold Get_tree, bind at 1, modify. fold p0.
    rewrite ParseBinaryExpression_S. unfold bind at 1.
    cbn [ParseSimpleExpression]. unfold bind at 1.
    rewrite (ParseToken_numeral p0 0 text eq_refl)
      by (try (unfold size; lia); rewrite ?Hin; auto).
    rewrite Hin. fold p1. unfold bind at 1, get, IsOk.
    cbn [m_State p1 set_Input p0 Get_begin State_eqb negb].
    unfold ret at 1.
    assert (He : at_end p1 = true).
    { unfold p1. rewrite <- Hin. apply at_end_after. }
    rewrite (BinaryLoop_S _ _ _ _ false "" (set_Input (Some (size (input p1))) p1))
      by (apply ParseToken_at_end, He).
    change (GetPriority "" <=? 0) with true. cbv iota.
    unfold bind, advance, ret. cbn [m_Input set_Input input p1].
    now rewrite Hin. }
  split.
  - exists p2. split; [exact (parses_computed _ _ _ _ _ _ Ht)|].
    split; [|reflexivity]. cbn [m_Input p2 set_Input]. f_equal.
    change (size "") with 0. lia.
  - destruct (ld_stold text) as [v|] eqn:Hs.
    + apply (returns_from rhs_first 2 _ _ _ _ _ _ _ _ Ht
               (evaluates_leaf rhs_first text _ v (numeric_token_passes _ Hn) Hs)).
      reflexivity.
    + intros fuel Hle.
      rewrite (Get_after_tree _ _ _ _ _ _ _ (Get_tree_fuel _ _ _ _ _ _ Hle Ht)).
      unfold bind. cbn [Evaluate Expression0].
      now rewrite (numeric_token_passes _ Hn), Hs.
Qed.

(** *** Letter case *)

Lemma lowercase_char_idempotent c :
  let f := fun c => if isalpha c then tolower c else c in f (f c) = f c.
Proof.
  destruct c as [b0 b1 b2 b3 b4 b5 b6 b7].
  destruct b0, b1, b2, b3, b4, b5, b6, b7; reflexivity.
Qed.

Lemma lowercase_idempotent s : lowercase (lowercase s) = lowercase s.
Proof.
  unfold lowercase. induction s as [|c s IH]; [reflexivity|].
  cbn [string_map]. rewrite IH. f_equal. apply lowercase_char_idempotent.
Qed.

Lemma lowercase_upper_lower c : isupper c = true -> islower (tolower c) = true.
Proof.
  destruct c as [b0 b1 b2 b3 b4 b5 b6 b7].
  destruct b0, b1, b2, b3, b4, b5, b6, b7; try discriminate; reflexivity.
Qed.

(** X7: [Get] does not see the case of letters: the call on a text and the
    call on the text in lower case are the same computation, and lower
    case leaves no upper-case letter. *)
Theorem Get_ignores_case rhs_first fuel text radians (p : Parser) :
  Get rhs_first fuel (lowercase text) radians p = Get rhs_first fuel text radians p /\
  string_existsb isupper (lowercase text) = false.
Proof.
  split.
  - unfold Get, bind, modify, Get_begin. now rewrite lowercase_idempotent.
  - unfold lowercase. induction text as [|c s IH]; [reflexivity|].
    cbn [string_map string_existsb]. rewrite IH, orb_false_r.
    clear. destruct c as [b0 b1 b2 b3 b4 b5 b6 b7].
    destruct b0, b1, b2, b3, b4, b5, b6, b7; reflexivity.
Qed.

End Numerals.

(** ** Registration *)

Section Registration.

Context {LD : LongDouble}.

Lemma map_insert_new_lookup {V} (m : gmap string V) k v :
  map_insert_new k v m !! k = Some (default v (m !! k)).
Proof.
  unfold map_insert_new. destruct (m !! k) as [old|] eqn:E; simpl.
  - exact E.
  - apply lookup_insert_eq.
Qed.

Lemma map_insert_new_other {V} (m : gmap string V) k v k' :
  k <> k' -> map_insert_new k v m !! k' = m !! k'.
Proof.
  intros Hne. unfold map_insert_new. destruct (m !! k); [reflexivity|].
  now apply lookup_insert_ne.
Qed.

(** X8: the three registration functions bind a symbol only if it has no
    binding in their table yet - the first handler or value registered
    stays - and leave every other symbol and the other tables alone. *)
Theorem registration_keeps_first_binding (p : Parser) text :
  (forall handler,
     OPERATORS (AddOperator text handler p) !! text =
       Some (default (fun a b => Some (handler a b)) (OPERATORS p !! text)) /\
     (forall k, text <> k ->
        OPERATORS (AddOperator text handler p) !! k = OPERATORS p !! k) /\
     FUNCTIONS (AddOperator text handler p) = FUNCTIONS p /\
     CONSTANTS (AddOperator text handler p) = CONSTANTS p) /\
  (forall handler,
     FUNCTIONS (AddFunction text handler p) !! text =
       Some (default (fun _ => handler) (FUNCTIONS p !! text)) /\
     (forall k, text <> k ->
        FUNCTIONS (AddFunction text handler p) !! k = FUNCTIONS p !! k) /\
     OPERATORS (AddFunction text handler p) = OPERATORS p /\
     CONSTANTS (AddFunction text handler p) = CONSTANTS p) /\
  (forall value,
     CONSTANTS (AddConstant text value p) !! text =
       Some (default (ld_to_string value) (CONSTANTS p !! text)) /\
     (forall k, text <> k ->
        CONSTANTS (AddConstant text value p) !! k = CONSTANTS p !! k) /\
     FUNCTIONS (AddConstant text value p) = FUNCTIONS p /\
     OPERATORS (AddConstant text value p) = OPERATORS p /\
     TOKENS (AddConstant text value p) = TOKENS p).
Proof.
  repeat split; intros;
    cbn [OPERATORS FUNCTIONS CONSTANTS AddOperator AddFunction AddConstant];
    first [apply map_insert_new_lookup|now apply map_insert_new_other].
Qed.

(** *** The token list *)

Lemma insert_before_longer_sublist text l :
  sublist l (insert_before_longer text l).
Proof.
  induction l as [|t l IH]; [constructor|]. cbn [insert_before_longer].
  destruct (size text <? size t).
  - apply sublist_cons. now apply sublist_skip.
  - now apply sublist_skip.
Qed.

Lemma insert_before_longer_elem text l t :
  t ∈ insert_before_longer text l -> t = text \/ t ∈ l.
Proof.
  induction l as [|a l IH]; cbn [insert_before_longer]; [intros H; now right|].
  destruct (size text <? size a); rewrite ?elem_of_cons; intros H.
  - destruct H as [->|[->|H]]; [now left|right; left; reflexivity|].
    destruct (IH H) as [->|H']; [now left|right; now right].
  - destruct H as [->|H]; [right; now left|].
    destruct (IH H) as [->|H']; [now left|right; now right].
Qed.

Lemma insert_before_longer_none text l :
  Forall (fun t => size t <= size text) l -> insert_before_longer text l = l.
Proof.
  induction 1 as [|t l Ht _ IH]; [reflexivity|]. cbn [insert_before_longer].
  destruct (size text <? size t) eqn:E; [apply Z.ltb_lt in E; lia|].
  now rewrite IH.
Qed.

Lemma insert_before_longer_app text l1 l2 :
  insert_before_longer text (l1 ++ l2)%list =
  (insert_before_longer text l1 ++ insert_before_longer text l2)%list.
Proof.
  induction l1 as [|t l1 IH]; [reflexivity|].
  cbn [insert_before_longer app]. rewrite IH.
  now destruct (size text <? size t).
Qed.

Lemma AddFunction_TOKENS text handler (p : Parser) :
  TOKENS (AddFunction text handler p) =
  (insert_before_longer text (TOKENS p) ++ [text])%list.
Proof.
  cbn [TOKENS AddFunction]. rewrite insert_before_longer_app.
  cbn [insert_before_longer]. now rewrite Z.ltb_irrefl.
Qed.

Lemma registration_tokens_last text handler (p : Parser) :
  exists older, rev (TOKENS (AddFunction text handler p)) = text :: older.
Proof. rewrite AddFunction_TOKENS, rev_app_distr. simpl. eauto. Qed.

(** X9: registration keeps the tokens there were, in their order, and adds
    copies of the new symbol only; [AddOperator] adds none when no token
    is longer than the symbol, so that [TOKENS] is left as it was;
    [AddFunction] puts the symbol last, where the tokenizer looks first. *)
Theorem registration_tokens (p : Parser) text :
  (forall handler,
     sublist (TOKENS p) (TOKENS (AddOperator text handler p)) /\
     (forall t, t ∈ TOKENS (AddOperator text handler p) -> t = text \/ t ∈ TOKENS p) /\
     (Forall (fun t => size t <= size text) (TOKENS p) ->
      TOKENS (AddOperator text handler p) = TOKENS p)) /\
  (forall handler,
     sublist (TOKENS p) (TOKENS (AddFunction text handler p)) /\
     (forall t, t ∈ TOKENS (AddFunction text handler p) -> t = text \/ t ∈ TOKENS p) /\
     exists rest, rev (TOKENS (AddFunction text handler p)) = text :: rest).
Proof.
  split; intros handler.
  - cbn [TOKENS AddOperator]. split; [apply insert_before_longer_sublist|].
    split; [intros t; apply insert_before_longer_elem|].
    apply insert_before_longer_none.
  - rewrite AddFunction_TOKENS. split; [|split].
    + apply sublist_inserts_r, insert_before_longer_sublist.
    + intros t Ht. apply elem_of_app in Ht as [Ht|Ht].
      * now apply insert_before_longer_elem.
      * left. now apply list_elem_of_singleton in Ht.
    + rewrite rev_app_distr. simpl. eauto.
Qed.

End Registration.

(** ** The tokenizer inside the buffer *)

Section TokenizerBounds.

Context {LD : LongDouble}.

Lemma read_in_bounds buf i :
  0 <= i <= size buf ->
  exists c, read buf i = Some c /\ (c <> NUL -> i < size buf).
Proof.
  intros Hi. rewrite (read_string_drop _ _ Hi).
  pose proof (string_drop_length (Z.to_nat i) buf) as Hl.
  destruct (string_drop (Z.to_nat i) buf) as [|c r]; eexists; (split; [reflexivity|]).
  - congruence.
  - intros _. simpl in Hl. unfold size in *. lia.
Qed.

Lemma isspace_not_NUL c : isspace c = true -> c <> NUL.
Proof. intros H ->. discriminate. Qed.

Lemma digit_or_point_not_NUL c : digit_or_point c = true -> c <> NUL.
Proof. intros H ->. discriminate. Qed.

Lemma size_push_back tok c : size (push_back tok c) = size tok + 1.
Proof.
  unfold size. induction tok as [|a tok IH]; simpl String.length; [reflexivity|lia].
Qed.

Lemma in_bounds_set_Input (p : Parser) i :
  0 <= i <= size (input p) -> in_bounds (set_Input (Some i) p) i.
Proof. now split. Qed.

(** The white-space loop ends inside the buffer. *)
Lemma skip_spaces_total n : forall (p : Parser) i,
  in_bounds p i ->
  (Z.to_nat (size (input p) - i) < n)%nat ->
  exists i', skip_spaces n p = Done (tt, set_Input (Some i') p) /\
             i <= i' <= size (input p).
Proof.
  induction n as [|n IH]; intros p i [Hp Hi] Hn; [lia|].
  destruct (read_in_bounds _ _ Hi) as (c & Hr & Hc).
  cbn [skip_spaces]. unfold bind. rewrite (peek_at p i c Hp Hr).
  destruct (isspace c) eqn:Es.
  - specialize (Hc (isspace_not_NUL c Es)).
    unfold advance. rewrite Hp.
    destruct (IH (set_Input (Some (i + 1)) p) (i + 1)) as (i' & H' & Hb).
    + apply in_bounds_set_Input. lia.
    + cbn [input set_Input]. lia.
    + exists i'. split; [exact H'|cbn [input set_Input] in Hb; lia].
  - exists i. split; [now rewrite set_Input_same|lia].
Qed.

(** The number loop ends inside the buffer, and the token grows by what
    the cursor advances. *)
Lemma read_number_total n : forall tok (p : Parser) i,
  in_bounds p i ->
  (Z.to_nat (size (input p) - i) < n)%nat ->
  exists i' tok', read_number n tok p = Done (tok', set_Input (Some i') p) /\
                  i <= i' <= size (input p) /\
                  size tok' = size tok + (i' - i).
Proof.
  induction n as [|n IH]; intros tok p i [Hp Hi] Hn; [lia|].
  destruct (read_in_bounds _ _ Hi) as (c & Hr & Hc).
  cbn [read_number]. unfold bind. rewrite (peek_at p i c Hp Hr).
  fold (digit_or_point c). destruct (digit_or_point c) eqn:Ed.
  - specialize (Hc (digit_or_point_not_NUL c Ed)).
    unfold advance. rewrite Hp.
    destruct (IH (push_back tok c) (set_Input (Some (i + 1)) p) (i + 1))
      as (i' & tok' & H' & Hb & Hs).
    + apply in_bounds_set_Input. lia.
    + cbn [input set_Input]. lia.
    + exists i', tok'. split; [exact H'|]. cbn [input set_Input] in Hb.
      rewrite size_push_back in Hs. lia.
  - exists i, tok. split; [now rewrite set_Input_same|lia].
Qed.

(** [strncmp] stops at the terminating NUL at the latest, and a token
    without NUL that matches lies inside the buffer. *)
Lemma strncmp_eq_total buf t : forall i,
  0 <= i <= size buf ->
  exists b, strncmp_eq buf i t = Some b /\
            (b = true -> nul_free t = true -> i + size t <= size buf).
Proof.
  induction t as [|c t IH]; intros i Hi.
  - exists true. split; [reflexivity|]. intros _ _. change (size "") with 0. lia.
  - destruct (read_in_bounds _ _ Hi) as (x & Hr & Hx).
    cbn [strncmp_eq]. rewrite Hr. unfold ascii_eqb.
    destruct (Ascii.eqb_spec x c) as [->|Hne]; [|exists false; split; [reflexivity|discriminate]].
    destruct (Ascii.eqb_spec c NUL) as [->|Hnul].
    + exists true. split; [reflexivity|]. intros _ Hf. discriminate Hf.
    + specialize (Hx Hnul).
      destruct (IH (i + 1) ltac:(lia)) as (b & Hb & Hbound).
      exists b. split; [exact Hb|]. intros Hbt Hf.
      assert (Hf' : nul_free t = true).
      { unfold nul_free in *. cbn [string_existsb] in Hf.
        apply negb_true_iff in Hf. apply orb_false_elim in Hf as [_ Hf].
        now rewrite Hf. }
      specialize (Hbound Hbt Hf').
      unfold size in *. cbn [String.length]. lia.
Qed.

Lemma match_tokens_total ts : forall (p : Parser) i,
  in_bounds p i ->
  Forall (fun t => nul_free t = true) ts ->
  exists b tok p' i',
    match_tokens ts "" p = Done ((b, tok), p') /\
    in_bounds p' i' /\ input p' = input p /\ i <= i' /\
    (if b
     then exists t, t ∈ ts /\ CONSTANTS p !! t = Some tok /\
                    strncmp_eq (input p) i t = Some true
     else i' = i + size tok).
Proof.
  induction ts as [|t ts IH]; intros p i [Hp Hi] Hts; cbn [match_tokens].
  - exists false, "", (set_State InvalidSyntax p), i.
    split; [reflexivity|]. split; [now split|]. split; [reflexivity|].
    split; [lia|]. change (size "") with 0. lia.
  - apply Forall_cons in Hts as [Ht Hts].
    destruct (strncmp_eq_total (input p) t i Hi) as (b & Hb & Hbound).
    unfold bind at 1. unfold strncmp_here. rewrite Hp, Hb.
    destruct b.
    2:{ destruct (IH p i (conj Hp Hi) Hts) as (b & tok & p' & i' & Hm & Hb' & Hin & Hle & Hres).
        exists b, tok, p', i'. repeat (split; [assumption|]).
        destruct b; [|exact Hres].
        destruct Hres as (k & Hk & Hc & Hs). exists k.
        split; [now apply list_elem_of_further|now split]. }
    specialize (Hbound eq_refl Ht).
    unfold bind, advance, get, ret. rewrite Hp. cbn [CONSTANTS set_Input].
    assert (Hs : 0 <= size t) by (unfold size; lia).
    assert (Hb' : in_bounds (set_Input (Some (i + size t)) p) (i + size t))
      by (apply in_bounds_set_Input; lia).
    destruct (CONSTANTS p !! t) as [text|] eqn:E.
    + exists true, text, (set_Input (Some (i + size t)) p), (i + size t).
      split; [reflexivity|]. split; [exact Hb'|]. split; [reflexivity|].
      split; [lia|]. exists t. split; [apply list_elem_of_here|now split].
    + exists false, t, (set_Input (Some (i + size t)) p), (i + size t).
      split; [reflexivity|]. split; [exact Hb'|]. split; [reflexivity|].
      split; [lia|reflexivity].
Qed.

(** [ParseToken] returns inside the buffer; the token it hands back is as
    long as the cursor has advanced at least, unless it is the text of a
    constant whose name is in the buffer. *)
Lemma ParseToken_bounds (p : Parser) i :
  in_bounds p i ->
  tokens_nul_free p ->
  exists b tok p' i',
    ParseToken "" p = Done ((b, tok), p') /\
    in_bounds p' i' /\ input p' = input p /\ i <= i' /\
    (i <= i' - size tok \/
     exists t j, t ∈ TOKENS p /\ CONSTANTS p !! t = Some tok /\
                 i <= j <= size (input p) /\
                 strncmp_eq (input p) j t = Some true).
Proof.
  intros [Hp Hi] Hts.
  destruct (skip_spaces_total (S (String.length (input p))) p i (conj Hp Hi))
    as (i1 & Hskip & Hi1); [unfold size; lia|].
  set (p1 := set_Input (Some i1) p) in *.
  assert (Hb1 : in_bounds p1 i1) by (apply in_bounds_set_Input; lia).
  destruct (read_in_bounds (input p1) i1 (proj2 Hb1)) as (c & Hr & Hc).
  pose proof (peek_at p1 i1 c eq_refl Hr) as Hpk.
  unfold ParseToken, bind at 1, get. unfold bind at 1. rewrite Hskip.
  unfold bind at 1. rewrite Hpk.
  destruct (ascii_eqb c NUL).
  { exists false, "", p1, i1.
    split; [reflexivity|]. split; [exact Hb1|]. split; [reflexivity|].
    split; [lia|]. left. change (size "") with 0. lia. }
  destruct (isdigit c).
  - destruct (read_number_total (S (String.length (input p))) "" p1 i1 Hb1)
      as (i2 & tok & Hread & Hi2 & Hsz); [cbn [input p1 set_Input]; unfold size; lia|].
    unfold bind at 1. rewrite Hread.
    change (size "") with 0 in Hsz. cbn [input p1 set_Input] in Hi2.
    destruct (ends_with_point tok).
    + exists true, tok, (set_State InvalidSyntax (set_Input (Some i2) p1)), i2.
      split; [reflexivity|].
      split; [split; [reflexivity|change (0 <= i2 <= size (input p)); lia]|].
      split; [reflexivity|]. split; [lia|]. left. lia.
    + exists true, tok, (set_Input (Some i2) p1), i2.
      split; [reflexivity|].
      split; [split; [reflexivity|change (0 <= i2 <= size (input p)); lia]|].
      split; [reflexivity|]. split; [lia|]. left. lia.
  - unfold bind at 1, get.
    destruct (match_tokens_total (rev (TOKENS p1)) p1 i1 Hb1)
      as (b & tok & p2 & i2 & Hm & Hb2 & Hin & Hle & Hres).
    { apply Forall_rev. exact Hts. }
    rewrite Hm. exists b, tok, p2, i2.
    split; [reflexivity|]. split; [exact Hb2|]. split; [exact Hin|].
    split; [lia|].
    destruct b; [|left; lia]. right.
    destruct Hres as (t & Ht & Hct & Hst). exists t, i1.
    split; [|split; [exact Hct|split; [cbn [input p1 set_Input] in *; lia|exact Hst]]].
    apply list_elem_of_In. apply in_rev. now apply list_elem_of_In.
Qed.

(** X10: from a cursor inside the buffer, with tokens that hold no NUL,
    [ParseToken] always returns; the cursor has not moved back and is
    still inside the buffer; and taking the length of the token off the
    cursor, as [ParseBinaryExpression] does to put a token back, gives a
    position that is not before the one [ParseToken] started from -
    unless the token is the text of a constant. *)
Theorem ParseToken_stays_in_buffer (p : Parser) i :
  in_bounds p i ->
  tokens_nul_free p ->
  exists b tok p' i',
    ParseToken "" p = Done ((b, tok), p') /\
    in_bounds p' i' /\ input p' = input p /\ i <= i' /\
    (i <= i' - size tok \/ exists k, CONSTANTS p !! k = Some tok).
Proof.
  intros Hb Hts.
  destruct (ParseToken_bounds p i Hb Hts)
    as (b & tok & p' & i' & Ht & Hb' & Hin & Hle & Hres).
  exists b, tok, p', i'. repeat (split; [assumption|]).
  destruct Hres as [Hres|(t & j & _ & Hc & _)]; [now left|right; now exists t].
Qed.

End TokenizerBounds.

(** ** A registered function in use *)

Section RegisteredFunction.

Context {LD : LongDouble}.

Lemma string_drop_app s r : string_drop (String.length s) (s ++ r)%string = r.
Proof. induction s as [|a s IH]; [now destruct r|exact IH]. Qed.

Lemma string_length_app s r :
  String.length (s ++ r)%string = (String.length s + String.length r)%nat.
Proof.
  induction s as [|a s IH]; [reflexivity|].
  change (S (String.length (s ++ r)%string) = S (String.length s + String.length r)).
  now rewrite IH.
Qed.

Lemma lowercase_app s r : lowercase (s ++ r)%string = (lowercase s ++ lowercase r)%string.
Proof.
  unfold lowercase. induction s as [|a s IH]; [reflexivity|].
  change (String (if isalpha a then tolower a else a)
            (string_map (fun c => if isalpha c then tolower c else c) (s ++ r)%string) =
          String (if isalpha a then tolower a else a)
            (string_map (fun c => if isalpha c then tolower c else c) s ++
             string_map (fun c => if isalpha c then tolower c else c) r)%string).
  now rewrite IH.
Qed.

(** [strncmp] finds a token without NUL that the buffer holds at the
    cursor. *)
Lemma strncmp_eq_prefix t : forall buf i rest,
  0 <= i ->
  string_drop (Z.to_nat i) buf = (t ++ rest)%string ->
  nul_free t = true ->
  strncmp_eq buf i t = Some true.
Proof.
  induction t as [|c t IH]; intros buf i rest Hi Hd Hf; [reflexivity|].
  change (String c t ++ rest)%string with (String c (t ++ rest)%string) in Hd.
  pose proof (string_drop_length (Z.to_nat i) buf) as Hl.
  rewrite Hd in Hl. cbn [String.length] in Hl.
  assert (Hb : 0 <= i <= size buf) by (unfold size; lia).
  cbn [strncmp_eq]. rewrite (read_string_drop _ _ Hb), Hd.
  unfold nul_free in Hf. cbn [string_existsb] in Hf.
  apply negb_true_iff in Hf. apply orb_false_elim in Hf as [Hc Hf].
  unfold ascii_eqb in *. rewrite Ascii.eqb_refl, Hc.
  apply (IH buf (i + 1) rest); [lia| |apply negb_true_iff; exact Hf].
  replace (Z.to_nat (i + 1)) with (S (Z.to_nat i)) by lia.
  now apply string_drop_S with c.
Qed.

(** The token at the end of [TOKENS] is the first one compared: when the
    buffer holds it at the cursor, it is the token read. *)
Lemma ParseToken_last_token (p : Parser) i text rest older c :
  m_Input p = Some i -> 0 <= i ->
  string_drop (Z.to_nat i) (input p) = (text ++ rest)%string ->
  rev (TOKENS p) = text :: older ->
  starts_with text c -> isspace c = false -> isdigit c = false -> c <> NUL ->
  nul_free text = true ->
  ParseToken "" p =
  Done (match CONSTANTS p !! text with
        | Some value => (true, value)
        | None => (false, text)
        end, set_Input (Some (i + size text)) p).
Proof.
  intros Hp Hi Hd Hrev Hc Hsp Hdg Hnul Hf.
  destruct text as [|c' text']; [contradiction|]. cbn [starts_with] in Hc. subst c'.
  pose proof (string_drop_length (Z.to_nat i) (input p)) as Hl.
  rewrite Hd in Hl.
  change (String c text' ++ rest)%string with (String c (text' ++ rest)%string) in Hl, Hd.
  cbn [String.length] in Hl.
  assert (Hb : 0 <= i <= size (input p)) by (unfold size; lia).
  assert (Hpk : peek p = Done (c, p)).
  { apply (peek_at p i); [exact Hp|]. now rewrite (read_string_drop _ _ Hb), Hd. }
  unfold ParseToken, bind, get.
  rewrite (skip_spaces_none _ p c Hpk Hsp), Hpk, Hdg.
  unfold ascii_eqb. destruct (Ascii.eqb_spec c NUL) as [E|_]; [contradiction|].
  rewrite Hrev. cbn [match_tokens]. unfold bind, strncmp_here.
  rewrite Hp, (strncmp_eq_prefix (String c text') _ _ rest Hi Hd Hf).
  unfold advance, get, ret. rewrite Hp. cbn [CONSTANTS set_Input].
  now destruct (CONSTANTS p !! String c text').
Qed.

(** X11: a function registered under a new lower-case symbol is usable at
    once: the symbol followed by a numeral evaluates to the handler
    applied to the number, with state [Ok]. *)
Theorem AddFunction_applies_handler rhs_first (p : Parser) text handler c num v radians :
  starts_with text c -> isspace c = false -> isdigit c = false -> c <> NUL ->
  nul_free text = true -> lowercase text = text -> text <> "(" ->
  CONSTANTS p !! text = None -> FUNCTIONS p !! text = None ->
  numeric_token num = true -> ld_stold num = Some v ->
  returns rhs_first (AddFunction text handler p) (text ++ num)%string radians
          (Some (handler v)) Ok.
Proof.
  intros Hc Hsp Hdg Hnul Hf Hlow Hpar Hconst Hfun Hn Hs.
  assert (Hfp : string_forallb digit_or_point num = true).
  { unfold numeric_token in Hn. apply andb_prop in Hn as [Hn' _].
    now apply andb_prop in Hn' as [_ Hn']. }
  set (q := AddFunction text handler p).
  set (p0 := Get_begin (text ++ num)%string radians q).
  assert (Hin : input p0 = (text ++ num)%string).
  { cbn [input p0 Get_begin]. now rewrite lowercase_app, Hlow, lowercase_numeral. }
  assert (Hsz : size (input p0) = size text + size num).
  { rewrite Hin. unfold size. rewrite string_length_app. lia. }
  set (p1 := set_Input (Some (0 + size text)) p0).
  set (p2 := set_Input (Some (size (input p1))) p1).
  set (p3 := set_Input (Some (size (input p2))) p2).
  set (e := Expression1 text (Expression0 num)).
  assert (Ht : Get_tree 3 (text ++ num)%string radians q =
               Done (e, set_Input (Some (size (input p2) + - size "")) p3)).
  { unfold Get_tree, bind at 1, modify. fold p0.
    rewrite ParseBinaryExpression_S. unfold bind at 1.
    cbn [ParseSimpleExpression]. unfold bind at 1.
    destruct (registration_tokens_last text handler p) as [older Hrev].
    rewrite (ParseToken_last_token p0 0 text num older c eq_refl ltac:(lia));
      [|now rewrite Hin|exact Hrev|assumption..].
    change (CONSTANTS p0 !! text) with (CONSTANTS p !! text). rewrite Hconst.
    fold p1. unfold bind at 1, get, IsOk.
    cbn [m_State p1 set_Input p0 Get_begin State_eqb negb].
    destruct (String.eqb_spec text "(") as [E|_]; [contradiction|].
    unfold bind at 1. unfold bind at 1.
    rewrite (ParseToken_numeral p1 (0 + size text) num eq_refl);
      [|cbn [input p1 set_Input]; unfold size in *; lia| |exact Hn].
    2:{ cbn [input p1 set_Input]. rewrite Hin. unfold size. rewrite Z.add_0_l, Nat2Z.id.
        apply string_drop_app. }
    fold p2. unfold bind at 1, get, IsOk.
    cbn [m_State p2 p1 set_Input p0 Get_begin State_eqb negb].
    unfold ret at 1. unfold ret at 1. fold e.
    rewrite (BinaryLoop_S _ _ _ _ false "" p3)
      by (apply ParseToken_at_end, at_end_after).
    change (GetPriority "" <=? 0) with true. cbv iota.
    reflexivity. }
  apply (returns_from rhs_first 3 _ _ _ e _ (Some (handler v))
                      (set_Input (Some (size (input p2) + - size "")) p3) Ok Ht);
    [|reflexivity].
  apply (evaluates_unary rhs_first text (Expression0 num) _ (fun _ => handler) v).
  - cbn [FUNCTIONS set_Input p3 p2 p1 p0 Get_begin q AddFunction].
    unfold map_insert_new. rewrite Hfun. apply lookup_insert_eq.
  - apply evaluates_leaf; [now apply numeric_token_passes|exact Hs].
  - reflexivity.
Qed.

End RegisteredFunction.

(** ** Two numerals and an operator *)

Section BinaryOperation.

Context {LD : LongDouble}.

Lemma set_Input_twice (p : Parser) i j :
  set_Input i (set_Input j p) = set_Input i p.
Proof. reflexivity. Qed.

(** [read_number] takes a run of digits and points up to the character
    that ends it. *)
Lemma read_number_until r : forall n tok (p : Parser) i c rest,
  m_Input p = Some i -> 0 <= i ->
  string_drop (Z.to_nat i) (input p) = (r ++ String c rest)%string ->
  string_forallb digit_or_point r = true ->
  digit_or_point c = false ->
  (String.length r < n)%nat ->
  read_number n tok p = Done ((tok ++ r)%string, set_Input (Some (i + size r)) p).
Proof.
  induction r as [|a r IH]; intros n tok p i c rest Hp Hi Hd Hf Hc Hn;
    (destruct n as [|n]; [simpl in Hn; lia|]);
    pose proof (string_drop_length (Z.to_nat i) (input p)) as Hl;
    rewrite Hd in Hl.
  - change ("" ++ String c rest)%string with (String c rest) in Hl, Hd.
    cbn [String.length] in Hl.
    assert (Hb : 0 <= i <= size (input p)) by (unfold size; lia).
    cbn [read_number]. unfold bind, peek. rewrite Hp, (read_string_drop _ _ Hb), Hd.
    unfold digit_or_point in Hc. rewrite Hc. unfold ret.
    change (size "") with 0. rewrite Z.add_0_r, set_Input_same by exact Hp.
    now rewrite append_empty_r.
  - change (String a r ++ String c rest)%string
      with (String a (r ++ String c rest)%string) in Hl, Hd.
    cbn [String.length] in Hl.
    assert (Hb : 0 <= i <= size (input p)) by (unfold size; lia).
    cbn [read_number]. unfold bind, peek. rewrite Hp, (read_string_drop _ _ Hb), Hd.
    cbn [string_forallb] in Hf. apply andb_prop in Hf as [Ha Hf].
    unfold digit_or_point in Ha. rewrite Ha.
    unfold advance. rewrite Hp.
    rewrite (IH n (push_back tok a) (set_Input (Some (i + 1)) p) (i + 1) c rest);
      [|reflexivity|lia| |exact Hf|exact Hc|simpl in Hn; lia].
    + rewrite push_back_append, set_Input_twice.
      replace (i + 1 + size r) with (i + size (String a r));
        [reflexivity|unfold size; cbn [String.length]; lia].
    + cbn [input set_Input].
      replace (Z.to_nat (i + 1)) with (S (Z.to_nat i)) by lia.
      now apply string_drop_S with a.
Qed.

(** A numeral followed by a character that is neither a digit nor a
    point is one token, and the cursor stops on that character. *)
Lemma ParseToken_numeral_then (p : Parser) i r c rest :
  m_Input p = Some i -> 0 <= i ->
  string_drop (Z.to_nat i) (input p) = (r ++ String c rest)%string ->
  numeric_token r = true ->
  digit_or_point c = false ->
  ParseToken "" p = Done ((true, r), set_Input (Some (i + size r)) p).
Proof.
  intros Hp Hi Hd Hn Hc. unfold numeric_token in Hn.
  apply andb_prop in Hn as [Hn He]. apply andb_prop in Hn as [Hdg Hf].
  apply negb_true_iff in He.
  pose proof (string_drop_length (Z.to_nat i) (input p)) as Hl.
  rewrite Hd, string_length_app in Hl. cbn [String.length] in Hl.
  assert (Hb : 0 <= i <= size (input p)) by (unfold size; lia).
  assert (Hk : exists a, peek p = Done (a, p) /\ isdigit a = true).
  { destruct r as [|a s]; [discriminate|]. exists a.
    split; [|exact Hdg]. apply (peek_at p i); [exact Hp|].
    now rewrite (read_string_drop _ _ Hb), Hd. }
  destruct Hk as (a & Hpk & Ha).
  unfold ParseToken, bind, get.
  rewrite (skip_spaces_none _ p a Hpk (isdigit_not_space a Ha)).
  rewrite Hpk, (isdigit_not_NUL a Ha), Ha.
  rewrite (read_number_until r _ "" p i c rest Hp Hi Hd Hf Hc) by lia.
  change ("" ++ r)%string with r. now rewrite He.
Qed.

(** A token is passed over when its first character is not the one under
    the cursor. *)
Lemma match_tokens_one_char pre : forall (p : Parser) i c post tok,
  m_Input p = Some i ->
  read (input p) i = Some c -> c <> NUL ->
  Forall (fun t => exists a t', t = String a t' /\ a <> c) pre ->
  match_tokens (pre ++ String c "" :: post)%list tok p =
  Done (match CONSTANTS p !! String c "" with
        | Some value => (true, value)
        | None => (false, String c "")
        end, set_Input (Some (i + 1)) p).
Proof.
  induction pre as [|t pre IH]; intros p i c post tok Hp Hr Hnul Hpre.
  - cbn [app match_tokens]. unfold bind, strncmp_here. rewrite Hp.
    cbn [strncmp_eq]. rewrite Hr. unfold ascii_eqb. rewrite Ascii.eqb_refl.
    destruct (Ascii.eqb_spec c NUL) as [E|_]; [contradiction|].
    unfold advance, get, ret. rewrite Hp. cbn [CONSTANTS set_Input].
    change (size (String c "")) with 1.
    now destruct (CONSTANTS p !! String c "").
  - apply Forall_cons in Hpre as [(a & t' & -> & Ha) Hpre].
    cbn [app match_tokens]. unfold bind at 1. unfold strncmp_here. rewrite Hp.
    cbn [strncmp_eq]. rewrite Hr. unfold ascii_eqb.
    destruct (Ascii.eqb_spec c a) as [E|_]; [congruence|].
    now apply IH.
Qed.

Lemma ParseToken_one_char (p : Parser) i c rest pre post :
  m_Input p = Some i -> 0 <= i ->
  string_drop (Z.to_nat i) (input p) = String c rest ->
  isspace c = false -> isdigit c = false -> c <> NUL ->
  rev (TOKENS p) = (pre ++ String c "" :: post)%list ->
  Forall (fun t => exists a t', t = String a t' /\ a <> c) pre ->
  ParseToken "" p =
  Done (match CONSTANTS p !! String c "" with
        | Some value => (true, value)
        | None => (false, String c "")
        end, set_Input (Some (i + 1)) p).
Proof.
  intros Hp Hi Hd Hsp Hdg Hnul Hrev Hpre.
  pose proof (string_drop_length (Z.to_nat i) (input p)) as Hl.
  rewrite Hd in Hl. cbn [String.length] in Hl.
  assert (Hb : 0 <= i <= size (input p)) by (unfold size; lia).
  assert (Hr : read (input p) i = Some c) by now rewrite (read_string_drop _ _ Hb), Hd.
  pose proof (peek_at p i c Hp Hr) as Hpk.
  unfold ParseToken, bind, get.
  rewrite (skip_spaces_none _ p c Hpk Hsp), Hpk, Hdg.
  unfold ascii_eqb. destruct (Ascii.eqb_spec c NUL) as [E|_]; [contradiction|].
  rewrite Hrev. now apply match_tokens_one_char.
Qed.

Lemma ParseSimpleExpression_number fuel (p : Parser) tok p' :
  ParseToken "" p = Done ((true, tok), p') -> m_State p' = Ok ->
  ParseSimpleExpression (S fuel) p = Done (Expression0 tok, p').
Proof.
  intros H Hs. cbn [ParseSimpleExpression]. unfold bind, get, IsOk.
  now rewrite H, Hs.
Qed.

Lemma priority_char c :
  0 < GetPriority (String c "") ->
  isspace c = false /\ isdigit c = false /\ c <> NUL /\
  digit_or_point c = false /\ isalpha c = false.
Proof.
  unfold GetPriority.
  repeat match goal with
         | |- context [String.eqb (String c "") ?s] =>
             destruct (String.eqb_spec (String c "") s) as [E|_];
               [injection E as ->; intros _; repeat split; discriminate|]
         end.
  lia.
Qed.

(** The tree and the value for a numeral, a one-character operator and a
    numeral, for any tables in which that operator is the first token to
    match its character. *)
Lemma Get_operation rhs_first (p : Parser) a c b x y h r pre post radians :
  numeric_token a = true -> numeric_token b = true ->
  ld_stold a = Some x -> ld_stold b = Some y ->
  0 < GetPriority (String c "") ->
  rev (TOKENS p) = (pre ++ String c "" :: post)%list ->
  Forall (fun t => exists a t', t = String a t' /\ a <> c) pre ->
  CONSTANTS p !! String c "" = None ->
  OPERATORS p !! String c "" = Some h -> h x y = Some r ->
  (exists p1, parses p (a ++ String c b)%string radians
                (Expression2 (String c "") (Expression0 a) (Expression0 b)) p1) /\
  returns rhs_first p (a ++ String c b)%string radians (Some r) Ok.
Proof.
  intros Ha Hb Hx Hy Hprio Hrev Hpre Hconst Hop Hr.
  destruct (priority_char c Hprio) as (Hsp & Hdg & Hnul & Hdp & Halpha).
  assert (Hfa : string_forallb digit_or_point a = true).
  { unfold numeric_token in Ha. apply andb_prop in Ha as [Ha' _].
    now apply andb_prop in Ha' as [_ Ha']. }
  assert (Hfb : string_forallb digit_or_point b = true).
  { unfold numeric_token in Hb. apply andb_prop in Hb as [Hb' _].
    now apply andb_prop in Hb' as [_ Hb']. }
  set (text := (a ++ String c b)%string).
  set (p0 := Get_begin text radians p).
  assert (Hin : input p0 = text).
  { cbn [input p0 Get_begin]. unfold text. rewrite lowercase_app.
    rewrite (lowercase_numeral a Hfa). f_equal.
    unfold lowercase. cbn [string_map]. rewrite Halpha. f_equal.
    apply (lowercase_numeral b Hfb). }
  assert (Hlen : size text = size a + 1 + size b).
  { unfold text, size. rewrite string_length_app. cbn [String.length]. lia. }
  assert (Hsa : 0 <= size a) by (unfold size; lia).
  assert (Hsb : 0 <= size b) by (unfold size; lia).
  set (op := String c "").
  set (p1 := set_Input (Some (0 + size a)) p0).
  set (p2 := set_Input (Some (0 + size a + 1)) p1).
  set (p3 := set_Input (Some (size (input p2))) p2).
  set (p4 := set_Input (Some (size (input p3))) p3).
  set (p5 := set_Input (Some (size (input p3) + - size "")) p4).
  set (p6 := set_Input (Some (size (input p5))) p5).
  set (p7 := set_Input (Some (size (input p5) + - size "")) p6).
  set (e := Expression2 op (Expression0 a) (Expression0 b)).
  assert (T1 : ParseToken "" p0 = Done ((true, a), p1)).
  { apply (ParseToken_numeral_then p0 0 a c b); auto; try lia; now rewrite Hin. }
  assert (D2 : string_drop (Z.to_nat (0 + size a)) (input p1) = String c b).
  { cbn [input p1 set_Input]. rewrite Hin. unfold size. rewrite Z.add_0_l, Nat2Z.id.
    apply string_drop_app. }
  assert (T2 : ParseToken "" p1 = Done ((false, op), p2)).
  { rewrite (ParseToken_one_char p1 (0 + size a) c b pre post eq_refl ltac:(lia) D2
               Hsp Hdg Hnul Hrev Hpre).
    change (CONSTANTS p1 !! String c "") with (CONSTANTS p !! String c "").
    now rewrite Hconst. }
  assert (T3 : ParseToken "" p2 = Done ((true, b), p3)).
  { apply (ParseToken_numeral p2 (0 + size a + 1) b eq_refl); auto.
    - cbn [input p2 p1 set_Input]. rewrite Hin. lia.
    - replace (Z.to_nat (0 + size a + 1)) with (S (Z.to_nat (0 + size a))) by lia.
      now apply string_drop_S with c. }
  assert (T4 : ParseToken "" p3 = Done ((false, ""), p4))
    by (apply ParseToken_at_end, at_end_after).
  assert (E5 : p5 = set_Input (Some (size (input p4))) p4).
  { unfold p5. change (size "") with 0. now rewrite Z.add_0_r. }
  assert (T5 : ParseToken "" p5 = Done ((false, ""), p6)).
  { apply ParseToken_at_end. rewrite E5. apply at_end_after. }
  assert (Ht : Get_tree 4 text radians p = Done (e, p7)).
  { unfold Get_tree, bind at 1, modify. fold p0.
    rewrite ParseBinaryExpression_S. unfold bind at 1.
    rewrite (ParseSimpleExpression_number _ _ _ _ T1 eq_refl).
    rewrite (BinaryLoop_S _ _ _ _ _ _ _ T2).
    fold op. destruct (GetPriority op <=? 0) eqn:E; [apply Z.leb_le in E; unfold op in E; lia|].
    unfold bind at 1. rewrite ParseBinaryExpression_S. unfold bind at 1.
    rewrite (ParseSimpleExpression_number _ _ _ _ T3 eq_refl).
    rewrite (BinaryLoop_S _ _ _ _ _ _ _ T4).
    destruct (GetPriority "" <=? GetPriority op) eqn:E';
      [|apply Z.leb_gt in E'; change (GetPriority "") with 0 in E'; unfold op in E'; lia].
    unfold bind at 1. unfold advance at 1. cbn [m_Input p4 set_Input]. fold p5.
    unfold ret at 1. fold e.
    rewrite (BinaryLoop_S _ _ _ _ _ _ _ T5).
    change (GetPriority "" <=? 0) with true. cbv iota.
    reflexivity. }
  split; [exists p7; exact (parses_computed _ _ _ _ _ _ Ht)|].
  apply (returns_from rhs_first 4 _ _ _ e p7 (Some r) p7 Ok Ht); [|reflexivity].
  apply (evaluates_binary rhs_first op (Expression0 a) (Expression0 b) p7 h x y r).
  - exact Hop.
  - apply evaluates_leaf; [now apply numeric_token_passes|exact Hx].
  - apply evaluates_leaf; [now apply numeric_token_passes|exact Hy].
  - exact Hr.
Qed.

Ltac first_token k :=
  eexists; exists (firstn k (rev TOKENS_init)), (skipn (S k) (rev TOKENS_init));
  split; [reflexivity|]; split; [reflexivity|]; split; [reflexivity|];
  cbn [rev TOKENS_init app firstn];
  repeat (constructor; [eexists _, _; split; [reflexivity|discriminate]|]);
  constructor.

(** On a freshly constructed parser each symbol with a priority is the
    first token to match its character, and it is no constant. *)
Lemma operator_first_token op :
  0 < GetPriority op ->
  exists c pre post,
    op = String c "" /\
    CONSTANTS Parser_new !! String c "" = None /\
    rev (TOKENS Parser_new) = (pre ++ String c "" :: post)%list /\
    Forall (fun t => exists a t', t = String a t' /\ a <> c) pre.
Proof.
  unfold GetPriority. intros Hprio.
  destruct (String.eqb_spec op "+") as [E|_]; [subst op; first_token 21%nat|].
  destruct (String.eqb_spec op "-") as [E|_]; [subst op; first_token 20%nat|].
  destruct (String.eqb_spec op "*") as [E|_]; [subst op; first_token 18%nat|].
  destruct (String.eqb_spec op "/") as [E|_]; [subst op; first_token 17%nat|].
  destruct (String.eqb_spec op "%") as [E|_]; [subst op; first_token 16%nat|].
  destruct (String.eqb_spec op "^") as [E|_]; [subst op; first_token 19%nat|].
  lia.
Qed.

(** X12: on a freshly constructed parser, a numeral, one of the six
    operator symbols and a numeral, written without spaces, parse to the
    node of that operator over the two leaves, and [Get] returns what the
    operator's handler gives on the two numbers, with state [Ok]. *)
Theorem Get_two_numerals rhs_first a op b x y h r radians :
  numeric_token a = true -> numeric_token b = true ->
  ld_stold a = Some x -> ld_stold b = Some y ->
  0 < GetPriority op ->
  OPERATORS Parser_new !! op = Some h -> h x y = Some r ->
  (exists p1, parses Parser_new (a ++ op ++ b)%string radians
                (Expression2 op (Expression0 a) (Expression0 b)) p1) /\
  returns rhs_first Parser_new (a ++ op ++ b)%string radians (Some r) Ok.
Proof.
  intros Ha Hb Hx Hy Hprio Hop Hr.
  destruct (operator_first_token op Hprio)
    as (c & pre & post & -> & Hconst & Hrev & Hpre).
  now apply (Get_operation rhs_first Parser_new a c b x y h r pre post radians).
Qed.

End BinaryOperation.

(** ** Further runs of [Get] *)

Section FurtherRuns.

Context {LD : LongDouble}.

(** X5: whatever [Get] returns, parsing ended in state [Ok] or
    [InvalidSyntax], and the final state is that one unless [Evaluate]
    replaced it by one of its own three failures. *)
Theorem failure_states_by_stage rhs_first fuel text radians (p : Parser) v p1 :
  Get rhs_first fuel text radians p = Done (v, p1) ->
  exists e pa,
    Get_tree fuel text radians p = Done (e, pa) /\
    (m_State pa = Ok \/ m_State pa = InvalidSyntax) /\
    (m_State p1 = m_State pa \/ evaluation_failure (m_State p1)).
Proof.
  intros H. apply Get_inv in H as (e & pa & pb & Hp & He & ->).
  exists e, pa. split; [exact Hp|].
  pose proof (proj1 (proj2 (parse_steps fuel)) 0 (Get_begin text radians p)) as Sp.
  rewrite Hp in Sp. cbn [ensures] in Sp.
  pose proof (Evaluate_step rhs_first e pa) as Se.
  rewrite He in Se. cbn [ensures] in Se.
  destruct Sp as (_ & _ & _ & Sp), Se as (_ & _ & _ & _ & Se).
  split; [exact Sp|exact Se].
Qed.

Lemma take_digits_all_digits s : forall acc v k,
  take_digits acc s = (v, k, EmptyString) -> string_forallb isdigit s = true.
Proof.
  induction s as [|c s IH]; intros acc v k H; [reflexivity|].
  cbn [take_digits] in H. destruct (isdigit c) eqn:Ec; [|discriminate].
  destruct (take_digits (10 * acc + digit_value c) s) as [[v' k'] rest] eqn:E.
  inversion H; subst. cbn [string_forallb]. now rewrite Ec, (IH _ _ _ E).
Qed.

Lemma back_all_digits s :
  string_forallb isdigit s = true -> ends_with_point s = false.
Proof.
  unfold ends_with_point. induction s as [|c s IH]; [reflexivity|].
  cbn [string_forallb]. intros H. apply andb_prop in H as [Hc Hs].
  destruct s as [|c' s'].
  - cbn [back]. unfold ascii_eqb.
    destruct (Ascii.eqb_spec c ".") as [->|]; [discriminate|reflexivity].
  - exact (IH Hs).
Qed.

(** A non-empty string of digits is the text of a number. *)
Lemma decimal_numeric_token s n : decimal s = Some n -> numeric_token s = true.
Proof.
  unfold decimal. intros H.
  destruct (take_digits 0 s) as [[v k] rest] eqn:E.
  destruct k as [|k]; [discriminate|]. destruct rest; [|discriminate].
  pose proof (take_digits_all_digits _ _ _ _ E) as Hd.
  unfold numeric_token. rewrite (back_all_digits _ Hd), andb_true_r.
  destruct s as [|c s]; [discriminate|].
  cbn [starts_with_digit string_forallb] in *.
  apply andb_prop in Hd as [Hc Hs]. rewrite Hc. cbn [andb].
  unfold digit_or_point. rewrite Hc. cbn [orb andb].
  clear -Hs. induction s as [|a s IH]; [reflexivity|].
  cbn [string_forallb] in *. apply andb_prop in Hs as [Ha Hs].
  now rewrite Ha, (IH Hs).
Qed.

(** X13: on a freshly constructed parser, for two decimal integers that
    the arithmetic represents, [Get] of their sum, difference or product,
    written without spaces, returns the integer result with state [Ok], as
    long as that result is representable too. *)
Theorem Get_integer_arithmetic `{!ExactArith LD} rhs_first s t m n radians :
  decimal s = Some m -> decimal t = Some n ->
  representable m -> representable n ->
  (representable (m + n) ->
   returns rhs_first Parser_new (s ++ "+" ++ t)%string radians (Some (ld_of_Z (m + n))) Ok) /\
  (representable (m - n) ->
   returns rhs_first Parser_new (s ++ "-" ++ t)%string radians (Some (ld_of_Z (m - n))) Ok) /\
  (representable (m * n) ->
   returns rhs_first Parser_new (s ++ "*" ++ t)%string radians (Some (ld_of_Z (m * n))) Ok).
Proof.
  intros Hs Ht Hm Hn.
  pose proof (decimal_numeric_token _ _ Hs) as Ns.
  pose proof (decimal_numeric_token _ _ Ht) as Nt.
  pose proof (stold_decimal _ _ Hs Hm) as Xs.
  pose proof (stold_decimal _ _ Ht Hn) as Xt.
  assert (G : forall op h r,
             0 < GetPriority op -> OPERATORS Parser_new !! op = Some h ->
             h (ld_of_Z m) (ld_of_Z n) = Some r ->
             returns rhs_first Parser_new (s ++ op ++ t)%string radians (Some r) Ok).
  { intros op h r Hprio Hop Hr.
    destruct (operator_first_token op Hprio)
      as (c & pre & post & -> & Hconst & Hrev & Hpre).
    exact (proj2 (Get_operation rhs_first Parser_new s c t (ld_of_Z m) (ld_of_Z n)
                   h r pre post radians Ns Nt Xs Xt Hprio Hrev Hpre Hconst Hop Hr)). }
  repeat split; intros Hr.
  - apply (G "+" (fun a b => Some (ld_add a b))); [reflexivity|reflexivity|].
    now rewrite add_exact.
  - apply (G "-" (fun a b => Some (ld_sub a b))); [reflexivity|reflexivity|].
    now rewrite sub_exact.
  - apply (G "*" (fun a b => Some (ld_mul a b))); [reflexivity|reflexivity|].
    now rewrite mul_exact.
Qed.

Lemma ParseSimpleExpression_prefix fuel (p : Parser) tok p' :
  ParseToken "" p = Done ((false, tok), p') -> m_State p' = Ok -> tok <> "(" ->
  ParseSimpleExpression (S fuel) p =
  bind (ParseSimpleExpression fuel) (fun rhs => ret (Expression1 tok rhs)) p'.
Proof.
  intros H Hs Hne. cbn [ParseSimpleExpression]. unfold bind at 1. rewrite H.
  unfold bind at 1, get, IsOk. rewrite Hs. cbn [State_eqb negb].
  now destruct (String.eqb_spec tok "(").
Qed.

(** X14: on a freshly constructed parser, a numeral followed by a closing
    parenthesis and any text at all evaluates like the numeral alone, with
    state [Ok]: what follows a complete expression is not looked at. *)
Theorem Get_ignores_what_follows rhs_first a x rest radians :
  numeric_token a = true -> ld_stold a = Some x ->
  returns rhs_first Parser_new (a ++ String ")" rest)%string radians (Some x) Ok.
Proof.
  intros Ha Hx.
  assert (Hfa : string_forallb digit_or_point a = true).
  { unfold numeric_token in Ha. apply andb_prop in Ha as [Ha' _].
    now apply andb_prop in Ha' as [_ Ha']. }
  set (text := (a ++ String ")" rest)%string).
  set (p0 := Get_begin text radians Parser_new).
  set (rest' := lowercase rest).
  assert (Hin : input p0 = (a ++ String ")" rest')%string).
  { cbn [input p0 Get_begin]. unfold text. rewrite lowercase_app.
    now rewrite (lowercase_numeral a Hfa). }
  assert (Hsa : 0 <= size a) by (unfold size; lia).
  set (p1 := set_Input (Some (0 + size a)) p0).
  set (p2 := set_Input (Some (0 + size a + 1)) p1).
  set (p3 := set_Input (Some (0 + size a + 1 + - size ")")) p2).
  assert (T1 : ParseToken "" p0 = Done ((true, a), p1)).
  { apply (ParseToken_numeral_then p0 0 a ")" rest'); auto; try lia; now rewrite Hin. }
  assert (D2 : string_drop (Z.to_nat (0 + size a)) (input p1) = String ")" rest').
  { cbn [input p1 set_Input]. rewrite Hin. unfold size. rewrite Z.add_0_l, Nat2Z.id.
    apply string_drop_app. }
  assert (T2 : ParseToken "" p1 = Done ((false, ")"), p2)).
  { apply (ParseToken_one_char p1 (0 + size a) ")" rest'
             (firstn 14 (rev TOKENS_init)) (skipn 15 (rev TOKENS_init)) eq_refl);
      auto; try lia; try discriminate.
    cbn [rev TOKENS_init app firstn].
    repeat (constructor; [eexists _, _; split; [reflexivity|discriminate]|]).
    constructor. }
  assert (Ht : Get_tree 2 text radians Parser_new = Done (Expression0 a, p3)).
  { unfold Get_tree, bind at 1, modify. fold p0.
    rewrite ParseBinaryExpression_S. unfold bind at 1.
    rewrite (ParseSimpleExpression_number _ _ _ _ T1 eq_refl).
    now rewrite (BinaryLoop_S _ _ _ _ _ _ _ T2). }
  apply (returns_from rhs_first 2 _ _ _ (Expression0 a) p3 (Some x) p3 Ok Ht);
    [|reflexivity].
  apply evaluates_leaf; [now apply numeric_token_passes|exact Hx].
Qed.


End FurtherRuns.

(** ** Parsing a text token by token

    [text] is a text that lower case leaves as it is; the object is the
    one [Get] sets up on a freshly constructed parser, with the cursor at
    offset [n]. *)

Section Script.

Context {LD : LongDouble}.

Variable text : string.
Variable radians : bool.
Hypothesis text_lower : lowercase text = text.

#[warnings="-notation-for-abbreviation"] Local Notation P n :=
  (parsed text radians (Z.of_nat n) Ok Parser_new).












(** *** The steps of the parser *)







(** *** Operands and operators *)






End Script.

(** ** Precedence, grouping and the remainder *)

Section Operators.

Context {LD : LongDouble}.

Ltac repr := unfold representable; simpl; lia.




Lemma undefined_binary rhs_first tok a0 a1 (p : Parser) h x y :
  OPERATORS p !! tok = Some h ->
  evaluates rhs_first a0 p x ->
  evaluates rhs_first a1 p y ->
  h x y = None ->
  Evaluate rhs_first (mkExpression tok [a0; a1]) p = Undefined.
Proof.
  unfold evaluates. intros Hh H0 H1 Hr. cbn [Evaluate].
  unfold bind, get, apply_binary. rewrite Hh.
  fold (Evaluate rhs_first a0). fold (Evaluate rhs_first a1).
  destruct rhs_first; rewrite ?H0, ?H1, ?H0, Hr; reflexivity.
Qed.

(** C6: [%] casts both operands to [long int], which drops their
    decimals, and takes the remainder of the two integers, which has the
    sign of the dividend: for all numerals [a] and [b] whose values the
    cast takes to [m] and [n], with [n] not 0, [Get] of [a%b] returns
    [m rem n] with state [Ok]. So ["5%2"] and ["5.5%2"] give 1, ["7%4"]
    and ["7.9%4"] give 3, ["7%2.5"] gives 1 and ["(0-7)%2"] gives -1;
    ["7%0.5"] divides by the integer 0, which is undefined. *)
Theorem modulo_truncates `{!ExactArith LD} (rhs_first : bool) :
  OPERATORS Parser_new !! "%" = Some long_mod /\
  (forall a b x y m n radians,
     numeric_token a = true -> numeric_token b = true ->
     ld_stold a = Some x -> ld_stold b = Some y ->
     ld_to_long x = Some m -> ld_to_long y = Some n ->
     n <> 0 -> (m = LONG_MIN -> n <> -1) ->
     returns rhs_first Parser_new (a ++ "%" ++ b) radians
             (Some (ld_of_Z (Z.rem m n))) Ok) /\
  returns rhs_first Parser_new "5%2" true (Some (ld_of_Z 1)) Ok /\
  returns rhs_first Parser_new "5.5%2" true (Some (ld_of_Z 1)) Ok /\
  returns rhs_first Parser_new "7%4" true (Some (ld_of_Z 3)) Ok /\
  returns rhs_first Parser_new "7.9%4" true (Some (ld_of_Z 3)) Ok /\
  returns rhs_first Parser_new "7%2.5" true (Some (ld_of_Z 1)) Ok /\
  returns rhs_first Parser_new "(0-7)%2" true (Some (ld_of_Z (-1))) Ok /\
  undefined rhs_first Parser_new "7%0.5" true.
Proof.
  split; [reflexivity|].
  assert (G : forall a b x y m n radians,
             numeric_token a = true -> numeric_token b = true ->
             ld_stold a = Some x -> ld_stold b = Some y ->
             ld_to_long x = Some m -> ld_to_long y = Some n ->
             n <> 0 -> (m = LONG_MIN -> n <> -1) ->
             returns rhs_first Parser_new (a ++ "%" ++ b) radians
                     (Some (ld_of_Z (Z.rem m n))) Ok).
  { intros a b x y m n radians Ha Hb Hx Hy Hm Hn Hn0 Hmin.
    destruct (operator_first_token "%" eq_refl)
      as (c & pre & post & E & Hconst & Hrev & Hpre).
    injection E as <-.
    refine (proj2 (Get_operation rhs_first Parser_new a "%" b x y long_mod
                     (ld_of_Z (Z.rem m n)) pre post radians
                     Ha Hb Hx Hy eq_refl Hrev Hpre Hconst eq_refl _)).
    unfold long_mod. rewrite Hm, Hn.
    destruct (Z.eqb_spec n 0) as [E0|_]; [contradiction|].
    destruct (Z.eqb_spec m LONG_MIN) as [E1|_]; [|reflexivity].
    destruct (Z.eqb_spec n (-1)) as [E2|_]; [|reflexivity].
    now destruct (Hmin E1). }
  split; [exact G|].
  assert (int : forall s n, decimal s = Some n -> - 2 ^ 31 <= n < 2 ^ 31 ->
                  ld_stold s = Some (ld_of_Z n) /\ ld_to_long (ld_of_Z n) = Some n).
  { intros s n Hd Hr. split; [apply stold_decimal; [exact Hd|repr]|].
    now apply to_long_of_Z. }
  assert (dec : forall ip fp n, decimal ip = Some n -> is_Some (decimal fp) ->
                  n < 2 ^ 31 -> (String.length fp <= 6)%nat ->
                  exists x, ld_stold (ip ++ "." ++ fp) = Some x /\ ld_to_long x = Some n)
    by exact stold_truncated.
  destruct (int "2" 2 eq_refl ltac:(lia)) as [S2 L2].
  destruct (int "4" 4 eq_refl ltac:(lia)) as [S4 L4].
  destruct (int "5" 5 eq_refl ltac:(lia)) as [S5 L5].
  destruct (int "7" 7 eq_refl ltac:(lia)) as [S7 L7].
  destruct (dec "5" "5" 5 eq_refl (mk_is_Some _ _ eq_refl) ltac:(lia) ltac:(simpl; lia))
    as (x55 & S55 & L55).
  destruct (dec "7" "9" 7 eq_refl (mk_is_Some _ _ eq_refl) ltac:(lia) ltac:(simpl; lia))
    as (x79 & S79 & L79).
  destruct (dec "2" "5" 2 eq_refl (mk_is_Some _ _ eq_refl) ltac:(lia) ltac:(simpl; lia))
    as (x25 & S25 & L25).
  destruct (dec "0" "5" 0 eq_refl (mk_is_Some _ _ eq_refl) ltac:(lia) ltac:(simpl; lia))
    as (x05 & S05 & L05).
  split; [exact (G "5" "2" _ _ 5 2 true eq_refl eq_refl S5 S2 L5 L2
                   ltac:(lia) ltac:(lia))|].
  split; [exact (G "5.5" "2" _ _ 5 2 true eq_refl eq_refl S55 S2 L55 L2
                   ltac:(lia) ltac:(lia))|].
  split; [exact (G "7" "4" _ _ 7 4 true eq_refl eq_refl S7 S4 L7 L4
                   ltac:(lia) ltac:(lia))|].
  split; [exact (G "7.9" "4" _ _ 7 4 true eq_refl eq_refl S79 S4 L79 L4
                   ltac:(lia) ltac:(lia))|].
  split; [exact (G "7" "2.5" _ _ 7 2 true eq_refl eq_refl S7 S25 L7 L25
                   ltac:(lia) ltac:(lia))|].
  split.
  - apply (returns_evaluates rhs_first 20 _ _ _
             (Expression2 "%"
                (Expression2 "-" (Expression0 "0") (Expression0 "7"))
                (Expression0 "2")) 7);
      [vm_compute; reflexivity|].
    eapply evaluates_binary; [reflexivity| | |].
    + eapply evaluates_binary; [reflexivity| | |reflexivity].
      * apply (stold_digit "0" 0); [reflexivity|repr|reflexivity].
      * apply (stold_digit "7" 7); [reflexivity|repr|reflexivity].
    + apply (stold_digit "2" 2); [reflexivity|repr|reflexivity].
    + rewrite sub_exact by repr. unfold long_mod.
      rewrite L2, (to_long_of_Z (0 - 7)) by lia.
      change (2 =? -1) with false. now rewrite andb_false_r.
  - apply (undefined_from rhs_first 20 _ _ _
             (Expression2 "%" (Expression0 "7") (Expression0 "0.5"))
             (parsed "7%0.5" true 5 Ok Parser_new));
      [vm_compute; reflexivity|].
    apply (undefined_binary rhs_first "%" _ _ _ long_mod (ld_of_Z 7) x05);
      [reflexivity| | |].
    + apply evaluates_leaf; [reflexivity|exact S7].
    + apply evaluates_leaf; [reflexivity|exact S05].
    + unfold long_mod. now rewrite L7, L05.
Qed.

End Operators.

(** ** Built-in functions and parentheses *)

Section BuiltinFunctions.

Context {LD : LongDouble}.

(** The loop over the tokens stops at the first token that [strncmp] finds
    at the cursor. *)
Lemma match_tokens_hit pre : forall (p : Parser) i t post tok,
  m_Input p = Some i ->
  Forall (fun u => strncmp_eq (input p) i u = Some false) pre ->
  strncmp_eq (input p) i t = Some true ->
  match_tokens (pre ++ t :: post)%list tok p =
  Done (match CONSTANTS p !! t with
        | Some value => (true, value)
        | None => (false, t)
        end, set_Input (Some (i + size t)) p).
Proof.
  induction pre as [|u pre IH]; intros p i t post tok Hp Hpre Ht.
  - cbn [app match_tokens]. unfold bind, strncmp_here. rewrite Hp, Ht.
    unfold advance, get, ret. rewrite Hp. cbn [CONSTANTS set_Input].
    now destruct (CONSTANTS p !! t).
  - apply Forall_cons in Hpre as [Hu Hpre].
    cbn [app match_tokens]. unfold bind at 1. unfold strncmp_here. rewrite Hp, Hu.
    now apply IH.
Qed.

Lemma ParseToken_token (p : Parser) i c rest t pre post :
  m_Input p = Some i -> 0 <= i ->
  string_drop (Z.to_nat i) (input p) = String c rest ->
  isspace c = false -> isdigit c = false -> c <> NUL ->
  rev (TOKENS p) = (pre ++ t :: post)%list ->
  Forall (fun u => strncmp_eq (input p) i u = Some false) pre ->
  strncmp_eq (input p) i t = Some true ->
  ParseToken "" p =
  Done (match CONSTANTS p !! t with
        | Some value => (true, value)
        | None => (false, t)
        end, set_Input (Some (i + size t)) p).
Proof.
  intros Hp Hi Hd Hsp Hdg Hnul Hrev Hpre Ht.
  pose proof (string_drop_length (Z.to_nat i) (input p)) as Hl.
  rewrite Hd in Hl. cbn [String.length] in Hl.
  assert (Hb : 0 <= i <= size (input p)) by (unfold size; lia).
  assert (Hr : read (input p) i = Some c) by now rewrite (read_string_drop _ _ Hb), Hd.
  pose proof (peek_at p i c Hp Hr) as Hpk.
  unfold ParseToken, bind, get.
  rewrite (skip_spaces_none _ p c Hpk Hsp), Hpk, Hdg.
  unfold ascii_eqb. destruct (Ascii.eqb_spec c NUL) as [E|_]; [contradiction|].
  rewrite Hrev. now apply match_tokens_hit.
Qed.

(** A symbol of [FUNCTIONS] that the tokenizer finds, followed by a
    numeral. *)
Lemma Get_prefix rhs_first (p : Parser) name c a x h pre post radians :
  starts_with name c -> isspace c = false -> isdigit c = false -> c <> NUL ->
  nul_free name = true -> lowercase name = name -> name <> "(" ->
  rev (TOKENS p) = (pre ++ name :: post)%list ->
  Forall (fun u => strncmp_eq (name ++ a) 0 u = Some false) pre ->
  CONSTANTS p !! name = None -> FUNCTIONS p !! name = Some h ->
  numeric_token a = true -> ld_stold a = Some x ->
  returns rhs_first p (name ++ a)%string radians (Some (h radians x)) Ok.
Proof.
  intros Hc Hsp Hdg Hnul Hf Hlow Hpar Hrev Hpre Hconst Hfun Hn Hs.
  assert (Hfp : string_forallb digit_or_point a = true).
  { unfold numeric_token in Hn. apply andb_prop in Hn as [Hn' _].
    now apply andb_prop in Hn' as [_ Hn']. }
  set (p0 := Get_begin (name ++ a)%string radians p).
  assert (Hin : input p0 = (name ++ a)%string).
  { cbn [input p0 Get_begin]. now rewrite lowercase_app, Hlow, lowercase_numeral. }
  assert (Hsz : size (input p0) = size name + size a).
  { rewrite Hin. unfold size. rewrite string_length_app. lia. }
  set (p1 := set_Input (Some (0 + size name)) p0).
  set (p2 := set_Input (Some (size (input p1))) p1).
  set (p3 := set_Input (Some (size (input p2))) p2).
  set (p4 := set_Input (Some (size (input p2) + - size "")) p3).
  assert (T1 : ParseToken "" p0 = Done ((false, name), p1)).
  { assert (E : exists name', name = String c name').
    { destruct name as [|c' name']; [contradiction|]. cbn [starts_with] in Hc.
      subst c'. eauto. }
    destruct E as [name' E].
    rewrite (ParseToken_token p0 0 c (name' ++ a)%string name pre post eq_refl);
      [|lia|now rewrite Hin, E|assumption..|exact Hrev|now rewrite Hin|].
    - change (CONSTANTS p0 !! name) with (CONSTANTS p !! name). now rewrite Hconst.
    - apply (strncmp_eq_prefix name _ _ a); [lia|now rewrite Hin|exact Hf]. }
  assert (T2 : ParseToken "" p1 = Done ((true, a), p2)).
  { apply (ParseToken_numeral p1 (0 + size name) a eq_refl); [| |exact Hn].
    - cbn [input p1 set_Input]. unfold size in *. lia.
    - cbn [input p1 set_Input]. rewrite Hin. unfold size. rewrite Z.add_0_l, Nat2Z.id.
      apply string_drop_app. }
  assert (T3 : ParseToken "" p2 = Done ((false, ""), p3))
    by (apply ParseToken_at_end, at_end_after).
  assert (Ht : Get_tree 3 (name ++ a)%string radians p =
               Done (Expression1 name (Expression0 a), p4)).
  { unfold Get_tree, bind at 1, modify. fold p0.
    rewrite ParseBinaryExpression_S. unfold bind at 1.
    rewrite (ParseSimpleExpression_prefix _ _ _ _ T1 eq_refl Hpar).
    unfold bind at 1.
    rewrite (ParseSimpleExpression_number _ _ _ _ T2 eq_refl).
    unfold ret at 1.
    now rewrite (BinaryLoop_S _ _ _ _ _ _ _ T3). }
  apply (returns_from rhs_first 3 _ _ _ _ p4 (Some (h radians x)) p4 Ok Ht);
    [|reflexivity].
  apply (evaluates_unary rhs_first name (Expression0 a) p4 h x);
    [exact Hfun| |reflexivity].
  apply evaluates_leaf; [now apply numeric_token_passes|exact Hs].
Qed.

Ltac builtin k :=
  eexists _, (firstn k (rev TOKENS_init)), (skipn (S k) (rev TOKENS_init));
  repeat split; try reflexivity; try discriminate;
  intros a; cbn [rev TOKENS_init app firstn];
  repeat (constructor; [reflexivity|]); constructor.

(** Each symbol of the built-in [FUNCTIONS] is a token, and no token
    compared before it is found in a text that begins with the symbol. *)
Lemma builtin_function_token name h :
  FUNCTIONS Parser_new !! name = Some h ->
  exists c pre post,
    starts_with name c /\ isspace c = false /\ isdigit c = false /\ c <> NUL /\
    nul_free name = true /\ lowercase name = name /\ name <> "(" /\
    rev (TOKENS Parser_new) = (pre ++ name :: post)%list /\
    CONSTANTS Parser_new !! name = None /\
    forall a, Forall (fun u => strncmp_eq (name ++ a) 0 u = Some false) pre.
Proof.
  cbn [FUNCTIONS Parser_new]. unfold FUNCTIONS_init. intros H.
  destruct (decide (name = "+")) as [->|N]; [builtin 21%nat|].
  rewrite lookup_insert_ne in H by congruence. clear N.
  destruct (decide (name = "-")) as [->|N]; [builtin 20%nat|].
  rewrite lookup_insert_ne in H by congruence. clear N.
  destruct (decide (name = "abs")) as [->|N]; [builtin 8%nat|].
  rewrite lookup_insert_ne in H by congruence. clear N.
  destruct (decide (name = "log2")) as [->|N]; [builtin 0%nat|].
  rewrite lookup_insert_ne in H by congruence. clear N.
  destruct (decide (name = "lg")) as [->|N]; [builtin 11%nat|].
  rewrite lookup_insert_ne in H by congruence. clear N.
  destruct (decide (name = "ln")) as [->|N]; [builtin 10%nat|].
  rewrite lookup_insert_ne in H by congruence. clear N.
  destruct (decide (name = "sin")) as [->|N]; [builtin 7%nat|].
  rewrite lookup_insert_ne in H by congruence. clear N.
  destruct (decide (name = "cos")) as [->|N]; [builtin 6%nat|].
  rewrite lookup_insert_ne in H by congruence. clear N.
  destruct (decide (name = "tan")) as [->|N]; [builtin 5%nat|].
  rewrite lookup_insert_ne in H by congruence. clear N.
  destruct (decide (name = "asin")) as [->|N]; [builtin 3%nat|].
  rewrite lookup_insert_ne in H by congruence. clear N.
  destruct (decide (name = "acos")) as [->|N]; [builtin 2%nat|].
  rewrite lookup_insert_ne in H by congruence. clear N.
  destruct (decide (name = "atan")) as [->|N]; [builtin 1%nat|].
  rewrite lookup_insert_ne in H by congruence. clear N.
  destruct (decide (name = "sqrt")) as [->|N]; [builtin 4%nat|].
  rewrite lookup_insert_ne in H by congruence. clear N.
  destruct (decide (name = "!")) as [->|N]; [builtin 13%nat|].
  rewrite lookup_insert_ne in H by congruence.
  rewrite lookup_empty in H. discriminate.
Qed.

(** X15: on a freshly constructed parser, each of the fourteen symbols of
    [FUNCTIONS], followed by a numeral, evaluates to the symbol's function
    applied to the number and to the angle mode given to [Get], with state
    [Ok]. *)
Theorem Get_function_of_numeral rhs_first name h a x radians :
  FUNCTIONS Parser_new !! name = Some h ->
  numeric_token a = true -> ld_stold a = Some x ->
  returns rhs_first Parser_new (name ++ a)%string radians (Some (h radians x)) Ok.
Proof.
  intros Hh Ha Hx.
  destruct (builtin_function_token name h Hh)
    as (c & pre & post & Hc & Hsp & Hdg & Hnul & Hf & Hlow & Hpar & Hrev & Hconst & Hpre).
  now apply (Get_prefix rhs_first Parser_new name c a x h pre post radians).
Qed.

End BuiltinFunctions.

(** ** Parentheses *)

Section Parentheses.

Context {LD : LongDouble}.

Ltac one_char_token k :=
  cbn [TOKENS Parser_new Get_begin set_Input];
  exists (firstn k (rev TOKENS_init)), (skipn (S k) (rev TOKENS_init));
  split; [reflexivity|];
  cbn [rev TOKENS_init app firstn];
  repeat (constructor; [eexists _, _; split; [reflexivity|discriminate]|]);
  constructor.

Lemma lowercase_parenthesised a :
  string_forallb digit_or_point a = true ->
  lowercase (String "(" (a ++ ")")) = String "(" (a ++ ")") /\
  lowercase (String "(" a) = String "(" a.
Proof.
  intros Ha. unfold lowercase. cbn [string_map]. fold (lowercase (a ++ ")")).
  fold (lowercase a). rewrite lowercase_app, (lowercase_numeral a Ha).
  split; reflexivity.
Qed.

(** X16: on a freshly constructed parser, a numeral between parentheses
    evaluates like the numeral alone, with state [Ok]; when the closing
    parenthesis is missing, [ParseSimpleExpression] sets [InvalidSyntax]
    and hands back the empty node, which [Evaluate] answers with 0 and
    [UnknownExpressionType]: that is the state the caller finds. *)
Theorem Get_parentheses rhs_first a x radians :
  numeric_token a = true -> ld_stold a = Some x ->
  returns rhs_first Parser_new (String "(" (a ++ ")")) radians (Some x) Ok /\
  (exists p1, parses Parser_new (String "(" a) radians Expression_default p1 /\
              m_State p1 = InvalidSyntax) /\
  returns rhs_first Parser_new (String "(" a) radians
          (Some (ld_of_Z 0)) UnknownExpressionType.
Proof.
  intros Ha Hx.
  assert (Hfa : string_forallb digit_or_point a = true).
  { unfold numeric_token in Ha. apply andb_prop in Ha as [Ha' _].
    now apply andb_prop in Ha' as [_ Ha']. }
  destruct (lowercase_parenthesised a Hfa) as [L1 L2].
  assert (Hsa : 0 <= size a) by (unfold size; lia).
  assert (closed : Get_tree 4 (String "(" (a ++ ")")) radians Parser_new =
                   Done (Expression0 a,
                         set_Input (Some (size a + 2))
                                   (Get_begin (String "(" (a ++ ")")) radians Parser_new))).
  { set (p0 := Get_begin (String "(" (a ++ ")")) radians Parser_new).
    assert (Hin : input p0 = String "(" (a ++ ")")) by exact L1.
    assert (Hsz : size (input p0) = size a + 2).
    { rewrite Hin. unfold size. cbn [String.length]. rewrite string_length_app.
      cbn [String.length]. lia. }
    assert (at_paren : forall (q : Parser),
               ParseToken "" (set_Input (Some (1 + size a)) p0) =
               Done ((false, ")"), set_Input (Some (1 + size a + 1)) p0)).
    { intros _.
      assert (R : exists pre post,
                 rev (TOKENS p0) = (pre ++ String ")" "" :: post)%list /\
                 Forall (fun t => exists c t', t = String c t' /\ c <> ")"%char) pre)
        by one_char_token 14%nat.
      destruct R as (pre & post & Hrev & Hpre).
      rewrite (ParseToken_one_char (set_Input (Some (1 + size a)) p0) (1 + size a)
                 ")" "" pre post eq_refl); try discriminate; auto; try lia.
      cbn [input set_Input]. rewrite Hin.
      replace (Z.to_nat (1 + size a)) with (S (String.length a))
        by (unfold size; lia).
      cbn [string_drop]. apply string_drop_app. }
    assert (T1 : ParseToken "" p0 = Done ((false, "("), set_Input (Some (0 + 1)) p0)).
    { assert (R : exists pre post,
                 rev (TOKENS p0) = (pre ++ String "(" "" :: post)%list /\
                 Forall (fun t => exists c t', t = String c t' /\ c <> "("%char) pre)
        by one_char_token 15%nat.
      destruct R as (pre & post & Hrev & Hpre).
      apply (ParseToken_one_char p0 0 "(" (a ++ ")") pre post eq_refl);
        try discriminate; auto; try lia. }
    assert (T2 : ParseToken "" (set_Input (Some (0 + 1)) p0) =
                 Done ((true, a), set_Input (Some (1 + size a)) p0)).
    { rewrite (ParseToken_numeral_then (set_Input (Some (0 + 1)) p0) (0 + 1) a ")" "");
        auto; try lia.
      cbn [input set_Input]. now rewrite Hin. }
    unfold Get_tree, bind at 1, modify. fold p0.
    rewrite ParseBinaryExpression_S. set (loop := BinaryLoop 3 0). unfold bind at 1.
    cbn [ParseSimpleExpression]. unfold bind at 1. rewrite T1.
    unfold bind at 1, get, IsOk.
    cbn [m_State set_Input p0 Get_begin State_eqb negb].
    change ("(" =? "(")%string with true. cbv iota.
    unfold bind at 1. fold p0. rewrite ParseBinaryExpression_S. unfold bind at 1.
    rewrite (ParseSimpleExpression_number _ _ _ _ T2 eq_refl).
    rewrite (BinaryLoop_S _ _ _ _ _ _ _ (at_paren p0)).
    change (GetPriority ")" <=? 0) with true. cbv iota.
    assert (back : bind (advance (- size ")")) (fun _ => ret (Expression0 a))
                     (set_Input (Some (1 + size a + 1)) p0) =
                   Done (Expression0 a, set_Input (Some (1 + size a)) p0)).
    { unfold bind, advance, ret. cbn [m_Input set_Input]. change (size ")") with 1.
      replace (1 + size a + 1 + - (1)) with (1 + size a) by lia. reflexivity. }
    rewrite back. unfold bind at 1. rewrite (at_paren p0).
    change (negb (")" =? ")")%string) with false. cbv iota.
    unfold ret at 1, loop.
    rewrite (BinaryLoop_S _ _ _ _ false ""
               (set_Input (Some (size (input p0))) p0)).
    - change (GetPriority "" <=? 0) with true. cbv iota.
      unfold bind, advance, ret. cbn [m_Input set_Input input].
      change (size "") with 0.
      replace (size (input p0) + - 0) with (size a + 2) by lia. reflexivity.
    - replace (1 + size a + 1) with (size (input p0)) by lia.
      apply (ParseToken_at_end "" (set_Input (Some (size (input p0))) p0)).
      apply at_end_after. }
  assert (open : Get_tree 4 (String "(" a) radians Parser_new =
                 Done (Expression_default,
                       set_State InvalidSyntax
                         (set_Input (Some (size a + 1))
                                    (Get_begin (String "(" a) radians Parser_new)))).
  { set (p0 := Get_begin (String "(" a) radians Parser_new).
    assert (Hin : input p0 = String "(" a) by exact L2.
    assert (Hsz : size (input p0) = size a + 1).
    { rewrite Hin. unfold size. cbn [String.length]. lia. }
    set (pe := set_Input (Some (size (input p0))) p0).
    assert (Te : forall tok, ParseToken tok pe = Done ((false, tok), pe)).
    { intros tok. rewrite (ParseToken_at_end tok pe) by apply at_end_after.
      reflexivity. }
    assert (T1 : ParseToken "" p0 = Done ((false, "("), set_Input (Some (0 + 1)) p0)).
    { assert (R : exists pre post,
                 rev (TOKENS p0) = (pre ++ String "(" "" :: post)%list /\
                 Forall (fun t => exists c t', t = String c t' /\ c <> "("%char) pre)
        by one_char_token 15%nat.
      destruct R as (pre & post & Hrev & Hpre).
      apply (ParseToken_one_char p0 0 "(" a pre post eq_refl);
        try discriminate; auto; try lia. }
    assert (T2 : ParseToken "" (set_Input (Some (0 + 1)) p0) = Done ((true, a), pe)).
    { rewrite (ParseToken_numeral (set_Input (Some (0 + 1)) p0) (0 + 1) a eq_refl);
        auto.
      - cbn [input set_Input]. lia.
      - cbn [input set_Input]. now rewrite Hin. }
    assert (back : advance (- size "") pe = Done (tt, pe)).
    { unfold advance, pe. cbn [m_Input set_Input]. change (size "") with 0.
      replace (size (input p0) + - 0) with (size (input p0)) by lia. reflexivity. }
    unfold Get_tree, bind at 1, modify. fold p0.
    rewrite ParseBinaryExpression_S. set (loop := BinaryLoop 3 0). unfold bind at 1.
    cbn [ParseSimpleExpression]. unfold bind at 1. rewrite T1.
    unfold bind at 1, get, IsOk.
    cbn [m_State set_Input p0 Get_begin State_eqb negb].
    change ("(" =? "(")%string with true. cbv iota.
    unfold bind at 1. fold p0. rewrite ParseBinaryExpression_S. unfold bind at 1.
    rewrite (ParseSimpleExpression_number _ _ _ _ T2 eq_refl).
    rewrite (BinaryLoop_S _ _ _ _ _ _ _ (Te "")).
    change (GetPriority "" <=? 0) with true. cbv iota.
    unfold bind at 1. rewrite back. unfold ret at 1.
    unfold bind at 1. rewrite (Te "").
    change (negb ("" =? ")")%string) with true. cbv iota.
    unfold bind at 1, modify, ret. unfold loop.
    assert (Te' : ParseToken "" (set_State InvalidSyntax pe) =
                  Done ((false, ""), set_State InvalidSyntax pe)).
    { rewrite (ParseToken_at_end "" (set_State InvalidSyntax pe))
        by apply (at_end_after p0).
      reflexivity. }
    rewrite (BinaryLoop_S _ _ _ _ _ _ _ Te').
    change (GetPriority "" <=? 0) with true. cbv iota.
    unfold bind, advance, ret. cbn [m_Input set_Input set_State pe].
    change (size "") with 0. unfold set_State, set_Input.
    cbn [m_State m_Input input m_Radians TOKENS CONSTANTS FUNCTIONS OPERATORS].
    do 3 f_equal. f_equal. lia. }
  split; [|split].
  - eapply (returns_from rhs_first 4);
      [exact closed
      |apply evaluates_leaf; [now apply numeric_token_passes|exact Hx]
      |reflexivity].
  - eexists. split; [exact (parses_computed _ _ _ _ _ _ open)|reflexivity].
  - apply (returns_from rhs_first 4 _ _ _ _ _ (Some (ld_of_Z 0))
             (set_State UnknownExpressionType
                (set_State InvalidSyntax
                   (set_Input (Some (size a + 1))
                      (Get_begin (String "(" a) radians Parser_new))))
             UnknownExpressionType open); reflexivity.
Qed.

End Parentheses.

(** ** A constant that is not a token *)

Section NewConstant.

Context {LD : LongDouble}.

Variable text : string.
Variable value : ld.

Lemma unaffected_ret {A} (a : A) : unaffected text value (ret a).
Proof. intros p Hp. split; [reflexivity|exact Hp]. Qed.

Lemma unaffected_bind {A B} (m : M A) (k : A -> M B) :
  unaffected text value m -> (forall a, unaffected text value (k a)) ->
  unaffected text value (bind m k).
Proof.
  intros Hm Hk p Hp. destruct (Hm p Hp) as [E I]. unfold bind. rewrite E.
  destruct (m p) as [[a p']| | |]; cbn [outcome_map ensures fst snd] in *;
    [now apply Hk| | |]; (split; [reflexivity|exact I]).
Qed.

Lemma unaffected_get {A} (g : Parser -> A) :
  (forall p, g (AddConstant text value p) = g p) -> unaffected text value (get g).
Proof. intros Hg p Hp. unfold get. rewrite Hg. split; [reflexivity|exact Hp]. Qed.

Lemma unaffected_modify (h : Parser -> Parser) :
  (forall p, h (AddConstant text value p) = AddConstant text value (h p)) ->
  (forall p, TOKENS (h p) = TOKENS p) ->
  unaffected text value (modify h).
Proof.
  intros Hh Ht p Hp. unfold modify. rewrite Hh.
  split; [reflexivity|]. cbn [ensures]. now rewrite Ht.
Qed.

Lemma unaffected_fail {A} (o : outcome (A * Parser)) :
  o = OutOfFuel \/ o = Undefined \/ o = Thrown ->
  unaffected text value (fail_with o).
Proof.
  intros [->|[->| ->]] p Hp; (split; [reflexivity|exact I]).
Qed.

Lemma unaffected_peek : unaffected text value peek.
Proof.
  intros p Hp. unfold peek. cbn [m_Input input AddConstant].
  destruct (m_Input p) as [i|]; [|split; [reflexivity|exact I]].
  destruct (read (input p) i); split; first [reflexivity|exact Hp|exact I].
Qed.

Lemma unaffected_advance n : unaffected text value (advance n).
Proof.
  intros p Hp. unfold advance. cbn [m_Input AddConstant].
  destruct (m_Input p) as [i|]; split; first [reflexivity|exact Hp|exact I].
Qed.

Lemma unaffected_strncmp t : unaffected text value (strncmp_here t).
Proof.
  intros p Hp. unfold strncmp_here. cbn [m_Input input AddConstant].
  destruct (m_Input p) as [i|]; [|split; [reflexivity|exact I]].
  destruct (strncmp_eq (input p) i t); split; first [reflexivity|exact Hp|exact I].
Qed.

Ltac unaffected_auto :=
  repeat first
    [ assumption
    | apply unaffected_ret
    | apply unaffected_peek
    | apply unaffected_advance
    | apply unaffected_fail; tauto
    | apply unaffected_get; reflexivity
    | apply unaffected_modify; reflexivity
    | apply unaffected_bind; [|intros ?]
    | match goal with
      | |- unaffected _ _ (let '(_, _) := ?r in _) => destruct r
      | |- unaffected _ _ (if ?b then _ else _) => destruct b
      | |- unaffected _ _ (match ?o with Some _ => _ | None => _ end) => destruct o
      | H : forall m, unaffected _ _ (ParseBinaryExpression ?f m)
        |- unaffected _ _ (ParseBinaryExpression ?f _) => apply H
      | H : forall m l, unaffected _ _ (BinaryLoop ?f m l)
        |- unaffected _ _ (BinaryLoop ?f _ _) => apply H
      end ].

Lemma unaffected_skip_spaces n : unaffected text value (skip_spaces n).
Proof. induction n as [|n IH]; cbn [skip_spaces]; unaffected_auto. Qed.

Lemma unaffected_read_number n : forall tok, unaffected text value (read_number n tok).
Proof.
  induction n as [|n IH]; intros tok; cbn [read_number]; unaffected_auto.
  apply IH.
Qed.

(** The tokenizer looks up the tokens only: a constant under another name
    is not seen. *)
Lemma unaffected_match_tokens ts : forall tok,
  text ∉ ts -> unaffected text value (match_tokens ts tok).
Proof.
  induction ts as [|t ts IH]; intros tok Hts; cbn [match_tokens].
  - unaffected_auto.
  - apply not_elem_of_cons in Hts as [Hne Hts].
    apply unaffected_bind; [apply unaffected_strncmp|intros [|]]; [|now apply IH].
    apply unaffected_bind; [apply unaffected_advance|intros _].
    intros p Hp. unfold bind, get, ret. cbn [CONSTANTS AddConstant].
    rewrite (map_insert_new_other _ _ _ _ Hne).
    destruct (CONSTANTS p !! t); (split; [reflexivity|exact Hp]).
Qed.

Lemma unaffected_ParseToken tok : unaffected text value (ParseToken tok).
Proof.
  unfold ParseToken.
  apply unaffected_bind; [unaffected_auto|intros n].
  apply unaffected_bind; [apply unaffected_skip_spaces|intros _].
  apply unaffected_bind; [apply unaffected_peek|intros c].
  destruct (ascii_eqb c NUL); [apply unaffected_ret|].
  destruct (isdigit c).
  - apply unaffected_bind; [apply unaffected_read_number|intros tok'].
    unaffected_auto.
  - intros p Hp. unfold bind, get. cbn [TOKENS AddConstant].
    apply unaffected_match_tokens; [|exact Hp].
    intros H. apply Hp. apply list_elem_of_In. apply in_rev.
    now apply list_elem_of_In.
Qed.

Lemma unaffected_parse (fuel : nat) :
  unaffected text value (ParseSimpleExpression fuel) /\
  (forall m, unaffected text value (ParseBinaryExpression fuel m)) /\
  (forall m lhs, unaffected text value (BinaryLoop fuel m lhs)).
Proof.
  induction fuel as [|fuel (IHs & IHb & IHl)].
  - split; [|split]; intros; apply unaffected_fail; tauto.
  - split; [|split]; intros.
    + cbn [ParseSimpleExpression].
      apply unaffected_bind; [apply unaffected_ParseToken|intros [isNumber tok]].
      apply unaffected_bind; [unaffected_auto|intros ok].
      destruct (negb ok); [apply unaffected_ret|].
      destruct isNumber; [apply unaffected_ret|].
      destruct (String.eqb tok "(").
      * apply unaffected_bind; [apply IHb|intros result].
        apply unaffected_bind; [apply unaffected_ParseToken|intros [b tok']].
        unaffected_auto.
      * unaffected_auto.
    + cbn [ParseBinaryExpression]. unaffected_auto.
    + cbn [BinaryLoop].
      apply unaffected_bind; [apply unaffected_ParseToken|intros [b op]].
      cbv zeta. unaffected_auto.
Qed.

Lemma unaffected_Evaluate rhs_first (e : Expression) :
  unaffected text value (Evaluate rhs_first e).
Proof.
  induction e as [tok args IH] using Expression_nested_ind.
  cbn [Evaluate].
  destruct args as [|a0 [|a1 [|a2 args]]].
  - unaffected_auto.
  - apply Forall_cons in IH as [IH0 _].
    fold (Evaluate rhs_first a0). unfold apply_unary. unaffected_auto.
  - apply Forall_cons in IH as [IH0 IH]. apply Forall_cons in IH as [IH1 _].
    fold (Evaluate rhs_first a0). fold (Evaluate rhs_first a1).
    unfold apply_binary. unaffected_auto.
    all: match goal with
         | |- unaffected _ _ (match ?x with Some _ => _ | None => _ end) =>
             destruct x
         end; unaffected_auto.
  - unaffected_auto.
Qed.

(** X17: [AddConstant] does not touch [TOKENS], so a constant registered
    under a name that is not a token is never found by the tokenizer:
    every call of [Get] behaves on the object with the new constant as it
    does on the object without it, and returns the same value with the
    same state. *)
Theorem AddConstant_of_new_name_is_not_seen
    rhs_first fuel input radians (p : Parser) :
  text ∉ TOKENS p ->
  Get rhs_first fuel input radians (AddConstant text value p) =
    outcome_map (fun r => (fst r, AddConstant text value (snd r)))
                (Get rhs_first fuel input radians p) /\
  observe (Get rhs_first fuel input radians (AddConstant text value p)) =
    observe (Get rhs_first fuel input radians p).
Proof.
  intros Hp.
  assert (U : unaffected text value (Get rhs_first fuel input radians)).
  { unfold Get.
    apply unaffected_bind; [apply unaffected_modify; reflexivity|intros _].
    apply unaffected_bind; [apply (unaffected_parse fuel)|intros expr].
    apply unaffected_bind; [apply unaffected_Evaluate|intros result].
    unaffected_auto. }
  destruct (U p Hp) as [E _]. split; [exact E|].
  rewrite E. unfold observe.
  now destruct (Get rhs_first fuel input radians p) as [[v p1]| | |].
Qed.

End NewConstant.

(** ** The parser inside the buffer *)

Section ParserBounds.

Context {LD : LongDouble}.

Lemma safely_bind {A B} (m : M A) (k : A -> M B) p Q :
  safely (m p) (fun a p' => safely (k a p') Q) -> safely (bind m k p) Q.
Proof. unfold bind. now destruct (m p) as [[a p']| | |]. Qed.

Lemma safely_mono {A} (o : outcome (A * Parser)) (Q Q' : A -> Parser -> Prop) :
  safely o Q -> (forall a p, Q a p -> Q' a p) -> safely o Q'.
Proof. destruct o as [[a p]| | |]; cbn; auto. Qed.

Lemma inside_step (p p' : Parser) i :
  parse_step p p' -> in_bounds p' i -> inside p -> inside p'.
Proof.
  intros ((Ht & Hc & _) & Hin & _) Hb (_ & Hn & Hf).
  split; [now exists i|]. split.
  - unfold tokens_nul_free. now rewrite Ht.
  - intros t j. rewrite Ht, Hc, Hin. apply Hf.
Qed.

(** With no constant in the buffer, the token [ParseToken] hands back is
    no longer than what the cursor has advanced. *)
Lemma ParseToken_inside (p : Parser) :
  inside p ->
  safely (ParseToken "" p)
         (fun r p' => inside p' /\
                      exists i', m_Input p' = Some i' /\ 0 <= i' - size (snd r)).
Proof.
  intros Hp. pose proof Hp as ((i & Hb) & Hn & Hf).
  destruct (ParseToken_bounds p i Hb Hn)
    as (b & tok & p' & i' & Ht & Hb' & Hin & Hle & Hres).
  pose proof (ParseToken_step "" p) as Hs. rewrite Ht in *. cbn [ensures safely snd] in *.
  split; [now apply (inside_step p p' i')|].
  exists i'. split; [apply Hb'|].
  destruct Hres as [Hres|(t & j & Htok & Hc & Hj & Hm)].
  - destruct Hb as [_ Hi]. lia.
  - exfalso. apply (Hf t j); auto.
    destruct Hb as [_ Hi]. lia.
Qed.

Lemma parse_inside (fuel : nat) :
  (forall p : Parser, inside p ->
     safely (ParseSimpleExpression fuel p) (fun _ p' => inside p')) /\
  (forall m (p : Parser), inside p ->
     safely (ParseBinaryExpression fuel m p) (fun _ p' => inside p')) /\
  (forall m lhs (p : Parser), inside p ->
     safely (BinaryLoop fuel m lhs p) (fun _ p' => inside p')).
Proof.
  induction fuel as [|fuel (IHs & IHb & IHl)]; [repeat split; intros; exact I|].
  split; [|split].
  - intros p Hp. cbn [ParseSimpleExpression].
    apply safely_bind.
    eapply safely_mono; [apply (ParseToken_inside p Hp)|].
    intros [isNumber tok] p1 [H1 _]. unfold bind at 1, get.
    destruct (negb (IsOk p1)); [exact H1|].
    destruct isNumber; [exact H1|].
    destruct (String.eqb tok "(").
    + apply safely_bind.
      eapply safely_mono; [apply (IHb 0 p1 H1)|]. cbv beta. intros result p2 H2.
      apply safely_bind.
      eapply safely_mono; [apply (ParseToken_inside p2 H2)|].
      intros [b tok'] p3 [H3 _].
      destruct (negb (String.eqb tok' ")")); [|exact H3].
      exact H3.
    + apply safely_bind.
      eapply safely_mono; [apply (IHs p1 H1)|]. cbv beta. intros rhs p2 H2.
      exact H2.
  - intros m p Hp. cbn [ParseBinaryExpression].
    apply safely_bind.
    eapply safely_mono; [apply (IHs p Hp)|]. cbv beta. intros lhs p1 H1.
    now apply IHl.
  - intros m lhs p Hp. cbn [BinaryLoop].
    apply safely_bind.
    eapply safely_mono; [apply (ParseToken_inside p Hp)|].
    intros [b op] p1 [H1 (i' & Hi' & Hback)]. cbn [snd] in Hback. cbv zeta.
    destruct (GetPriority op <=? m).
    + unfold bind, advance, ret. rewrite Hi'. cbn [safely].
      destruct H1 as ((i1 & Hc1 & Hb1) & Hn1 & Hf1).
      assert (i1 = i') by congruence. subst i1.
      split; [|split; [exact Hn1|exact Hf1]].
      exists (i' + - size op). split; [reflexivity|].
      cbn [input set_Input]. unfold size in *. lia.
    + apply safely_bind.
      eapply safely_mono; [apply (IHb _ p1 H1)|]. cbv beta. intros rhs p2 H2.
      now apply IHl.
Qed.

(** X18: when no token that names a constant occurs anywhere in the
    lower-cased text, parsing has no undefined behaviour: the cursor never
    leaves the buffer, and it is inside the buffer when the tree is
    returned. Leaving the buffer takes a constant, whose text is put back
    instead of its name. *)
Theorem Get_tree_stays_in_buffer fuel text radians (p : Parser) :
  tokens_nul_free p ->
  constant_free (Get_begin text radians p) ->
  safely (Get_tree fuel text radians p) (fun _ p1 => exists i, in_bounds p1 i).
Proof.
  intros Hn Hf. unfold Get_tree, bind at 1, modify.
  eapply safely_mono.
  - apply (proj1 (proj2 (parse_inside fuel)) 0 (Get_begin text radians p)).
    split; [|split; [exact Hn|exact Hf]].
    exists 0. split; [reflexivity|]. unfold size. lia.
  - cbv beta. intros e p1 (Hb & _). exact Hb.
Qed.

End ParserBounds.

(** ** The leaves of the tree *)

Section Leaves.

Context {LD : LongDouble}.

(** X22: for every input, and every registry whose constants are stored
    as texts of numbers, each leaf of the tree the parser builds is the
    text that the tokenizer takes for a number - it begins with a digit,
    holds digits and points only and does not end with a point - or it is
    the empty node, and then a failure state has been set; so when parsing
    ends in state [Ok], every leaf passes the test of [case 0] of
    [Evaluate]. *)
Theorem leaves_of_parsed_tree
    (p : Parser) (text : string) (radians : bool) (fuel : nat)
    (e : Expression) (p1 : Parser) :
  constants_numeric p ->
  Get_tree fuel text radians p = Done (e, p1) ->
  Forall (leaf_ok (m_State p1)) (leaves e) /\
  (m_State p1 = Ok ->
   Forall (fun tok => numeric_token tok = true /\ not_numeric tok = false) (leaves e)).
Proof.
  intros Hc Ht.
  assert (Hg : good p1 e).
  { unfold Get_tree, bind, modify in Ht.
    pose proof (proj1 (proj2 (parse_spec fuel)) 0 (Get_begin text radians p) Hc) as H.
    rewrite Ht in H. exact (proj2 H). }
  split; [exact Hg|].
  intros Hok. eapply Forall_impl; [exact Hg|].
  intros tok [Hn|[_ Hs]]; [|congruence].
  split; [exact Hn|now apply numeric_token_passes].
Qed.

End Leaves.

(** ** The loop of [main] *)

Section MainProgram.

Context {LD : LongDouble}.

Lemma Get_summary rhs_first fuel text radians (p : Parser) v p1 :
  Get rhs_first fuel text radians p = Done (v, p1) ->
  same_registry p p1 /\
  (m_State p1 = Ok -> is_Some v) /\
  (has_operators p -> m_State p1 <> UnknownBinaryOperator).
Proof.
  intros H. apply Get_inv in H as (e & pa & pb & Hp & He & ->).
  assert (Ht : Get_tree fuel text radians p = Done (e, pa)) by exact Hp.
  pose proof (proj1 (proj2 (parse_steps fuel)) 0 (Get_begin text radians p)) as Sp.
  rewrite Hp in Sp. cbn [ensures] in Sp.
  pose proof (Evaluate_step rhs_first e pa) as Se.
  pose proof (Evaluate_Ok_value rhs_first e pa (Get_tree_shape _ _ _ _ _ _ Ht)) as V.
  rewrite He in Se, V. cbn [ensures] in Se, V.
  cbn [m_State set_Input]. split; [|split].
  - destruct Sp as (Rp & _), Se as (Re & _).
    apply same_registry_trans with pa; [|exact Re].
    apply same_registry_trans with (Get_begin text radians p); [|exact Rp].
    now repeat split.
  - exact V.
  - intros Ho Hs.
    assert (Ho' : has_operators pa).
    { intros op Hop. destruct Sp as ((_ & _ & _ & E) & _). rewrite E. now apply Ho. }
    pose proof (Evaluate_never_binary rhs_first e pa
                  (Get_tree_shape _ _ _ _ _ _ Ht) Ho') as B.
    rewrite He in B. cbn [ensures] in B. specialize (B Hs).
    destruct Sp as (_ & _ & _ & [S|S]); rewrite B in S; discriminate.
Qed.

Lemma main_loop_registry rhs_first n : forall fuel stdin (p q : Parser),
  same_registry p q ->
  main_loop rhs_first n fuel stdin q = main_loop rhs_first n fuel stdin p.
Proof.
  destruct n as [|n]; intros fuel stdin p q R; [reflexivity|].
  cbn [main_loop]. now rewrite (Get_depends_on_registry _ _ _ _ _ _ R).
Qed.

(** X19: the iterations of the loop of [main] do not depend on one
    another: when the first [n1] iterations are completed, the run goes
    on as a run from the object before the first iteration would on the
    lines that are left. *)
Theorem main_answers_each_line_alone rhs_first n1 n2 fuel stdin (p : Parser) events :
  main_loop rhs_first n1 fuel stdin p = (events, Done tt) ->
  main_loop rhs_first (n1 + n2) fuel stdin p =
  ((events ++ fst (main_loop rhs_first n2 fuel (drop n1 stdin) p))%list,
   snd (main_loop rhs_first n2 fuel (drop n1 stdin) p)).
Proof.
  revert stdin p events.
  induction n1 as [|n1 IH]; intros stdin p events H.
  - cbn [main_loop] in H. inversion H; subst. rewrite drop_0.
    cbn [Nat.add app]. now destruct (main_loop rhs_first n2 fuel stdin p).
  - cbn [main_loop Nat.add] in *.
    destruct (Get rhs_first fuel (hd "" stdin) true p) as [[v p']| | |] eqn:G;
      try discriminate.
    destruct (main_loop rhs_first n1 fuel (tl stdin) p') as [ev o] eqn:L.
    inversion H; subst. rewrite (IH _ _ _ L).
    destruct (Get_summary _ _ _ _ _ _ _ G) as (R & _).
    rewrite (main_loop_registry _ _ _ _ _ _ R).
    replace (drop n1 (tl stdin)) with (drop (S n1) stdin)
      by (destruct stdin; [cbn [tl]; now rewrite !drop_nil|reflexivity]).
    f_equal. rewrite <- app_comm_cons. f_equal. now rewrite app_assoc.
Qed.




Lemma lowercase_blank s : string_forallb isspace s = true -> lowercase s = s.
Proof.
  unfold lowercase. induction s as [|c s IH]; [reflexivity|].
  cbn [string_forallb string_map]. intros H. apply andb_prop in H as [Hc Hs].
  rewrite (IH Hs). f_equal.
  assert (E : isalpha c = false); [|now rewrite E].
  revert Hc. unfold isspace, isalpha, isupper, islower.
  destruct c as [[] [] [] [] [] [] [] []]; vm_compute; congruence.
Qed.

(** [Get] of a text of white space only does not return. *)
Lemma Get_blank rhs_first fuel text radians (p : Parser) :
  string_forallb isspace text = true ->
  Get rhs_first fuel text radians p = OutOfFuel.
Proof.
  intros Hb. apply Get_tree_OutOfFuel.
  unfold Get_tree, bind at 1, modify.
  destruct fuel as [|fuel]; [reflexivity|].
  rewrite ParseBinaryExpression_S. unfold bind.
  rewrite ParseSimpleExpression_at_end; [reflexivity|reflexivity|].
  unfold at_end. cbn [m_Input input Get_begin].
  rewrite (lowercase_blank _ Hb).
  change (string_drop (Z.to_nat 0) text) with (string_drop 0 text).
  replace (string_drop 0 text) with text by (now destruct text).
  rewrite Hb. unfold size. apply andb_true_intro. split; [|reflexivity].
  apply Z.leb_le. lia.
Qed.

(** X21: the loop of [main] does not get past a line of white space only,
    nor past the end of the standard input, where the line [std::getline]
    leaves is empty: the call of [Get] on such a line does not return. *)
Theorem main_stops_at_blank_line rhs_first n fuel stdin (p : Parser) k :
  (k < n)%nat -> string_forallb isspace (nth k stdin "") = true ->
  snd (main_loop rhs_first n fuel stdin p) <> Done tt.
Proof.
  revert stdin p k.
  induction n as [|n IH]; intros stdin p k Hk Hb; [lia|].
  cbn [main_loop].
  destruct (Get rhs_first fuel (hd "" stdin) true p) as [[v p']| | |] eqn:G;
    try discriminate.
  destruct k as [|k].
  - replace (nth 0 stdin "") with (hd "" stdin) in Hb by (now destruct stdin).
    rewrite (Get_blank _ _ _ _ _ Hb) in G. discriminate.
  - specialize (IH (tl stdin) p' k ltac:(lia)).
    destruct (main_loop rhs_first n fuel (tl stdin) p') as [ev o].
    cbn [snd] in *. apply IH.
    now destruct stdin; [destruct k|].
Qed.

End MainProgram.

(** ** Runs that the further properties are instantiated on *)

Section Runs.

Context {LD : LongDouble}.

Lemma sum_tree :
  Get_tree 20 "2+3" true Parser_new =
  Done (Expression2 "+" (Expression0 "2") (Expression0 "3"),
        parsed "2+3" true 3 Ok Parser_new).
Proof. vm_compute; reflexivity. Qed.

Lemma sum_run `{!ExactArith LD} rhs_first :
  Get rhs_first 20 "2+3" true Parser_new =
  Done (Some (ld_of_Z 5), set_Input None (parsed "2+3" true 3 Ok Parser_new)).
Proof.
  apply (Get_evaluates _ _ _ _ _ _ _ _ sum_tree).
  eapply evaluates_binary; [reflexivity| | |].
  - apply (stold_digit "2" 2); [reflexivity|unfold representable; simpl; lia|reflexivity].
  - apply (stold_digit "3" 3); [reflexivity|unfold representable; simpl; lia|reflexivity].
  - change (Some (ld_add (ld_of_Z 2) (ld_of_Z 3)) = Some (ld_of_Z (2 + 3))).
    now rewrite add_exact by (unfold representable; simpl; lia).
Qed.

Lemma trailing_point_run rhs_first :
  Get rhs_first 20 "1." true Parser_new =
  Done (Some (ld_of_Z 0),
        set_Input None (parsed "1." true 2 UnknownExpressionType Parser_new)).
Proof. vm_compute; reflexivity. Qed.

Lemma tokens_nul_free_new : tokens_nul_free Parser_new.
Proof. unfold tokens_nul_free. cbn [TOKENS Parser_new TOKENS_init]. repeat constructor. Qed.

Lemma in_bounds_sum : in_bounds (parsed "2+3" true 1 Ok Parser_new) 1.
Proof. split; [reflexivity|]. vm_compute. split; discriminate. Qed.

Lemma first_iteration `{!ExactArith LD} rhs_first stdin :
  main_loop rhs_first 1 20 ("2+3" :: stdin) Parser_new =
  ([Prompt; Result (Some (ld_of_Z 5))], Done tt).
Proof. cbn [main_loop hd]. now rewrite sum_run. Qed.

Lemma tau_not_token : "tau" ∉ TOKENS Parser_new.
Proof.
  intros H. apply list_elem_of_In in H. cbn [TOKENS Parser_new TOKENS_init In] in H.
  repeat (destruct H as [H|H]; [discriminate H|]). exact H.
Qed.

Lemma sum_constant_free radians : constant_free (Get_begin "2+3" radians Parser_new).
Proof.
  intros t j _ [c Hc] Hj.
  cbn [CONSTANTS input Get_begin Parser_new] in *. unfold CONSTANTS_init in Hc.
  change (size (lowercase "2+3")) with 3 in Hj.
  assert (Ej : j = 0 \/ j = 1 \/ j = 2 \/ j = 3) by lia.
  destruct (decide (t = "pi")) as [->|N1].
  { destruct Ej as [->|[->|[->| ->]]]; vm_compute; discriminate. }
  rewrite lookup_insert_ne in Hc by congruence.
  destruct (decide (t = "e")) as [->|N2].
  { destruct Ej as [->|[->|[->| ->]]]; vm_compute; discriminate. }
  rewrite lookup_insert_ne in Hc by congruence.
  rewrite lookup_empty in Hc. discriminate.
Qed.

End Runs.

Section ExtraRuns.

Import Exact ExactFacts.

Ltac repr := unfold representable; simpl; lia.

Lemma Get_keeps_registry_witness :
  let p1 := set_Input None (parsed (LD := ExactLD) "2+3" true 3 Ok Parser_new) in
  same_registry Parser_new p1 /\
  input p1 = "2+3" /\ m_Radians p1 = true /\ m_Input p1 = None /\
  (forall fuel text radians,
     Get false fuel text radians p1 = Get false fuel text radians Parser_new).
Proof.
  exact (Get_keeps_registry false 20 "2+3" true Parser_new _ _ (sum_run false)).
Defined.

Lemma parsed_tree_shape_witness :
  shape_ok (Expression2 "+" (Expression0 "2") (Expression0 "3")) = true /\
  (forall op, 0 < GetPriority op <-> In op ["+"; "-"; "*"; "/"; "%"; "^"]).
Proof.
  exact (parsed_tree_shape (LD := ExactLD) 20 "2+3" true Parser_new _ _ sum_tree).
Defined.

Lemma Get_Ok_value_witness :
  is_Some (Some (of_Z 5)) /\
  exists e pa, Get_tree (LD := ExactLD) 20 "2+3" true Parser_new = Done (e, pa) /\
               m_State pa = Ok.
Proof.
  exact (Get_Ok_value false 20 "2+3" true Parser_new _ _ (sum_run false) eq_refl).
Defined.


Lemma failure_states_by_stage_witness :
  exists e pa,
    Get_tree (LD := ExactLD) 20 "1." true Parser_new = Done (e, pa) /\
    (m_State pa = Ok \/ m_State pa = InvalidSyntax) /\
    (UnknownExpressionType = m_State pa \/ evaluation_failure UnknownExpressionType).
Proof.
  exact (failure_states_by_stage false 20 "1." true Parser_new _ _
           (trailing_point_run false)).
Defined.

Lemma Get_numeral_witness :
  returns (LD := ExactLD) false Parser_new "1.5" true (Some (Fin (15 # 10))) Ok.
Proof.
  exact (proj2 (Get_numeral (LD := ExactLD) false Parser_new "1.5" true eq_refl)).
Defined.

Lemma ParseToken_stays_in_buffer_witness :
  exists b tok p' i',
    ParseToken "" (parsed (LD := ExactLD) "2+3" true 1 Ok Parser_new) =
      Done ((b, tok), p') /\
    in_bounds p' i' /\ input p' = "2+3" /\ 1 <= i' /\
    (1 <= i' - size tok \/ exists k, CONSTANTS_init !! k = Some tok).
Proof.
  exact (ParseToken_stays_in_buffer (parsed "2+3" true 1 Ok Parser_new) 1
           in_bounds_sum tokens_nul_free_new).
Defined.

Lemma AddFunction_applies_handler_witness :
  returns false (AddFunction (LD := ExactLD) "exp" (fun a => mul a a) Parser_new)
          "exp3" true (Some (mul (of_Z 3) (of_Z 3))) Ok.
Proof.
  apply (AddFunction_applies_handler (LD := ExactLD) false Parser_new "exp" (fun a => mul a a)
           "e"%char "3" (of_Z 3) true); try reflexivity.
  discriminate.
  discriminate.
Defined.

Lemma Get_two_numerals_witness :
  (exists p1, parses (LD := ExactLD) Parser_new "2/4" true
                (Expression2 "/" (Expression0 "2") (Expression0 "4")) p1) /\
  returns (LD := ExactLD) false Parser_new "2/4" true (Some (div (of_Z 2) (of_Z 4))) Ok.
Proof.
  apply (Get_two_numerals (LD := ExactLD) false "2" "/" "4" (of_Z 2) (of_Z 4)
           (fun a b => Some (div a b)) (div (of_Z 2) (of_Z 4)) true);
    try reflexivity.
Defined.

Lemma Get_integer_arithmetic_witness :
  returns (LD := ExactLD) false Parser_new "12+30" true (Some (of_Z 42)) Ok /\
  returns (LD := ExactLD) false Parser_new "12-30" true (Some (of_Z (-18))) Ok /\
  returns (LD := ExactLD) false Parser_new "12*30" true (Some (of_Z 360)) Ok.
Proof.
  destruct (Get_integer_arithmetic (LD := ExactLD) false "12" "30" 12 30 true
              eq_refl eq_refl ltac:(repr) ltac:(repr)) as (A & B & C).
  split; [apply A; repr|split; [apply B; repr|apply C; repr]].
Defined.

Lemma Get_ignores_what_follows_witness :
  returns (LD := ExactLD) false Parser_new "2)@#" true (Some (of_Z 2)) Ok.
Proof.
  exact (Get_ignores_what_follows (LD := ExactLD) false "2" (of_Z 2) "@#" true
           eq_refl eq_refl).
Defined.

Lemma Get_function_of_numeral_witness :
  returns (LD := ExactLD) false Parser_new "sin30" false
          (Some (degrees_in Sin false (of_Z 30))) Ok.
Proof.
  exact (Get_function_of_numeral (LD := ExactLD) false "sin" (degrees_in Sin)
           "30" (of_Z 30) false eq_refl eq_refl eq_refl).
Defined.

Lemma Get_parentheses_witness :
  returns (LD := ExactLD) false Parser_new "(7)" true (Some (of_Z 7)) Ok /\
  (exists p1, parses (LD := ExactLD) Parser_new "(7" true Expression_default p1 /\
              m_State p1 = InvalidSyntax) /\
  returns (LD := ExactLD) false Parser_new "(7" true
          (Some (of_Z 0)) UnknownExpressionType.
Proof.
  exact (Get_parentheses (LD := ExactLD) false "7" (of_Z 7) true eq_refl eq_refl).
Defined.

Lemma AddConstant_of_new_name_is_not_seen_witness :
  Get false 20 "2+3" true (AddConstant (LD := ExactLD) "tau" (of_Z 6) Parser_new) =
    outcome_map (fun r => (fst r, AddConstant "tau" (of_Z 6) (snd r)))
                (Get false 20 "2+3" true Parser_new) /\
  observe (Get false 20 "2+3" true (AddConstant (LD := ExactLD) "tau" (of_Z 6) Parser_new)) =
    observe (Get false 20 "2+3" true Parser_new).
Proof.
  exact (AddConstant_of_new_name_is_not_seen (LD := ExactLD) "tau" (of_Z 6)
           false 20 "2+3" true Parser_new tau_not_token).
Defined.

Lemma Get_tree_stays_in_buffer_witness :
  safely (Get_tree (LD := ExactLD) 20 "2+3" true Parser_new)
         (fun _ p1 => exists i, in_bounds p1 i).
Proof.
  exact (Get_tree_stays_in_buffer (LD := ExactLD) 20 "2+3" true Parser_new
           tokens_nul_free_new (sum_constant_free true)).
Defined.

Lemma main_answers_each_line_alone_witness :
  main_loop (LD := ExactLD) false (1 + 1) 20 ["2+3"; "1."] Parser_new =
  (([Prompt; Result (Some (of_Z 5))] ++
    fst (main_loop false 1 20 (drop 1 ["2+3"; "1."]) Parser_new))%list,
   snd (main_loop false 1 20 (drop 1 ["2+3"; "1."]) Parser_new)).
Proof.
  exact (main_answers_each_line_alone (LD := ExactLD) false 1 1 20 ["2+3"; "1."]
           Parser_new _ (first_iteration false ["1."])).
Defined.

Lemma main_stops_at_blank_line_witness :
  snd (main_loop (LD := ExactLD) false 2 20 ["2+3"] Parser_new) <> Done tt.
Proof.
  exact (main_stops_at_blank_line (LD := ExactLD) false 2 20 ["2+3"] Parser_new 1
           (le_n 2) eq_refl).
Defined.

End ExtraRuns.

(** ** Precedence and remainder on exact arithmetic *)

Section OperatorRuns.

Import Exact ExactFacts.


Lemma modulo_truncates_witness :
  returns (LD := ExactLD) false Parser_new "9.75%4" true (Some (of_Z 1)) Ok /\
  returns (LD := ExactLD) false Parser_new "5.5%2" true (Some (of_Z 1)) Ok /\
  returns (LD := ExactLD) false Parser_new "7%2.5" true (Some (of_Z 1)) Ok.
Proof.
  destruct (@modulo_truncates ExactLD ExactLD_exact false)
    as (_ & G & _ & R1 & _ & _ & R2 & _).
  split; [|split; [exact R1|exact R2]].
  refine (G "9.75" "4" (Fin (975 # 100)) (of_Z 4) 9 4 true
            eq_refl eq_refl eq_refl eq_refl eq_refl eq_refl _ _); discriminate.
Defined.

Lemma leaves_of_parsed_tree_witness :
  Forall (leaf_ok Ok) ["1.2.3"] /\
  (Ok = Ok ->
   Forall (fun tok => numeric_token tok = true /\ not_numeric tok = false) ["1.2.3"]).
Proof.
  exact (@leaves_of_parsed_tree ExactLD Parser_new "1.2.3" true 20
           (Expression0 "1.2.3") (parsed "1.2.3" true 5 Ok Parser_new)
           constants_numeric_new two_points_tree).
Defined.

End OperatorRuns.
